(** * Simple-Email: the command engine of [server.py] and the cache and
      composition paths of [client.py], embedded and verified.

    Python values are modelled as follows.
    - [str] is [string]; a character is a code point below 256.
    - [int] is [Z].
    - the [users] dict is a [gmap string string].
    - the [emails] list of dicts is a [list email]; the dict keys are the
      record fields.
    - [datetime.now().strftime(...)] is an input of each handler ([now]).
    - the file [server_db.json] is a field of the server state.
    - a handler body that may raise is a computation in the monad [Py]. *)

From Stdlib Require Import ZArith NArith Ascii String List Bool Lia.
From Stdlib.Strings Require Import Byte.
From Stdlib Require Import Decimal DecimalString DecimalZ DecimalN DecimalPos.
From stdpp Require Import base option gmap strings list.

Local Open Scope Z_scope.

(* ================================================================== *)
(** * Python string primitives *)
(* ================================================================== *)

Module PyStr.

(** The characters the three wire formats use as delimiters. *)
Definition pipe : ascii := "|"%char.
Definition tilde : ascii := "~"%char.
Definition semi : ascii := ";"%char.

(** [c in s] *)
Fixpoint contains (c : ascii) (s : string) : bool :=
  match s with
  | EmptyString => false
  | String a s' => Ascii.eqb a c || contains c s'
  end.

(** [s.startswith(p)] *)
Fixpoint startswith (p s : string) : bool :=
  match p with
  | EmptyString => true
  | String a p' =>
      match s with
      | EmptyString => false
      | String b s' => Ascii.eqb a b && startswith p' s'
      end
  end.

(** [s.split(sep, maxsplit)] for a one-character [sep]: at most [maxsplit]
    cuts, taken from the left; the result is never empty. *)
Fixpoint splitn (sep : ascii) (maxsplit : nat) (s : string) : list string :=
  match s with
  | EmptyString => [ "" ]
  | String c s' =>
      match maxsplit with
      | O => [ s ]
      | S k =>
          if Ascii.eqb c sep then "" :: splitn sep k s'
          else match splitn sep maxsplit s' with
               | h :: t => String c h :: t
               | [] => [ String c "" ]
               end
      end
  end.

(** [s.split(sep)]: no bound on the number of cuts. A string of length
    [n] has at most [n] separators. *)
Definition split (sep : ascii) (s : string) : list string :=
  splitn sep (String.length s) s.

(** [s.replace(old, new)] for one-character [old] and [new]. *)
Fixpoint replace (old new : ascii) (s : string) : string :=
  match s with
  | EmptyString => EmptyString
  | String c s' =>
      String (if Ascii.eqb c old then new else c) (replace old new s')
  end.

(** [str.isspace] on code points below 256. *)
Definition is_space (c : ascii) : bool :=
  let n := nat_of_ascii c in
  ((9 <=? n) && (n <=? 13) || (28 <=? n) && (n <=? 32)
   || (n =? 133) || (n =? 160))%nat.

(** [s.lstrip()] *)
Fixpoint lstrip (s : string) : string :=
  match s with
  | EmptyString => EmptyString
  | String c s' => if is_space c then lstrip s' else s
  end.

(** [s.rstrip()] *)
Fixpoint rstrip (s : string) : string :=
  match s with
  | EmptyString => EmptyString
  | String c s' =>
      match rstrip s' with
      | EmptyString => if is_space c then EmptyString else String c EmptyString
      | r => String c r
      end
  end.

(** [s.strip()] *)
Definition strip (s : string) : string := rstrip (lstrip s).

(** [s.rstrip(c)] for a single character [c]. *)
Fixpoint rstrip_char (c : ascii) (s : string) : string :=
  match s with
  | EmptyString => EmptyString
  | String a s' =>
      match rstrip_char c s' with
      | EmptyString => if Ascii.eqb a c then EmptyString else String a EmptyString
      | r => String a r
      end
  end.

(** [sep.join(l)] *)
Fixpoint join (sep : string) (l : list string) : string :=
  match l with
  | [] => ""
  | [ x ] => x
  | x :: t => x +:+ sep +:+ join sep t
  end.

(** Truthiness of a string: [if s], [not s]. *)
Definition truthy (s : string) : bool :=
  match s with EmptyString => false | _ => true end.

End PyStr.

(* ================================================================== *)
(** * Python integers as text: [str(n)], [int(s)], [repr(s)] *)
(* ================================================================== *)

Module PyInt.
Import PyStr.

(** Exceptions of the command engine: [int()] raises [ValueError], an
    index past the end of a list raises [IndexError]. *)
Inductive exn : Type :=
| ValueError (msg : string)
| IndexError (msg : string).

(** [str(e)] for an exception [e]. *)
Definition exn_str (e : exn) : string :=
  match e with ValueError msg | IndexError msg => msg end.

(** [str(n)], also what [f"{n}"] interpolates. *)
Definition py_str (n : Z) : string := NilZero.string_of_int (Z.to_int n).

Definition is_digit (c : ascii) : bool :=
  let n := nat_of_ascii c in ((48 <=? n) && (n <=? 57))%nat.

Definition digit_val (c : ascii) : Z := Z.of_nat (nat_of_ascii c) - 48.

(** The digit part of an integer literal: groups of digits separated by
    single underscores. [prev] tells whether the previous character was a
    digit. *)
Fixpoint int_digits (acc : Z) (prev : bool) (s : string) : option Z :=
  match s with
  | EmptyString => if prev then Some acc else None
  | String c s' =>
      if is_digit c then int_digits (10 * acc + digit_val c) true s'
      else if Ascii.eqb c "_" && prev then int_digits acc false s'
      else None
  end.

(** The double quote character. *)
Definition dquote : ascii := ascii_of_nat 34.

Definition hex_digit (n : nat) : ascii :=
  ascii_of_nat (if (n <? 10)%nat then 48 + n else 87 + n).

(** One character of [repr(s)] when [q] is the quote in use. *)
Definition repr_char (q c : ascii) : string :=
  let n := nat_of_ascii c in
  if Ascii.eqb c q || Ascii.eqb c "\" then String "\" (String c "")
  else if (n =? 9)%nat then "\t"
  else if (n =? 10)%nat then "\n"
  else if (n =? 13)%nat then "\r"
  else if ((n <? 32) || (127 <=? n) && (n <=? 160) || (n =? 173))%nat
  then String "\" (String "x"
         (String (hex_digit (n / 16)) (String (hex_digit (n mod 16)) "")))
  else String c "".

Fixpoint repr_body (q : ascii) (s : string) : string :=
  match s with
  | EmptyString => EmptyString
  | String c s' => repr_char q c +:+ repr_body q s'
  end.

(** [repr(s)]: single quotes, unless [s] has a single quote and no double
    quote. *)
Definition py_repr (s : string) : string :=
  let q := if contains "'" s && negb (contains dquote s) then dquote
           else "'"%char in
  String q (repr_body q s +:+ String q "").

(** The white space [int()] skips around a number, on code points below
    256: the white space of C (tab to carriage return, and the space), and
    the two characters above 127 that it first turns into spaces, NEL and
    the no-break space. The separators 28 to 31, which [str.strip] drops,
    are not among them. *)
Definition int_space (c : ascii) : bool :=
  let n := nat_of_ascii c in
  ((9 <=? n) && (n <=? 13) || (n =? 32) || (n =? 133) || (n =? 160))%nat.

Fixpoint int_lstrip (s : string) : string :=
  match s with
  | EmptyString => EmptyString
  | String c s' => if int_space c then int_lstrip s' else s
  end.

Fixpoint int_rstrip (s : string) : string :=
  match s with
  | EmptyString => EmptyString
  | String c s' =>
      match int_rstrip s' with
      | EmptyString =>
          if int_space c then EmptyString else String c EmptyString
      | r => String c r
      end
  end.

Definition int_strip (s : string) : string := int_rstrip (int_lstrip s).

(** The message of the [ValueError] of [int(s)]: the format
    [%.200R] keeps the first 200 characters of [repr(s)]. *)
Definition invalid_literal (s : string) : string :=
  "invalid literal for int() with base 10: "
  +:+ String.substring 0 200 (py_repr s).

(** [int(s)] in base 10: the white space around the number is skipped, one
    sign is allowed, then digits. The interpreter's limit on the number of
    digits (4300 by default from Python 3.11 on) is not modelled: on a
    text with more digits than that, where such an interpreter raises
    [ValueError], this gives the number. *)
Definition py_int (s : string) : exn + Z :=
  let t := int_strip s in
  let r :=
    match t with
    | String "-" t' => option_map Z.opp (int_digits 0 false t')
    | String "+" t' => int_digits 0 false t'
    | _ => int_digits 0 false t
    end in
  match r with
  | Some n => inr n
  | None => inl (ValueError (invalid_literal s))
  end.

End PyInt.

(* ================================================================== *)
(** * The server: [class EmailServer] of [server.py] *)
(* ================================================================== *)

Module Server.
Import PyStr PyInt.

(** One element of [self.emails]; the field [e_k] is the dict key ['k']. *)
Record email : Type := mkEmail {
  e_id : Z;
  e_from : string;
  e_to : string;
  e_subject : string;
  e_body : string;
  e_timestamp : string;
  e_read : bool
}.

#[global] Instance email_eq_dec : EqDecision email.
Proof. solve_decision. Defined.

(** What [save_server_data] dumps into [server_db.json]. *)
Record db : Type := mkDb {
  db_users : gmap string string;
  db_emails : list email;
  db_email_id_counter : Z
}.

(** The attributes of [EmailServer] the handlers use, and the content of
    the file [server_db.json] ([None]: no file). *)
Record EmailServer : Type := mkServer {
  users : gmap string string;
  emails : list email;
  email_id_counter : Z;
  clients : Z;
  server_db_json : option db
}.

(** [EmailServer.__init__] before [load_server_data], with no file. *)
Definition init : EmailServer :=
  mkServer ∅ [] 0 0 None.

(** ** Computations over the server that may raise *)

Definition Py (A : Type) : Type := EmailServer -> (exn + A) * EmailServer.

Definition ret {A} (a : A) : Py A := fun st => (inr a, st).

Definition raise {A} (e : exn) : Py A := fun st => (inl e, st).

Definition bind {A B} (m : Py A) (k : A -> Py B) : Py B :=
  fun st =>
    match m st with
    | (inl e, st') => (inl e, st')
    | (inr a, st') => k a st'
    end.

(** [try: m  except Exception as e: h e] *)
Definition try_except {A} (m : Py A) (h : exn -> Py A) : Py A :=
  fun st =>
    match m st with
    | (inl e, st') => h e st'
    | (inr a, st') => (inr a, st')
    end.

Definition get : Py EmailServer := fun st => (inr st, st).

Definition modify (f : EmailServer -> EmailServer) : Py unit :=
  fun st => (inr tt, f st).

(** A call that returns or raises without touching the server. *)
Definition lift {A} (r : exn + A) : Py A := fun st => (r, st).

Notation "x <- m ;; k" := (bind m (fun x => k))
  (at level 100, m at next level, right associativity).
Notation "m ;;; k" := (bind m (fun _ => k))
  (at level 100, right associativity).

(** The answer of every handler's [except Exception as e] clause. *)
Definition error_response (e : exn) : Py string :=
  ret ("ERROR|" +:+ exn_str e).

(** ** Persistence *)

(** [save_server_data]: the whole store overwrites the file. The write is
    taken to succeed. *)
Definition save_server_data : Py unit :=
  modify (fun st =>
    mkServer (users st) (emails st) (email_id_counter st) (clients st)
      (Some (mkDb (users st) (emails st) (email_id_counter st)))).

(** [load_server_data], as [__init__] calls it on fresh attributes. *)
Definition load_server_data (st : EmailServer) : EmailServer :=
  match server_db_json st with
  | Some d =>
      mkServer (db_users d) (db_emails d) (db_email_id_counter d)
        (clients st) (server_db_json st)
  | None => st
  end.

(** A new process on the same file system. *)
Definition restart (st : EmailServer) : EmailServer :=
  load_server_data (mkServer ∅ [] 0 0 (server_db_json st)).

(** ** Store updates *)

Definition set_users (u : gmap string string) (st : EmailServer) :=
  mkServer u (emails st) (email_id_counter st) (clients st)
    (server_db_json st).

Definition set_emails (l : list email) (st : EmailServer) :=
  mkServer (users st) l (email_id_counter st) (clients st)
    (server_db_json st).

Definition set_email_id_counter (n : Z) (st : EmailServer) :=
  mkServer (users st) (emails st) n (clients st) (server_db_json st).

(** [next((e for e in self.emails if e['id'] == msg_id), None)] *)
Definition find_email (msg_id : Z) (l : list email) : option email :=
  List.find (fun e => e_id e =? msg_id) l.

Arguments find_email : simpl never.

Definition mark_read (e : email) : email :=
  mkEmail (e_id e) (e_from e) (e_to e) (e_subject e) (e_body e)
    (e_timestamp e) true.

(** [email['read'] = True] where [email] is the object [find_email]
    returned: the first element with that id changes in place. *)
Fixpoint set_read (msg_id : Z) (l : list email) : list email :=
  match l with
  | [] => []
  | e :: t =>
      if e_id e =? msg_id then mark_read e :: t
      else e :: set_read msg_id t
  end.

(** [self.emails.remove(email)]: the first element equal to [email] goes.
    [email] was found in the list, so the call does not raise. *)
Fixpoint list_remove (x : email) (l : list email) : list email :=
  match l with
  | [] => []
  | y :: t => if decide (y = x) then t else y :: list_remove x t
  end.

(** [username in self.users] *)
Definition has_user (username : string) (st : EmailServer) : bool :=
  match users st !! username with Some _ => true | None => false end.

(** [len(l)] as a Python integer. *)
Definition len {A} (l : list A) : Z := Z.of_nat (length l).

(** ** The handlers *)

(** [handle_register]: [REGISTER|username|password] *)
Definition handle_register (data : string) : Py string :=
  try_except
    (match splitn pipe 2 data with
     | [ _; username; password ] =>
         st <- get ;;
         if has_user username st then ret "ERROR|Username already exists"
         else
           modify (fun st => set_users (<[username := password]> (users st)) st) ;;;
           save_server_data ;;;
           ret ("OK|User " +:+ username +:+ " registered successfully")
     | _ => ret "ERROR|Invalid REGISTER format"
     end)
    error_response.

(** [handle_login]: [LOGIN|username|password] *)
Definition handle_login (data : string) : Py string :=
  try_except
    (match split pipe data with
     | [ _; username; password ] =>
         st <- get ;;
         match users st !! username with
         | None => ret "ERROR|Username not found"
         | Some stored =>
             if negb (String.eqb stored password)
             then ret "ERROR|Invalid password"
             else ret ("OK|Welcome " +:+ username +:+ "!")
         end
     | _ => ret "ERROR|Invalid LOGIN format"
     end)
    error_response.

(** [handle_send]: [SEND|from|to|subject|body] *)
Definition handle_send (now : string) (data : string) : Py string :=
  try_except
    (match splitn pipe 4 data with
     | [ _; sender; recipient; subject; body ] =>
         st <- get ;;
         if negb (has_user recipient st) then ret "ERROR|Recipient not found"
         else
           modify (fun st => set_email_id_counter (email_id_counter st + 1) st) ;;;
           st <- get ;;
           let email :=
             mkEmail (email_id_counter st) sender recipient subject body
               now false in
           modify (fun st => set_emails (emails st ++ [ email ]) st) ;;;
           save_server_data ;;;
           ret ("OK|Email sent to " +:+ recipient)
     | _ =>
         ret "ERROR|Invalid SEND format (need: SEND|from|to|subject|body)"
     end)
    error_response.

(** One entry of the INBOX listing. *)
Definition inbox_entry_text (e : email) : string :=
  py_str (e_id e) +:+ "~" +:+ e_from e +:+ "~" +:+ e_subject e +:+ "~"
  +:+ e_timestamp e +:+ "~" +:+ (if e_read e then "READ" else "UNREAD").

(** What the INBOX loop appends for one message: the entry and a [;]. *)
Definition inbox_item (e : email) : string := inbox_entry_text e +:+ ";".

(** One entry of the SENT listing. *)
Definition sent_entry_text (e : email) : string :=
  py_str (e_id e) +:+ "~" +:+ e_to e +:+ "~" +:+ e_subject e +:+ "~"
  +:+ e_timestamp e.

(** What the SENT loop appends for one message. *)
Definition sent_item (e : email) : string := sent_entry_text e +:+ ";".

(** [for email in l: response += item(email)] *)
Definition add_items (item : email -> string) (l : list email)
    (response : string) : string :=
  fold_left (fun r e => r +:+ item e) l response.

(** [handle_inbox]: [INBOX|username] *)
Definition handle_inbox (data : string) : Py string :=
  try_except
    (match split pipe data with
     | [ _; username ] =>
         st <- get ;;
         let inbox := List.filter (fun e => String.eqb (e_to e) username) (emails st) in
         match inbox with
         | [] => ret "EMPTY|No emails in inbox"
         | _ =>
             let response := "OK|" +:+ py_str (len inbox) +:+ "|" in
             ret (rstrip_char semi (add_items inbox_item inbox response))
         end
     | _ => ret "ERROR|Invalid INBOX format"
     end)
    error_response.

(** [handle_sent]: [SENT|username] *)
Definition handle_sent (data : string) : Py string :=
  try_except
    (match split pipe data with
     | [ _; username ] =>
         st <- get ;;
         let sent := List.filter (fun e => String.eqb (e_from e) username) (emails st) in
         match sent with
         | [] => ret "EMPTY|No sent emails"
         | _ =>
             let response := "OK|" +:+ py_str (len sent) +:+ "|" in
             ret (rstrip_char semi (add_items sent_item sent response))
         end
     | _ => ret "ERROR|Invalid SENT format"
     end)
    error_response.

(** The access check shared by READ, DELETE, FORWARD and EXPORT:
    [email['to'] != username and email['from'] != username]. *)
Definition no_access (e : email) (username : string) : bool :=
  negb (String.eqb (e_to e) username) && negb (String.eqb (e_from e) username).

(** [handle_read]: [READ|username|msg_id] *)
Definition handle_read (data : string) : Py string :=
  try_except
    (match split pipe data with
     | [ _; username; msg_id ] =>
         msg_id <- lift (py_int msg_id) ;;
         st <- get ;;
         match find_email msg_id (emails st) with
         | None => ret "ERROR|Email not found"
         | Some email =>
             if no_access email username then ret "ERROR|Access denied"
             else
               (if String.eqb (e_to email) username
                then
                  modify (fun st => set_emails (set_read msg_id (emails st)) st) ;;;
                  save_server_data
                else ret tt) ;;;
               ret ("OK|" +:+ py_str (e_id email) +:+ "|" +:+ e_from email
                    +:+ "|" +:+ e_to email +:+ "|" +:+ e_subject email
                    +:+ "|" +:+ e_body email +:+ "|" +:+ e_timestamp email)
         end
     | _ => ret "ERROR|Invalid READ format"
     end)
    error_response.

(** [handle_delete]: [DELETE|username|msg_id] *)
Definition handle_delete (data : string) : Py string :=
  try_except
    (match split pipe data with
     | [ _; username; msg_id ] =>
         msg_id <- lift (py_int msg_id) ;;
         st <- get ;;
         match find_email msg_id (emails st) with
         | None => ret "ERROR|Email not found"
         | Some email =>
             if no_access email username then ret "ERROR|Access denied"
             else
               modify (fun st => set_emails (list_remove email (emails st)) st) ;;;
               save_server_data ;;;
               ret ("OK|Email #" +:+ py_str msg_id +:+ " deleted")
         end
     | _ => ret "ERROR|Invalid DELETE format"
     end)
    error_response.

(** The message [handle_forward] builds from [original]. *)
Definition forwarded_email (new_id : Z) (username new_recipient now : string)
    (original : email) : email :=
  mkEmail new_id username new_recipient
    ("FWD: " +:+ e_subject original)
    ("[Forwarded from " +:+ e_from original +:+ "]" +:+ String "010" (String "010" (e_body original)))
    now false.

(** [handle_forward]: [FORWARD|username|msg_id|new_recipient] *)
Definition handle_forward (now : string) (data : string) : Py string :=
  try_except
    (match split pipe data with
     | [ _; username; msg_id; new_recipient ] =>
         msg_id <- lift (py_int msg_id) ;;
         st <- get ;;
         match find_email msg_id (emails st) with
         | None => ret "ERROR|Email not found"
         | Some original =>
             if no_access original username then ret "ERROR|Access denied"
             else if negb (has_user new_recipient st)
             then ret "ERROR|Recipient not found"
             else
               modify (fun st => set_email_id_counter (email_id_counter st + 1) st) ;;;
               st <- get ;;
               let forwarded :=
                 forwarded_email (email_id_counter st) username new_recipient
                   now original in
               modify (fun st => set_emails (emails st ++ [ forwarded ]) st) ;;;
               ret ("OK|Email forwarded to " +:+ new_recipient)
         end
     | _ => ret "ERROR|Invalid FORWARD format"
     end)
    error_response.

(** [handle_export]: [EXPORT|username|msg_id] *)
Definition handle_export (data : string) : Py string :=
  try_except
    (match split pipe data with
     | [ _; username; msg_id ] =>
         msg_id <- lift (py_int msg_id) ;;
         st <- get ;;
         match find_email msg_id (emails st) with
         | None => ret "ERROR|Email not found"
         | Some email =>
             if no_access email username then ret "ERROR|Access denied"
             else
               let nl := String "010" "" in
               let filename :=
                 "email_" +:+ py_str msg_id +:+ "_" +:+ username +:+ ".txt" in
               let content :=
                 "From: " +:+ e_from email +:+ nl
                 +:+ "To: " +:+ e_to email +:+ nl
                 +:+ "Subject: " +:+ e_subject email +:+ nl
                 +:+ "Date: " +:+ e_timestamp email +:+ nl
                 +:+ nl +:+ e_body email +:+ nl in
               ret ("OK|Email exported to " +:+ filename +:+ "|" +:+ content)
         end
     | _ => ret "ERROR|Invalid EXPORT format"
     end)
    error_response.

(** [handle_status]: [STATUS|username], or the global counts. *)
Definition handle_status (data : string) : Py string :=
  try_except
    (st <- get ;;
     match split pipe data with
     | [ _; username ] =>
         let total_inbox :=
           len (List.filter (fun e => String.eqb (e_to e) username) (emails st)) in
         let unread :=
           len (List.filter
                  (fun e => String.eqb (e_to e) username && negb (e_read e))
                  (emails st)) in
         let total_sent :=
           len (List.filter (fun e => String.eqb (e_from e) username) (emails st)) in
         ret ("OK|Inbox: " +:+ py_str total_inbox +:+ " (" +:+ py_str unread
              +:+ " unread)|Sent: " +:+ py_str total_sent)
     | _ =>
         let total_users := Z.of_nat (size (users st)) in
         let total_emails := len (emails st) in
         ret ("OK|Users: " +:+ py_str total_users +:+ "|Emails: "
              +:+ py_str total_emails +:+ "|Active Clients: "
              +:+ py_str (clients st))
     end)
    error_response.

(** ** The dispatcher *)

(** The dict [handlers] of [process_command], as its [get] method. *)
Definition handlers (now : string) (command : string)
    : option (string -> Py string) :=
  if String.eqb command "REGISTER" then Some handle_register
  else if String.eqb command "LOGIN" then Some handle_login
  else if String.eqb command "SEND" then Some (handle_send now)
  else if String.eqb command "INBOX" then Some handle_inbox
  else if String.eqb command "SENT" then Some handle_sent
  else if String.eqb command "READ" then Some handle_read
  else if String.eqb command "DELETE" then Some handle_delete
  else if String.eqb command "FORWARD" then Some (handle_forward now)
  else if String.eqb command "EXPORT" then Some handle_export
  else if String.eqb command "STATUS" then Some handle_status
  else None.

(** [l[0]] *)
Definition index0 (l : list string) : Py string :=
  match l with
  | x :: _ => ret x
  | [] => raise (IndexError "list index out of range")
  end.

(** [process_command]; [now] is the clock reading a handler would get. *)
Definition process_command (now : string) (data : string) : Py string :=
  if negb (truthy data) then ret "ERROR|Empty command"
  else
    command <- index0 (split pipe data) ;;
    match handlers now command with
    | Some handler => handler data
    | None => ret ("ERROR|Unknown command '" +:+ command +:+ "'")
    end.

(** ** Runs of the command engine *)

(** One request: the clock reading and the command string received. *)
Definition request : Type := string * string.

(** The server after [process_command] on one request. *)
Definition step (st : EmailServer) (r : request) : EmailServer :=
  snd (process_command (fst r) (snd r) st).

(** The response to one request; an escaping exception is [inl]. *)
Definition respond (st : EmailServer) (r : request) : exn + string :=
  fst (process_command (fst r) (snd r) st).

(** The server after a sequence of requests, within one process. *)
Definition run (st : EmailServer) (rs : list request) : EmailServer :=
  fold_left step rs st.

(** What happens to a server: a request is processed, or the process is
    stopped and a new one started on the same file. *)
Inductive event : Type :=
| Request (r : request)
| Restart.

Definition apply_event (st : EmailServer) (ev : event) : EmailServer :=
  match ev with
  | Request r => step st r
  | Restart => restart st
  end.

Definition run_events (st : EmailServer) (evs : list event) : EmailServer :=
  fold_left apply_event evs st.

(** The states of a server first started without a file. *)
Definition reachable (st : EmailServer) : Prop :=
  exists evs, st = run_events init evs.

(** ** Command strings *)

Definition register_text (username password : string) : string :=
  "REGISTER|" +:+ username +:+ "|" +:+ password.

Definition login_text (username password : string) : string :=
  "LOGIN|" +:+ username +:+ "|" +:+ password.

Definition read_text (username : string) (msg_id : Z) : string :=
  "READ|" +:+ username +:+ "|" +:+ py_str msg_id.

Definition delete_text (username : string) (msg_id : Z) : string :=
  "DELETE|" +:+ username +:+ "|" +:+ py_str msg_id.

Definition forward_text (username : string) (msg_id : Z)
    (new_recipient : string) : string :=
  "FORWARD|" +:+ username +:+ "|" +:+ py_str msg_id +:+ "|" +:+ new_recipient.

(** The response of a successful READ of [e]. *)
Definition read_ok_text (e : email) : string :=
  "OK|" +:+ py_str (e_id e) +:+ "|" +:+ e_from e +:+ "|" +:+ e_to e
  +:+ "|" +:+ e_subject e +:+ "|" +:+ e_body e +:+ "|" +:+ e_timestamp e.

(** ** Invariants of the store *)

(** The ids of [l] increase strictly along the list, from above [lo] up
    to [hi]. *)
Fixpoint ids_between (lo : Z) (l : list email) (hi : Z) : Prop :=
  match l with
  | [] => lo <= hi
  | e :: t => lo < e_id e /\ ids_between (e_id e) t hi
  end.

(** No user name and no party of a message contains a [|]. *)
Definition names_ok (u : gmap string string) (l : list email) : Prop :=
  (forall k, is_Some (u !! k) -> contains pipe k = false)
  /\ Forall (fun e => contains pipe (e_from e) = false
                      /\ contains pipe (e_to e) = false) l.

Definition store_ok (u : gmap string string) (l : list email) (c : Z)
    : Prop :=
  ids_between 0 l c /\ names_ok u l.

(** The invariant: the store in memory and the one in the file are both
    well formed. *)
Definition inv (st : EmailServer) : Prop :=
  store_ok (users st) (emails st) (email_id_counter st)
  /\ forall d, server_db_json st = Some d ->
       store_ok (db_users d) (db_emails d) (db_email_id_counter d).

(** The server with its store written to the file. *)
Definition saved (st : EmailServer) : EmailServer :=
  snd (save_server_data st).

(** The server with one more message, numbered by the advanced counter. *)
Definition with_new (mk : Z -> email) (st : EmailServer) : EmailServer :=
  let st1 := set_email_id_counter (email_id_counter st + 1) st in
  set_emails (emails st1 ++ [ mk (email_id_counter st1) ]) st1.

(** The ways one request can change the server. *)
Inductive transition (st : EmailServer) : EmailServer -> Prop :=
| tr_none : transition st st
| tr_register username password :
    users st !! username = None ->
    contains pipe username = false ->
    transition st
      (saved (set_users (<[username := password]> (users st)) st))
| tr_send sender recipient subject body now :
    contains pipe sender = false ->
    has_user recipient st = true ->
    transition st
      (saved (with_new (fun i => mkEmail i sender recipient subject body
                                   now false) st))
| tr_read msg_id e :
    find_email msg_id (emails st) = Some e ->
    transition st (saved (set_emails (set_read msg_id (emails st)) st))
| tr_delete msg_id e :
    find_email msg_id (emails st) = Some e ->
    transition st (saved (set_emails (list_remove e (emails st)) st))
| tr_forward username new_recipient now msg_id e :
    find_email msg_id (emails st) = Some e ->
    no_access e username = false ->
    has_user new_recipient st = true ->
    transition st
      (with_new (fun i => forwarded_email i username new_recipient now e) st).

(** The keys of the dict [handlers]. *)
Definition verbs : list string :=
  [ "REGISTER"; "LOGIN"; "SEND"; "INBOX"; "SENT"; "READ"; "DELETE";
    "FORWARD"; "EXPORT"; "STATUS" ].

(** The file holds exactly the store in memory. *)
Definition durable (st : EmailServer) : Prop :=
  server_db_json st
  = Some (mkDb (users st) (emails st) (email_id_counter st)).

(** The counter in the file is not ahead of the one in memory. *)
Definition file_behind (st : EmailServer) : Prop :=
  forall d, server_db_json st = Some d ->
    db_email_id_counter d <= email_id_counter st.

(** No message has the id [i] and none will get it: neither in memory nor
    in the file. *)
Definition retired (i : Z) (st : EmailServer) : Prop :=
  (find_email i (emails st) = None /\ i <= email_id_counter st)
  /\ exists d, server_db_json st = Some d
       /\ find_email i (db_emails d) = None /\ i <= db_email_id_counter d.

(** [username] is registered with [password], in memory and in the
    file. *)
Definition registered (username password : string) (st : EmailServer)
    : Prop :=
  users st !! username = Some password
  /\ exists d, server_db_json st = Some d
       /\ db_users d !! username = Some password.

End Server.

(* ================================================================== *)
(** * The client: cache reconciliation and subject capture of
      [client.py] *)
(* ================================================================== *)

Module Client.
Import PyStr PyInt.

(** An element of [cache['inbox']]. *)
Record inbox_summary : Type := mkInboxSummary {
  i_id : string;
  i_from : string;
  i_subject : string;
  i_timestamp : string;
  i_read : bool
}.

(** An element of [cache['sent']]. *)
Record sent_summary : Type := mkSentSummary {
  s_id : string;
  s_to : string;
  s_subject : string;
  s_timestamp : string
}.

(** [self.cache]; [last_sync] is [None] until the first inbox sync. *)
Record cache : Type := mkCache {
  inbox : list inbox_summary;
  sent : list sent_summary;
  last_sync : option string
}.

(** The body of the [for email_str in ...] loop of [sync_inbox]: the
    summary appended for one piece, if any. *)
Definition inbox_of_piece (email_str : string) : option inbox_summary :=
  if truthy (strip email_str) then
    match split tilde email_str with
    | p0 :: p1 :: p2 :: p3 :: p4 :: _ =>
        Some (mkInboxSummary p0 p1 p2 p3 (String.eqb p4 "READ"))
    | _ => None
    end
  else None.

(** The same for [sync_sent]. *)
Definition sent_of_piece (email_str : string) : option sent_summary :=
  if truthy (strip email_str) then
    match split tilde email_str with
    | p0 :: p1 :: p2 :: p3 :: _ => Some (mkSentSummary p0 p1 p2 p3)
    | _ => None
    end
  else None.

(** The list a parsing loop builds from [emails_data]. *)
Definition parse_listing {A} (of_piece : string -> option A)
    (emails_data : string) : list A :=
  omap of_piece (split semi emails_data).

(** [sync_inbox]: [response] is what [send_command] returned and [now]
    the clock reading; the result is the returned list and the cache
    afterwards. *)
Definition sync_inbox (now response : string) (c : cache)
    : list inbox_summary * cache :=
  if startswith "EMPTY" response then
    ([], mkCache [] (sent c) (Some now))
  else if negb (startswith "OK" response) then
    (inbox c, c)
  else
    match splitn pipe 2 response with
    | _ :: _ :: emails_data :: _ =>
        let emails := parse_listing inbox_of_piece emails_data in
        (emails, mkCache emails (sent c) (Some now))
    | _ => ([], c)
    end.

(** [sync_sent] *)
Definition sync_sent (response : string) (c : cache)
    : list sent_summary * cache :=
  if startswith "EMPTY" response then
    ([], mkCache (inbox c) [] (last_sync c))
  else if negb (startswith "OK" response) then
    (sent c, c)
  else
    match splitn pipe 2 response with
    | _ :: _ :: emails_data :: _ =>
        let emails := parse_listing sent_of_piece emails_data in
        (emails, mkCache (inbox c) emails (last_sync c))
    | _ => ([], c)
    end.

(** The subject [compose_email] keeps from the line typed at the
    [Subject:] prompt. *)
Definition compose_subject (typed : string) : string :=
  replace semi "," (replace tilde "-" (replace pipe "-" (strip typed))).

(** The subject [resume_draft] keeps: the line typed at the prompt, or the
    draft's subject when that line is blank. *)
Definition resume_subject (typed draft_subject : string) : string :=
  let new_subject := strip typed in
  let subject := if truthy new_subject then new_subject else draft_subject in
  replace tilde "-" (replace pipe "-" subject).

(** The command both paths transmit. *)
Definition send_text (username recipient subject body : string) : string :=
  "SEND|" +:+ username +:+ "|" +:+ recipient +:+ "|" +:+ subject +:+ "|"
  +:+ body.

(** The sync policy as the specification words it, for [sync_inbox]: after a response that
    starts with OK the cached list is the list the call produced. *)
Definition ok_always_replaces : Prop :=
  forall now response c,
    startswith "OK" response = true ->
    inbox (sync_inbox now response c).2 = (sync_inbox now response c).1.

(** The subject capture as the specification words it: a [~] typed in
    the subject is transmitted as a comma. *)
Definition tilde_becomes_comma : Prop :=
  forall typed n,
    String.get n (strip typed) = Some tilde ->
    String.get n (compose_subject typed) = Some ","%char.

(** What the capture of [compose_email] does to one character. *)
Definition compose_char (c : ascii) : ascii :=
  if Ascii.eqb c pipe || Ascii.eqb c tilde then "-"%char
  else if Ascii.eqb c semi then ","%char
  else c.

End Client.

(* ================================================================== *)
(** * The wire codec: [send] and [receive] of both files *)
(* ================================================================== *)

Module Wire.

(** The receiving end of a connection: the pieces the network will hand
    to successive [recv] calls, and whether the peer has closed. *)
Record channel : Type := mkChannel {
  pending : list (list Byte.byte);
  closed : bool
}.

(** [channel.recv(n)]: at most [n] bytes of the first piece. With nothing
    pending, a closed connection gives [b''] and an open one never
    returns ([None]). *)
Definition recv (n : nat) (ch : channel) : option (list byte * channel) :=
  match pending ch with
  | [] => if closed ch then Some ([], ch) else None
  | piece :: rest =>
      let left := skipn n piece in
      Some (firstn n piece,
            mkChannel (match left with [] => rest | _ => left :: rest end)
              (closed ch))
  end.

(** The network hands over no empty piece. *)
Definition nonempty (p : list byte) : Prop := p <> [].

(** How a call of [receive] ends. [Looping]: the [while] loop was still
    running when the fuel ran out. [Blocked]: a [recv] never returned. *)
Inductive outcome : Type :=
| Returned (v : string)
| Raised (e : string)
| Looping
| Blocked.

Definition returned (o : outcome) : bool :=
  match o with Returned _ => true | _ => false end.

Definition byte_of_N (n : N) : byte :=
  match Byte.of_N n with Some b => b | None => Byte.x00 end.

(** The [w] low bytes of [v], least significant first. *)
Fixpoint le_bytes (w : nat) (v : N) : list byte :=
  match w with
  | O => []
  | S k => byte_of_N (v mod 256) :: le_bytes k (v / 256)
  end.

Fixpoint le_value (bs : list byte) : N :=
  match bs with
  | [] => 0
  | b :: t => Byte.to_N b + 256 * le_value t
  end%N.

(** [socket.htonl] on a little-endian host: the four bytes swap;
    [OverflowError] ([None]) from 2^32 on. *)
Definition htonl (x : N) : option N :=
  if (x <? 2 ^ 32)%N then Some (le_value (rev (le_bytes 4 x))) else None.

(** [socket.ntohl] is the same function. *)
Definition ntohl (x : N) : option N := htonl x.

Section Codec.

(** [struct.calcsize("L")]: 8 on LP64 hosts, 4 elsewhere. *)
Variable calcsize_L : nat.

(** [pickle.dumps((payload,))] and [pickle.loads(buf)[0]] ([None]: it
    raises). *)
Variable pickle_dumps : string -> list byte.
Variable pickle_loads : list byte -> option string.

(** [struct.pack("L", v)] in native byte order; [struct.error] when [v]
    does not fit. *)
Definition pack_L (v : N) : option (list byte) :=
  if (v <? 2 ^ (8 * N.of_nat calcsize_L))%N then Some (le_bytes calcsize_L v)
  else None.

(** [struct.unpack("L", bs)[0]]; [struct.error] on a wrong length. *)
Definition unpack_L (bs : list byte) : option N :=
  if (length bs =? calcsize_L)%nat then Some (le_value bs) else None.

(** [send(channel, payload)]: the two writes, header then envelope. *)
Definition send (payload : string) : option (list byte * list byte) :=
  let buffer := pickle_dumps payload in
  match htonl (N.of_nat (length buffer)) with
  | None => None
  | Some value =>
      match pack_L value with
      | None => None
      | Some size => Some (size, buffer)
      end
  end.

(** [len(buf)]; [None] is the [str] [""] the loop starts from. *)
Definition buf_len (buf : option (list byte)) : nat :=
  match buf with None => O | Some b => length b end.

(** [while len(buf) < size: buf = channel.recv(size - len(buf))],
    then [pickle.loads(buf)[0]]. *)
Fixpoint receive_loop (fuel : nat) (size : nat) (buf : option (list byte))
    (ch : channel) : outcome * channel :=
  if (buf_len buf <? size)%nat then
    match fuel with
    | O => (Looping, ch)
    | S fuel' =>
        match recv (size - buf_len buf) ch with
        | None => (Blocked, ch)
        | Some (data, ch') => receive_loop fuel' size (Some data) ch'
        end
    end
  else
    match buf with
    | None => (Raised "TypeError", ch)
    | Some b =>
        match pickle_loads b with
        | Some v => (Returned v, ch)
        | None => (Raised "UnpicklingError", ch)
        end
    end.

(** [receive(channel)] *)
Definition receive (fuel : nat) (ch : channel) : outcome * channel :=
  match recv calcsize_L ch with
  | None => (Blocked, ch)
  | Some (size, ch1) =>
      match unpack_L size with
      | None => (Returned "", ch1)
      | Some value =>
          match ntohl value with
          | None => (Raised "OverflowError", ch1)
          | Some size => receive_loop fuel (N.to_nat size) None ch1
          end
      end
  end.

End Codec.

End Wire.

(* ================================================================== *)
(** * The client: message view, reply, export and drafts of
      [client.py] *)
(* ================================================================== *)

Module ClientViews.
Import PyStr PyInt Client.

(** The dict [email] that [read_email] builds from a READ response. *)
Record message_view : Type := mkView {
  v_id : string;
  v_from : string;
  v_to : string;
  v_subject : string;
  v_body : string;
  v_timestamp : string
}.

(** [read_email]: the message shown for [response], if one is shown. *)
Definition parse_read (response : string) : option message_view :=
  if negb (startswith "OK" response) then None
  else
    match splitn pipe 6 response with
    | _ :: p1 :: p2 :: p3 :: p4 :: p5 :: p6 :: _ =>
        Some (mkView p1 p2 p3 p4 p5 p6)
    | _ => None
    end.

(** [cached_email['read'] = True] for one element of the cached inbox. *)
Definition mark_summary (s : inbox_summary) : inbox_summary :=
  mkInboxSummary (i_id s) (i_from s) (i_subject s) (i_timestamp s) true.

(** The loop of [read_email] over [cache['inbox']]: every summary whose
    id is the text [key] becomes read. *)
Definition mark_cached_read (key : string) (l : list inbox_summary)
    : list inbox_summary :=
  map (fun s => if String.eqb (i_id s) key then mark_summary s else s) l.

(** The cache after [read_email(msg_id)] got [response]. *)
Definition read_email_cache (msg_id : Z) (response : string) (c : cache)
    : cache :=
  match parse_read response with
  | Some _ =>
      mkCache (mark_cached_read (py_str msg_id) (inbox c)) (sent c)
        (last_sync c)
  | None => c
  end.

(** The command [reply_email] transmits for the reply text [body]. *)
Definition reply_text (username : string) (original : message_view)
    (body : string) : string :=
  let nl := String "010" "" in
  let reply_subject := "RE: " +:+ v_subject original in
  let reply_body :=
    body +:+ nl +:+ nl +:+ "--- Original Message ---" +:+ nl
    +:+ v_body original in
  "SEND|" +:+ username +:+ "|" +:+ v_from original +:+ "|" +:+ reply_subject
  +:+ "|" +:+ reply_body.

(** The command [export_email] transmits. *)
Definition export_text (username : string) (msg_id : Z) : string :=
  "EXPORT|" +:+ username +:+ "|" +:+ py_str msg_id.

(** [export_email]: the file name and the content written for
    [response], if a file is written. *)
Definition parse_export (response : string) : option (string * string) :=
  if startswith "OK" response then
    match splitn pipe 2 response with
    | [ _; filename; content ] => Some (filename, content)
    | _ => None
    end
  else None.

(** An element of the drafts file. *)
Record draft : Type := mkDraft {
  d_to : string;
  d_subject : string;
  d_body : string;
  d_timestamp : string
}.

(** The drafts file of the user: [None] when it is missing or cannot be
    read as JSON. *)
Definition drafts_file : Type := option (list draft).

(** [load_drafts] *)
Definition load_drafts (file : drafts_file) : list draft :=
  match file with
  | Some drafts => drafts
  | None => []
  end.

(** [save_draft] of the dict [compose_email] passes; the write is taken
    to succeed. *)
Definition save_draft (now to subject body : string) (file : drafts_file)
    : drafts_file :=
  Some (load_drafts file ++ [ mkDraft to subject body now ]).

(** [delete_draft]; the file is written only for an index in range. *)
Definition delete_draft (index : Z) (file : drafts_file) : drafts_file :=
  let drafts := load_drafts file in
  if (0 <=? index) && (index <? Z.of_nat (length drafts))
  then Some (delete (Z.to_nat index) drafts)
  else file.

End ClientViews.

(* ================================================================== *)
(** * More invariants of the server *)
(* ================================================================== *)

Module Invariants.
Import PyStr PyInt Server.

(** Every message of [l] is addressed to a user of [u]. *)
Definition addressed (u : gmap string string) (l : list email) : Prop :=
  Forall (fun e => is_Some (u !! e_to e)) l.

(** That holds of the store in memory and of the one in the file. *)
Definition recipients_registered (st : EmailServer) : Prop :=
  addressed (users st) (emails st)
  /\ forall d, server_db_json st = Some d ->
       addressed (db_users d) (db_emails d).

(** The users in the file are the users in memory; with no file there
    are none. *)
Definition users_saved (st : EmailServer) : Prop :=
  match server_db_json st with
  | Some d => db_users d = users st
  | None => users st = ∅
  end.

(** The messages that carry the id of [m] are [m] or [m] marked read,
    and the counter has passed that id. *)
Definition same_message (m : email) (st : EmailServer) : Prop :=
  e_id m <= email_id_counter st
  /\ forall x, In x (emails st) -> e_id x = e_id m ->
       x = m \/ x = mark_read m.

(** The commands [sync_inbox] and [sync_sent] transmit. *)
Definition inbox_text (username : string) : string := "INBOX|" +:+ username.

Definition sent_text (username : string) : string := "SENT|" +:+ username.

(** A command of three fields. *)
Definition text3 (verb a b : string) : string :=
  verb +:+ "|" +:+ a +:+ "|" +:+ b.

(** A command of four fields. *)
Definition text4 (verb a b c : string) : string :=
  verb +:+ "|" +:+ a +:+ "|" +:+ b +:+ "|" +:+ c.

(** The summary the client should hold for a stored message. *)
Definition inbox_summary_of (e : email) : Client.inbox_summary :=
  Client.mkInboxSummary (py_str (e_id e)) (e_from e) (e_subject e)
    (e_timestamp e) (e_read e).

Definition sent_summary_of (e : email) : Client.sent_summary :=
  Client.mkSentSummary (py_str (e_id e)) (e_to e) (e_subject e)
    (e_timestamp e).

(** A text with neither [~] nor [;]. *)
Definition plain (s : string) : Prop :=
  contains tilde s = false /\ contains semi s = false.

(** The text [handle_export] renders for a message. *)
Definition export_content (e : email) : string :=
  let nl := String "010" "" in
  "From: " +:+ e_from e +:+ nl
  +:+ "To: " +:+ e_to e +:+ nl
  +:+ "Subject: " +:+ e_subject e +:+ nl
  +:+ "Date: " +:+ e_timestamp e +:+ nl
  +:+ nl +:+ e_body e +:+ nl.

End Invariants.

(* ================================================================== *)
(** * The server loop: [EmailServer.run] of [server.py] *)
(* ================================================================== *)

Module Multiplexer.
Import PyStr PyInt Server.

(** The sockets [select] watches: the listening socket [self.server] and
    the client sockets, told apart by a number. *)
Inductive socket : Type :=
| Listener
| Client (n : nat).

#[global] Instance socket_eq_dec : EqDecision socket.
Proof. solve_decision. Defined.

(** The server object with the tables of the loop: [inputs],
    [self.outputs] and [self.clientmap] (client number to address). *)
Record mux : Type := mkMux {
  srv : EmailServer;
  inputs : list socket;
  outputs : list socket;
  clientmap : gmap nat string
}.

(** The loop as [run] starts it. *)
Definition start (st : EmailServer) : mux := mkMux st [ Listener ] [] ∅.

(** What [receive] returns to the loop: a text, as a client's [send]
    carries, or a value that counts as false and is not a text ([None],
    a zero, an empty tuple), which a peer can frame as well. *)
Inductive payload : Type :=
| Text (data : string)
| Falsy.

(** [if data] *)
Definition payload_truthy (p : payload) : bool :=
  match p with
  | Text data => truthy data
  | Falsy => false
  end.

(** What the calls on a readable socket turn out to do: [accept] gives a
    new client; [receive] gives [data], and the [send] of the response
    raises [socket.error] or not; [receive] raises [socket.error]; or
    something the loop has no handler for happens: [accept] raises,
    [receive] raises another exception (an envelope that is no pickle, a
    pickle of a number or of an empty tuple, which [unmarshall(buf)[0]]
    cannot index), or [receive] gives a true value that is not a text,
    whose further treatment is not followed here. *)
Inductive outcome : Type :=
| Accepts (client : nat) (address : string)
| Receives (data : payload) (send_fails : bool)
| ReceiveFails
| Unhandled.

Definition set_clients (n : Z) (st : EmailServer) : EmailServer :=
  mkServer (users st) (emails st) (email_id_counter st) n
    (server_db_json st).

(** [l.remove(sock)]; [None] is the [ValueError] for a missing
    element. *)
Fixpoint remove_socket (sock : socket) (l : list socket)
    : option (list socket) :=
  match l with
  | [] => None
  | x :: t =>
      if decide (x = sock) then Some t
      else option_map (cons x) (remove_socket sock t)
  end.

(** [if sock in l: l.remove(sock)] *)
Definition discard_socket (sock : socket) (l : list socket) : list socket :=
  match remove_socket sock l with
  | Some l' => l'
  | None => l
  end.

(** The [except socket.error] clause. *)
Definition on_socket_error (sock : socket) (m : mux) : mux :=
  mkMux (srv m) (discard_socket sock (inputs m))
    (discard_socket sock (outputs m))
    (match sock with
     | Client n => delete n (clientmap m)
     | Listener => clientmap m
     end).

(** The [else] branch of [if data]: the client [n] is taken for
    disconnected. [None]: [self.clientmap[sock]], [inputs.remove(sock)]
    or [del self.clientmap[sock]] raises, and [run] is left. *)
Definition disconnect (n : nat) (m : mux) : option mux :=
  match clientmap m !! n, remove_socket (Client n) (inputs m) with
  | Some _, Some inputs' =>
      Some (mkMux (set_clients (clients (srv m) - 1) (srv m)) inputs'
              (discard_socket (Client n) (outputs m))
              (delete n (clientmap m)))
  | _, _ => None
  end.

(** The body of [for sock in readable], for [sock] and what its calls
    turn out to do: the loop afterwards and the response sent, if one is.
    [None]: the pass is not completed, since an exception other than
    [socket.error] leaves [run] or the outcome is [Unhandled], or the
    outcome does not fit the socket. *)
Definition serve (now : string) (m : mux) (sock : socket) (o : outcome)
    : option (mux * option string) :=
  match sock, o with
  | Listener, Accepts client address =>
      Some (mkMux (set_clients (clients (srv m) + 1) (srv m))
              (inputs m ++ [ Client client ]) (outputs m)
              (<[client := address]> (clientmap m)), None)
  | Client n, ReceiveFails => Some (on_socket_error sock m, None)
  | Client n, Receives (Text data) send_fails =>
      if truthy data then
        match process_command now data (srv m) with
        | (inl _, _) => None
        | (inr response, st') =>
            let m' := mkMux st' (inputs m) (outputs m) (clientmap m) in
            if send_fails then Some (on_socket_error sock m', None)
            else Some (m', Some response)
        end
      else option_map (fun m' => (m', None)) (disconnect n m)
  | Client n, Receives Falsy _ =>
      option_map (fun m' => (m', None)) (disconnect n m)
  | _, _ => None
  end.

(** Whether a socket error was caught while serving. *)
Definition failed (o : outcome) : bool :=
  match o with
  | ReceiveFails => true
  | Receives data send_fails => payload_truthy data && send_fails
  | Accepts _ _ => false
  | Unhandled => false
  end.

(** The passes the statements below are about: the socket is one of
    [inputs], as [select] reports; the listening socket accepts a client
    that is a new socket; on a client socket [receive] gives a text or a
    false value, or raises [socket.error]. [Unhandled] is not among
    them. *)
Definition admissible (m : mux) (sock : socket) (o : outcome) : Prop :=
  In sock (inputs m)
  /\ match sock, o with
     | Listener, Accepts client _ => clientmap m !! client = None
     | Client _, Receives _ _ => True
     | Client _, ReceiveFails => True
     | _, _ => False
     end.

(** The tables agree: the listening socket is watched, no socket is
    watched twice, the watched clients are those of [clientmap], and
    [outputs] is empty. *)
Definition tracked (m : mux) : Prop :=
  In Listener (inputs m)
  /\ List.NoDup (inputs m)
  /\ (forall n, In (Client n) (inputs m) <-> is_Some (clientmap m !! n))
  /\ outputs m = [].

(** By how much the counter [self.clients] exceeds the number of tracked
    connections. *)
Definition excess (m : mux) : Z :=
  clients (srv m) - Z.of_nat (size (clientmap m)).

(** One pass of the loop body: the clock reading, the readable socket
    and what its calls turn out to do. *)
Definition pass : Type := string * socket * outcome.

(** The loop after a sequence of passes; [None] once [run] is left. *)
Fixpoint serve_all (m : mux) (ps : list pass) : option mux :=
  match ps with
  | [] => Some m
  | (now, sock, o) :: t =>
      match serve now m sock o with
      | Some (m', _) => serve_all m' t
      | None => None
      end
  end.

(** Every pass is admissible for the loop it meets. *)
Fixpoint admissible_all (m : mux) (ps : list pass) : Prop :=
  match ps with
  | [] => True
  | (now, sock, o) :: t =>
      admissible m sock o
      /\ forall m' sent,
           serve now m sock o = Some (m', sent) -> admissible_all m' t
  end.

(** The number of socket errors caught in a sequence of passes. *)
Definition failures (ps : list pass) : Z :=
  Z.of_nat (length (List.filter (fun p : pass => failed (snd p)) ps)).

End Multiplexer.

(* ================================================================== *)
(** * A small scenario, used to exercise the statements below *)
(* ================================================================== *)

Module Scenario.
Import Server.

Definition t0 : string := "2024-01-01 10:00:00".
Definition t1 : string := "2024-01-01 10:05:00".

(** alice and bob register, alice writes to bob. *)
Definition setup : list event :=
  [ Request (t0, "REGISTER|alice|pw1");
    Request (t0, "REGISTER|bob|pw2");
    Request (t0, "SEND|alice|bob|Hi|Hello") ].

Definition st0 : EmailServer := run_events init setup.

(** The message alice sent. *)
Definition hi : email := mkEmail 1 "alice" "bob" "Hi" "Hello" t0 false.

(** A cache with one summary from an earlier sync. *)
Definition stale : Client.cache :=
  Client.mkCache [ Client.mkInboxSummary "1" "alice" "Hi" t0 false ]
    [ Client.mkSentSummary "1" "bob" "Hi" t0 ] (Some t0).

(** A message whose subject went through [compose_email]. *)
Definition odd : email :=
  mkEmail 7 "alice" "bob" (Client.compose_subject " a|b~c;d ") "text" t0
    false.

(** [pickle.dumps(("OK",))] in protocol 4: 19 bytes. *)
Definition envelope_OK : list byte :=
  [ x80; x04; x95; x08; x00; x00; x00; x00; x00; x00; x00;
    x8c; x02; x4f; x4b; x94; x85; x94; x2e ].

(** The header [send] writes before it on an LP64 little-endian host. *)
Definition header_OK : list byte :=
  [ x00; x00; x00; x13; x00; x00; x00; x00 ].

End Scenario.

(* ================================================================== *)
(** * Facts about the string primitives *)
(* ================================================================== *)

Module PyStrFacts.
Import PyStr.

Lemma app_cons c s t : String c s +:+ t = String c (s +:+ t).
Proof. reflexivity. Qed.

Lemma app_nil_r s : s +:+ "" = s.
Proof.
  induction s as [|c s IH]; [reflexivity|].
  rewrite app_cons, IH. reflexivity.
Qed.

Lemma app_assoc s t u : (s +:+ t) +:+ u = s +:+ (t +:+ u).
Proof.
  induction s as [|c s IH]; [reflexivity|].
  rewrite !app_cons, IH. reflexivity.
Qed.

Lemma app_length s t :
  String.length (s +:+ t) = (String.length s + String.length t)%nat.
Proof.
  induction s as [|c s IH]; [reflexivity|].
  rewrite app_cons. simpl. rewrite IH. reflexivity.
Qed.

Lemma contains_app c s t :
  contains c (s +:+ t) = contains c s || contains c t.
Proof.
  induction s as [|a s IH]; [reflexivity|].
  rewrite app_cons. simpl. rewrite IH. apply orb_assoc.
Qed.

(** ** [split] *)

Lemma splitn_nonempty sep n s : splitn sep n s <> [].
Proof.
  revert n. induction s as [|c s IH]; intros n; simpl; [discriminate|].
  destruct n as [|k]; [discriminate|].
  destruct (Ascii.eqb c sep); [discriminate|].
  destruct (splitn sep (S k) s); discriminate.
Qed.

(** More cuts than characters change nothing. *)
Lemma splitn_enough sep s : forall n,
  (String.length s <= n)%nat -> splitn sep n s = split sep s.
Proof.
  unfold split. induction s as [|c s IH]; intros n Hn; [reflexivity|].
  simpl in Hn. destruct n as [|k]; [lia|].
  cbn [splitn String.length].
  destruct (Ascii.eqb c sep).
  - f_equal. apply IH. lia.
  - rewrite (IH (S k)) by lia. rewrite (IH (S (String.length s))) by lia.
    reflexivity.
Qed.

Lemma splitn_cons_sep sep n s :
  splitn sep (S n) (String sep s) = "" :: splitn sep n s.
Proof. simpl. rewrite Ascii.eqb_refl. reflexivity. Qed.

(** A first field without separator is cut off at the separator. *)
Lemma splitn_field sep n a rest :
  contains sep a = false ->
  splitn sep (S n) (a +:+ String sep rest) = a :: splitn sep n rest.
Proof.
  induction a as [|c a IH]; intros Ha.
  - apply splitn_cons_sep.
  - simpl in Ha. apply orb_false_iff in Ha as [Hc Ha].
    rewrite app_cons. cbn [splitn]. rewrite Hc, (IH Ha). reflexivity.
Qed.

Lemma splitn_last sep n a :
  contains sep a = false -> splitn sep n a = [ a ].
Proof.
  revert n. induction a as [|c a IH]; intros n Ha; [reflexivity|].
  simpl in Ha. apply orb_false_iff in Ha as [Hc Ha].
  destruct n as [|k]; [reflexivity|].
  cbn [splitn]. rewrite Hc, (IH _ Ha). reflexivity.
Qed.

Lemma split_field sep a rest :
  contains sep a = false ->
  split sep (a +:+ String sep rest) = a :: split sep rest.
Proof.
  intros Ha. unfold split at 1.
  rewrite app_length. cbn [String.length].
  replace (String.length a + S (String.length rest))%nat
    with (S (String.length a + String.length rest)) by lia.
  rewrite (splitn_field _ _ _ _ Ha). f_equal.
  apply splitn_enough. lia.
Qed.

Lemma split_last sep a : contains sep a = false -> split sep a = [ a ].
Proof. apply splitn_last. Qed.

Lemma splitn_init_fields sep : forall s n,
  Forall (fun x => contains sep x = false) (removelast (splitn sep n s)).
Proof.
  induction s as [|c s IH]; intros n; [constructor|].
  destruct n as [|k]; [constructor|].
  cbn [splitn]. destruct (Ascii.eqb c sep) eqn:Hc.
  - assert (Hne := splitn_nonempty sep k s).
    destruct (splitn sep k s) as [|h t] eqn:E; [congruence|].
    change (removelast ("" :: h :: t)) with ("" :: removelast (h :: t)).
    constructor; [reflexivity|]. rewrite <- E. apply IH.
  - assert (Hs := IH (S k)).
    destruct (splitn sep (S k) s) as [|h [|h' t]]; [constructor..|].
    change (removelast (String c h :: h' :: t))
      with (String c h :: removelast (h' :: t)).
    change (removelast (h :: h' :: t)) with (h :: removelast (h' :: t)) in Hs.
    inversion Hs; subst. constructor; [|assumption].
    cbn [contains]. rewrite Hc. assumption.
Qed.

(** With no bound, the last field is free of the separator too. *)
Lemma splitn_all_fields sep : forall s n,
  (String.length s <= n)%nat ->
  Forall (fun x => contains sep x = false) (splitn sep n s).
Proof.
  induction s as [|c s IH]; intros n Hn.
  - repeat constructor.
  - simpl in Hn. destruct n as [|k]; [lia|].
    cbn [splitn]. destruct (Ascii.eqb c sep) eqn:Hc.
    + constructor; [reflexivity|]. apply IH. lia.
    + assert (Hs := IH (S k) ltac:(lia)).
      destruct (splitn sep (S k) s) as [|h t].
      * repeat constructor. simpl. rewrite Hc. reflexivity.
      * inversion Hs; subst. constructor; [|assumption].
        simpl. rewrite Hc. assumption.
Qed.

Lemma split_fields sep s :
  Forall (fun x => contains sep x = false) (split sep s).
Proof. apply splitn_all_fields. lia. Qed.

Lemma split_nonempty sep s : split sep s <> [].
Proof. apply splitn_nonempty. Qed.

(** A split into one field means there was no separator. *)
Lemma splitn_single sep : forall s n x,
  (String.length s <= n)%nat -> splitn sep n s = [ x ] ->
  contains sep s = false.
Proof.
  induction s as [|c s IH]; intros n x Hn H; [reflexivity|].
  simpl in Hn. destruct n as [|k]; [lia|].
  cbn [splitn] in H. destruct (Ascii.eqb c sep) eqn:Hc.
  - injection H as _ H. exfalso. exact (splitn_nonempty _ _ _ H).
  - destruct (splitn sep (S k) s) as [|h t] eqn:E.
    + exfalso. exact (splitn_nonempty _ _ _ E).
    + injection H as _ ->. simpl. rewrite Hc. simpl.
      apply (IH (S k) h); [lia | exact E].
Qed.

Lemma split_two sep s :
  contains sep s = true -> exists a b l, split sep s = a :: b :: l.
Proof.
  intros Hs. destruct (split sep s) as [|a [|b l]] eqn:E.
  - exfalso. exact (split_nonempty _ _ E).
  - apply splitn_single in E; [congruence | lia].
  - eauto.
Qed.

(** ** [replace], [strip] *)

Lemma replace_removes old new s :
  old <> new -> contains old (replace old new s) = false.
Proof.
  intros Hne. induction s as [|c s IH]; [reflexivity|].
  simpl. rewrite IH, orb_false_r.
  destruct (Ascii.eqb c old) eqn:Hc.
  - apply Ascii.eqb_neq. congruence.
  - exact Hc.
Qed.

Lemma replace_keeps c old new s :
  c <> new -> contains c s = false -> contains c (replace old new s) = false.
Proof.
  intros Hne. induction s as [|a s IH]; [reflexivity|].
  simpl. intros H. apply orb_false_iff in H as [Ha Hs].
  rewrite (IH Hs), orb_false_r.
  destruct (Ascii.eqb a old); [|exact Ha].
  apply Ascii.eqb_neq. congruence.
Qed.

Lemma rstrip_char_nosep c s :
  contains c s = false -> rstrip_char c s = s.
Proof.
  induction s as [|a s IH]; [reflexivity|].
  simpl. intros H. apply orb_false_iff in H as [Ha Hs].
  rewrite (IH Hs). destruct s; [rewrite Ha|]; reflexivity.
Qed.

Lemma rstrip_char_snoc c s :
  rstrip_char c (s +:+ String c "") = rstrip_char c s.
Proof.
  induction s as [|a s IH].
  - change ("" +:+ String c "") with (String c ""). cbn [rstrip_char].
    rewrite Ascii.eqb_refl. reflexivity.
  - rewrite app_cons. cbn [rstrip_char]. rewrite IH. reflexivity.
Qed.

End PyStrFacts.

(* ================================================================== *)
(** * Facts about [str(n)] and [int(s)] *)
(* ================================================================== *)

Module PyIntFacts.
Import PyStr PyInt PyStrFacts.

Lemma uint_chars c d :
  is_digit c = false -> contains c (NilEmpty.string_of_uint d) = false.
Proof.
  intros Hc.
  induction d; cbn [NilEmpty.string_of_uint contains]; [reflexivity|..];
    rewrite IHd, orb_false_r; apply Ascii.eqb_neq; intros <-; discriminate.
Qed.

Lemma uint_nonnil_string d :
  d <> Nil -> NilZero.string_of_uint d = NilEmpty.string_of_uint d.
Proof. destruct d; [congruence|..]; reflexivity. Qed.

(** [str(n)] consists of digits and at most a leading minus sign. *)
Lemma py_str_chars c n :
  is_digit c = false -> c <> "-"%char -> contains c (py_str n) = false.
Proof.
  intros Hc Hm. unfold py_str.
  assert (Hu : forall d, contains c (NilZero.string_of_uint d) = false).
  { intros d. destruct d; try apply (uint_chars c _ Hc).
    cbn [NilZero.string_of_uint contains]. rewrite orb_false_r.
    apply Ascii.eqb_neq. intros <-. discriminate. }
  destruct n as [|p|p]; cbn [Z.to_int NilZero.string_of_int].
  - apply Hu.
  - apply Hu.
  - cbn [contains]. rewrite Hu, orb_false_r. apply Ascii.eqb_neq. congruence.
Qed.

Lemma py_str_no_pipe n : contains pipe (py_str n) = false.
Proof. apply py_str_chars; [reflexivity | discriminate]. Qed.

Lemma py_str_no_tilde n : contains tilde (py_str n) = false.
Proof. apply py_str_chars; [reflexivity | discriminate]. Qed.

Lemma py_str_no_semi n : contains semi (py_str n) = false.
Proof. apply py_str_chars; [reflexivity | discriminate]. Qed.

Lemma int_rstrip_no_space s :
  (forall c, int_space c = true -> contains c s = false) -> int_rstrip s = s.
Proof.
  induction s as [|a s IH]; intros H; [reflexivity|].
  simpl. rewrite IH.
  - destruct s; [|reflexivity].
    destruct (int_space a) eqn:Ha; [|reflexivity].
    specialize (H a Ha). simpl in H. rewrite Ascii.eqb_refl in H. discriminate.
  - intros c Hc. specialize (H c Hc). simpl in H.
    apply orb_false_iff in H. tauto.
Qed.

Lemma int_strip_no_space s :
  (forall c, int_space c = true -> contains c s = false) -> int_strip s = s.
Proof.
  intros H. unfold int_strip.
  assert (int_lstrip s = s) as ->; [|apply int_rstrip_no_space, H].
  destruct s as [|a s]; [reflexivity|]. simpl.
  destruct (int_space a) eqn:Ha; [|reflexivity].
  specialize (H a Ha). simpl in H. rewrite Ascii.eqb_refl in H. discriminate.
Qed.

Lemma int_strip_py_str n : int_strip (py_str n) = py_str n.
Proof.
  apply int_strip_no_space. intros c Hc. apply py_str_chars.
  - destruct c as [[] [] [] [] [] [] [] []]; try reflexivity; discriminate.
  - intros ->. discriminate.
Qed.

Lemma int_digits_acc d : forall acc,
  int_digits (Z.pos acc) true (NilEmpty.string_of_uint d)
  = Some (Z.pos (Pos.of_uint_acc d acc)).
Proof.
  induction d; intros acc; [reflexivity|..];
    cbn [NilEmpty.string_of_uint int_digits Pos.of_uint_acc];
    change (is_digit _) with true; cbv iota;
    match goal with
    | |- int_digits ?a _ _ = Some (Z.pos (Pos.of_uint_acc _ ?b)) =>
        replace a with (Z.pos b)
          by (match goal with
              | |- context [digit_val ?c] =>
                  let v := eval vm_compute in (digit_val c) in
                  change (digit_val c) with v
              end; lia)
    end; apply IHd.
Qed.

Lemma int_digits_zero d : forall b,
  d <> Nil \/ b = true ->
  int_digits 0 b (NilEmpty.string_of_uint d) = Some (Z.of_N (Pos.of_uint d)).
Proof.
  induction d; intros b Hb.
  - destruct Hb as [Hb | ->]; [congruence | reflexivity].
  - cbn [NilEmpty.string_of_uint int_digits Pos.of_uint].
    change (is_digit "0") with true. cbv iota.
    change (10 * 0 + digit_val "0") with 0. apply IHd. now right.
  - apply (int_digits_acc d 1).
  - apply (int_digits_acc d 2).
  - apply (int_digits_acc d 3).
  - apply (int_digits_acc d 4).
  - apply (int_digits_acc d 5).
  - apply (int_digits_acc d 6).
  - apply (int_digits_acc d 7).
  - apply (int_digits_acc d 8).
  - apply (int_digits_acc d 9).
Qed.

Lemma int_digits_pos p :
  int_digits 0 false (NilEmpty.string_of_uint (Pos.to_uint p)) = Some (Z.pos p).
Proof.
  rewrite int_digits_zero.
  - rewrite DecimalPos.Unsigned.of_to. reflexivity.
  - left. apply DecimalPos.Unsigned.to_uint_nonnil.
Qed.

(** [int(str(n)) == n] *)
Lemma py_int_py_str n : py_int (py_str n) = inr n.
Proof.
  unfold py_int. rewrite int_strip_py_str. unfold py_str.
  destruct n as [|p|p]; [reflexivity|..];
    cbn [Z.to_int NilZero.string_of_int];
    rewrite uint_nonnil_string by apply DecimalPos.Unsigned.to_uint_nonnil.
  - assert (H := int_digits_pos p).
    destruct (NilEmpty.string_of_uint (Pos.to_uint p)) as [|a s] eqn:E.
    + discriminate H.
    + assert (Ha : is_digit a = true).
      { cbn [int_digits] in H. destruct (is_digit a); [reflexivity|].
        rewrite andb_false_r in H. discriminate H. }
      destruct a as [[] [] [] [] [] [] [] []];
        vm_compute in Ha; try discriminate Ha;
        cbv beta iota zeta; rewrite H; reflexivity.
  - cbv beta iota zeta. rewrite int_digits_pos. reflexivity.
Qed.

End PyIntFacts.

(* ================================================================== *)
(** * Facts about the server *)
(* ================================================================== *)

Module ServerFacts.
Import PyStr PyInt PyStrFacts PyIntFacts Server.

(** Unfolds the monad and splits on every test a handler makes. *)
Ltac py_unfold :=
  unfold save_server_data, error_response, index0 in *;
  unfold try_except, bind, ret, raise, get, modify, lift in *.

Ltac py_cases := py_unfold; repeat (case_match; simplify_eq; cbn [fst snd] in *).

Lemma has_user_false u st : has_user u st = false -> users st !! u = None.
Proof. unfold has_user. destruct (users st !! u); [discriminate | reflexivity]. Qed.

Lemma has_user_true u st : has_user u st = true <-> is_Some (users st !! u).
Proof.
  unfold has_user. destruct (users st !! u); split; intros H;
    try reflexivity; try discriminate; eauto.
  destruct H; discriminate.
Qed.

(** Brings in what is known of the fields of the splits in the context. *)
Ltac split_facts :=
  repeat match goal with
  | H : splitn ?sep ?n ?s = _ |- _ =>
      lazymatch goal with
      | _ : Forall _ (removelast (splitn sep n s)) |- _ => fail
      | _ => pose proof (splitn_init_fields sep s n)
      end
  | H : split ?sep ?s = _ |- _ =>
      lazymatch goal with
      | _ : Forall _ (split sep s) |- _ => fail
      | _ => pose proof (split_fields sep s)
      end
  end;
  repeat match goal with
  | H : splitn ?sep ?n ?s = _, F : Forall _ (removelast (splitn ?sep ?n ?s)) |- _ =>
      rewrite H in F; cbn [removelast] in F
  | H : split ?sep ?s = _, F : Forall _ (split ?sep ?s) |- _ =>
      rewrite H in F
  end;
  repeat match goal with
  | F : Forall _ (_ :: _) |- _ => apply Forall_cons in F as [? F]
  end.

Lemma handle_register_transition data st :
  transition st (snd (handle_register data st)).
Proof.
  unfold handle_register. py_cases; try apply tr_none.
  split_facts. apply tr_register; [by apply has_user_false | done].
Qed.

Lemma handle_login_transition data st :
  transition st (snd (handle_login data st)).
Proof. unfold handle_login. py_cases; apply tr_none. Qed.

Lemma handle_send_transition now data st :
  transition st (snd (handle_send now data st)).
Proof.
  unfold handle_send. py_cases; try apply tr_none.
  split_facts.
  match goal with H : negb _ = false |- _ => apply negb_false_iff in H end.
  by eapply tr_send.
Qed.

Lemma handle_inbox_transition data st :
  transition st (snd (handle_inbox data st)).
Proof. unfold handle_inbox. py_cases; apply tr_none. Qed.

Lemma handle_sent_transition data st :
  transition st (snd (handle_sent data st)).
Proof. unfold handle_sent. py_cases; apply tr_none. Qed.

Lemma handle_read_transition data st :
  transition st (snd (handle_read data st)).
Proof.
  unfold handle_read. py_cases; try apply tr_none.
  by eapply tr_read.
Qed.

Lemma handle_delete_transition data st :
  transition st (snd (handle_delete data st)).
Proof.
  unfold handle_delete. py_cases; try apply tr_none.
  by eapply tr_delete.
Qed.

Lemma handle_forward_transition now data st :
  transition st (snd (handle_forward now data st)).
Proof.
  unfold handle_forward. py_cases; try apply tr_none.
  match goal with H : negb _ = false |- _ => apply negb_false_iff in H end.
  by eapply tr_forward.
Qed.

Lemma handle_export_transition data st :
  transition st (snd (handle_export data st)).
Proof. unfold handle_export. py_cases; apply tr_none. Qed.

Lemma handle_status_transition data st :
  transition st (snd (handle_status data st)).
Proof. unfold handle_status. py_cases; apply tr_none. Qed.

(** Every request changes the server in one of the listed ways. *)
Lemma step_transition st r : transition st (step st r).
Proof.
  unfold step, process_command.
  destruct (negb (truthy r.2)); [apply tr_none|].
  unfold bind, index0.
  destruct (split pipe r.2) as [|command l]; [apply tr_none|].
  unfold ret, handlers.
  repeat case_match; simplify_eq;
    auto using tr_none, handle_register_transition, handle_login_transition,
      handle_send_transition, handle_inbox_transition, handle_sent_transition,
      handle_read_transition, handle_delete_transition,
      handle_forward_transition, handle_export_transition,
      handle_status_transition.
Qed.

(** ** The id discipline *)

Lemma ids_between_le lo l hi : ids_between lo l hi -> lo <= hi.
Proof.
  revert lo. induction l as [|e t IH]; intros lo; simpl; [lia|].
  intros [H1 H2]. specialize (IH _ H2). lia.
Qed.

Lemma ids_between_weaken lo lo' l hi hi' :
  lo' <= lo -> hi <= hi' -> ids_between lo l hi -> ids_between lo' l hi'.
Proof.
  revert lo lo'. induction l as [|e t IH]; intros lo lo' Hlo Hhi; simpl.
  - lia.
  - intros [H1 H2]. split; [lia|]. apply (IH (e_id e)); [lia | lia | exact H2].
Qed.

Lemma ids_between_In lo l hi e :
  ids_between lo l hi -> In e l -> lo < e_id e <= hi.
Proof.
  revert lo. induction l as [|x t IH]; intros lo; simpl; [tauto|].
  intros [H1 H2] [-> | Hin].
  - apply ids_between_le in H2. lia.
  - specialize (IH _ H2 Hin). lia.
Qed.

(** A message numbered above the counter extends the store. *)
Lemma ids_between_snoc lo l hi e :
  ids_between lo l hi -> hi < e_id e ->
  ids_between lo (l ++ [ e ]) (e_id e).
Proof.
  revert lo. induction l as [|x t IH]; intros lo; simpl.
  - lia.
  - intros [H1 H2] Hhi. split; [exact H1|]. apply IH; assumption.
Qed.

Lemma ids_between_set_read i lo l hi :
  ids_between lo l hi -> ids_between lo (set_read i l) hi.
Proof.
  revert lo. induction l as [|x t IH]; intros lo; simpl; [tauto|].
  intros [H1 H2]. destruct (e_id x =? i); simpl; auto.
Qed.

Lemma ids_between_remove e lo l hi :
  ids_between lo l hi -> ids_between lo (list_remove e l) hi.
Proof.
  revert lo. induction l as [|x t IH]; intros lo; simpl; [tauto|].
  intros [H1 H2]. destruct (decide (x = e)); simpl.
  - apply (ids_between_weaken (e_id x) lo t hi hi); [lia | lia | exact H2].
  - auto.
Qed.

Lemma find_email_Some i l e :
  find_email i l = Some e -> In e l /\ e_id e = i.
Proof.
  unfold find_email. intros H. apply find_some in H as [H1 H2].
  split; [exact H1 | lia].
Qed.

(** With increasing ids, a stored message is the one its id finds. *)
Lemma find_email_stored lo l hi e :
  ids_between lo l hi -> In e l -> find_email (e_id e) l = Some e.
Proof.
  unfold find_email.
  revert lo. induction l as [|x t IH]; intros lo; simpl; [tauto|].
  intros [H1 H2] [-> | Hin].
  - rewrite Z.eqb_refl. reflexivity.
  - assert (Hx := ids_between_In _ _ _ _ H2 Hin).
    destruct (Z.eqb_spec (e_id x) (e_id e)); [lia|]. eapply IH; eassumption.
Qed.

(** Ids above the counter, or not above the floor, are not in use. *)
Lemma find_email_outside lo l hi i :
  ids_between lo l hi -> i <= lo \/ hi < i -> find_email i l = None.
Proof.
  intros H Hi. destruct (find_email i l) as [e|] eqn:E; [|reflexivity].
  apply find_email_Some in E as [Hin <-].
  apply (ids_between_In _ _ _ _ H) in Hin. lia.
Qed.

(** After the removal of the message an id finds, the id finds nothing. *)
Lemma find_email_removed lo l hi i e :
  ids_between lo l hi -> find_email i l = Some e ->
  find_email i (list_remove e l) = None.
Proof.
  unfold find_email.
  revert lo. induction l as [|x t IH]; intros lo; simpl; [discriminate|].
  intros [H1 H2]. destruct (Z.eqb_spec (e_id x) i) as [Hx | Hx].
  - intros [= ->]. rewrite decide_True by reflexivity.
    apply (find_email_outside (e_id e) t hi); [exact H2 | lia].
  - intros Hf. destruct (decide (x = e)) as [-> | Hne].
    + apply find_some in Hf as [_ Hf]. lia.
    + simpl. destruct (Z.eqb_spec (e_id x) i); [lia|]. eapply IH; eassumption.
Qed.

Lemma find_email_snoc i l e :
  e_id e <> i -> find_email i (l ++ [ e ]) = find_email i l.
Proof.
  unfold find_email. intros Hne. induction l as [|x t IH]; simpl.
  - destruct (Z.eqb_spec (e_id e) i); [lia | reflexivity].
  - destruct (e_id x =? i); [reflexivity | exact IH].
Qed.

Lemma find_email_set_read_None i j l :
  find_email i l = None -> find_email i (set_read j l) = None.
Proof.
  unfold find_email. induction l as [|x t IH]; simpl; [reflexivity|].
  destruct (Z.eqb_spec (e_id x) i); [discriminate|]. intros H.
  destruct (e_id x =? j); simpl.
  - destruct (Z.eqb_spec (e_id x) i); [lia | exact H].
  - destruct (Z.eqb_spec (e_id x) i); [lia | exact (IH H)].
Qed.

Lemma find_email_remove_None i e l :
  find_email i l = None -> find_email i (list_remove e l) = None.
Proof.
  unfold find_email. induction l as [|x t IH]; simpl; [reflexivity|].
  destruct (Z.eqb_spec (e_id x) i); [discriminate|]. intros H.
  destruct (decide (x = e)); [exact H|]. simpl.
  destruct (Z.eqb_spec (e_id x) i); [lia | exact (IH H)].
Qed.

(** ** The invariant holds in every reachable state *)

Lemma Forall_set_read (P : email -> Prop) i l :
  (forall e, P e -> P (mark_read e)) -> Forall P l -> Forall P (set_read i l).
Proof.
  intros HP. induction 1 as [|x t Hx Ht IH]; simpl; [constructor|].
  destruct (e_id x =? i); constructor; auto.
Qed.

Lemma Forall_list_remove (P : email -> Prop) e l :
  Forall P l -> Forall P (list_remove e l).
Proof.
  induction 1 as [|x t Hx Ht IH]; simpl; [constructor|].
  destruct (decide (x = e)); [assumption | by constructor].
Qed.

Lemma no_access_false e u :
  no_access e u = false -> u = e_to e \/ u = e_from e.
Proof.
  unfold no_access. intros H. apply andb_false_iff in H as [H | H];
    apply negb_false_iff, String.eqb_eq in H; auto.
Qed.

Lemma saved_inv st :
  store_ok (users st) (emails st) (email_id_counter st) -> inv (saved st).
Proof. intros H. split; [exact H|]. intros d [= <-]. exact H. Qed.

Lemma with_new_store_ok mk st :
  inv st ->
  (forall i, e_id (mk i) = i) ->
  (forall i, contains pipe (e_from (mk i)) = false) ->
  (forall i, contains pipe (e_to (mk i)) = false) ->
  inv (with_new mk st).
Proof.
  intros [[Hids [Hu Hl]] Hdb] Hid Hfrom Hto. split; [|exact Hdb].
  split; [|split]; cbn.
  - rewrite <- (Hid (email_id_counter st + 1)) at 2.
    apply (ids_between_snoc 0 (emails st) (email_id_counter st));
      [exact Hids | rewrite Hid; lia].
  - exact Hu.
  - apply Forall_app_2; [exact Hl|]. repeat constructor; auto.
Qed.

Lemma transition_inv st st' : inv st -> transition st st' -> inv st'.
Proof.
  intros Hinv Htr. destruct Htr as
    [ | username password Hnew Hname
      | sender recipient subject body now Hs Hr
      | msg_id e Hf | msg_id e Hf
      | username new_recipient now msg_id e Hf Hacc Hr ].
  - exact Hinv.
  - destruct Hinv as [[Hids [Hu Hl]] _]. apply saved_inv.
    split; [exact Hids | split; [|exact Hl]].
    intros k Hk. cbn in Hk. destruct (decide (username = k)) as [<- | Hne].
    + exact Hname.
    + rewrite lookup_insert_ne in Hk by exact Hne. auto.
  - assert (H : inv (with_new (fun i => mkEmail i sender recipient subject
                                          body now false) st)).
    { apply with_new_store_ok; auto. intros i. cbn.
      destruct Hinv as [[_ [Hu _]] _]. apply Hu, has_user_true, Hr. }
    apply saved_inv, (proj1 H).
  - destruct Hinv as [[Hids [Hu Hl]] _]. apply saved_inv.
    split; [by apply ids_between_set_read | split; [exact Hu|]].
    apply Forall_set_read; [|exact Hl]. intros x Hx. exact Hx.
  - destruct Hinv as [[Hids [Hu Hl]] _]. apply saved_inv.
    split; [by apply ids_between_remove | split; [exact Hu|]].
    by apply Forall_list_remove.
  - apply with_new_store_ok; auto; intros i; cbn.
    + destruct Hinv as [[_ [_ Hl]] _].
      apply find_email_Some in Hf as [Hin _].
      rewrite List.Forall_forall in Hl. destruct (Hl _ Hin) as [H1 H2].
      destruct (no_access_false _ _ Hacc) as [-> | ->]; assumption.
    + destruct Hinv as [[_ [Hu _]] _]. apply Hu, has_user_true, Hr.
Qed.

Lemma init_inv : inv init.
Proof.
  split; [|discriminate]. split; [simpl; lia|]. split; [|constructor].
  intros k [v Hk]. cbn in Hk. rewrite lookup_empty in Hk. discriminate.
Qed.

Lemma restart_inv st : inv st -> inv (restart st).
Proof.
  intros [Hst Hdb]. unfold restart, load_server_data. cbn.
  destruct (server_db_json st) as [d|] eqn:E; cbn.
  - split; [by apply Hdb|]. intros d' [= <-]. by apply Hdb.
  - apply init_inv.
Qed.

Lemma step_inv st r : inv st -> inv (step st r).
Proof. intros H. exact (transition_inv _ _ H (step_transition st r)). Qed.

Lemma apply_event_inv st ev : inv st -> inv (apply_event st ev).
Proof. destruct ev; [apply step_inv | apply restart_inv]. Qed.

Lemma run_events_inv evs : forall st, inv st -> inv (run_events st evs).
Proof.
  induction evs as [|ev evs IH]; intros st H; [exact H|].
  apply IH, apply_event_inv, H.
Qed.

Lemma run_inv rs : forall st, inv st -> inv (run st rs).
Proof.
  induction rs as [|r rs IH]; intros st H; [exact H|].
  apply IH, step_inv, H.
Qed.

Lemma reachable_inv st : reachable st -> inv st.
Proof. intros [evs ->]. apply run_events_inv, init_inv. Qed.

(** ** What the engine does on well-formed commands *)

Lemma split3 verb a b :
  contains pipe verb = false -> contains pipe a = false ->
  contains pipe b = false ->
  split pipe (verb +:+ "|" +:+ a +:+ "|" +:+ b) = [ verb; a; b ].
Proof.
  intros Hv Ha Hb.
  change ("|" +:+ a +:+ "|" +:+ b) with (String pipe (a +:+ String pipe b)).
  rewrite (split_field _ _ _ Hv), (split_field _ _ _ Ha), (split_last _ _ Hb).
  reflexivity.
Qed.

Lemma split4 verb a b c :
  contains pipe verb = false -> contains pipe a = false ->
  contains pipe b = false -> contains pipe c = false ->
  split pipe (verb +:+ "|" +:+ a +:+ "|" +:+ b +:+ "|" +:+ c)
  = [ verb; a; b; c ].
Proof.
  intros Hv Ha Hb Hc.
  change ("|" +:+ a +:+ "|" +:+ b +:+ "|" +:+ c)
    with (String pipe (a +:+ String pipe (b +:+ String pipe c))).
  rewrite (split_field _ _ _ Hv), (split_field _ _ _ Ha),
    (split_field _ _ _ Hb), (split_last _ _ Hc).
  reflexivity.
Qed.

Lemma split_head verb rest :
  contains pipe verb = false ->
  exists l, split pipe (verb +:+ "|" +:+ rest) = verb :: l.
Proof.
  intros Hv. change ("|" +:+ rest) with (String pipe rest).
  rewrite (split_field _ _ _ Hv). eauto.
Qed.

(** The dispatcher hands a non-empty command to the handler of its first
    field. *)
Lemma process_command_dispatch now verb rest h :
  contains pipe verb = false ->
  handlers now verb = Some h ->
  process_command now (verb +:+ "|" +:+ rest)
  = h (verb +:+ "|" +:+ rest).
Proof.
  intros Hv Hh. unfold process_command.
  destruct (split_head verb rest Hv) as [l ->].
  assert (truthy (verb +:+ "|" +:+ rest) = true) as ->.
  { destruct verb; reflexivity. }
  cbn [negb]. unfold index0, bind, ret. rewrite Hh. reflexivity.
Qed.

Lemma process_read now u i st :
  contains pipe u = false ->
  process_command now (read_text u i) st
  = match find_email i (emails st) with
    | None => (inr "ERROR|Email not found", st)
    | Some e =>
        if no_access e u then (inr "ERROR|Access denied", st)
        else if String.eqb (e_to e) u
        then (inr (read_ok_text e),
              saved (set_emails (set_read i (emails st)) st))
        else (inr (read_ok_text e), st)
    end.
Proof.
  intros Hu. unfold read_text.
  change ("READ|" +:+ u +:+ "|" +:+ py_str i)
    with ("READ" +:+ "|" +:+ u +:+ "|" +:+ py_str i).
  rewrite (process_command_dispatch now "READ" _ handle_read) by reflexivity.
  unfold handle_read.
  rewrite (split3 "READ" u (py_str i)) by auto using py_str_no_pipe.
  py_unfold. rewrite py_int_py_str.
  destruct (find_email i (emails st)) as [e|]; [|reflexivity].
  destruct (no_access e u); [reflexivity|].
  destruct (String.eqb (e_to e) u); reflexivity.
Qed.

Lemma process_delete now u i st :
  contains pipe u = false ->
  process_command now (delete_text u i) st
  = match find_email i (emails st) with
    | None => (inr "ERROR|Email not found", st)
    | Some e =>
        if no_access e u then (inr "ERROR|Access denied", st)
        else (inr ("OK|Email #" +:+ py_str i +:+ " deleted"),
              saved (set_emails (list_remove e (emails st)) st))
    end.
Proof.
  intros Hu. unfold delete_text.
  change ("DELETE|" +:+ u +:+ "|" +:+ py_str i)
    with ("DELETE" +:+ "|" +:+ u +:+ "|" +:+ py_str i).
  rewrite (process_command_dispatch now "DELETE" _ handle_delete)
    by reflexivity.
  unfold handle_delete.
  rewrite (split3 "DELETE" u (py_str i)) by auto using py_str_no_pipe.
  py_unfold. rewrite py_int_py_str.
  destruct (find_email i (emails st)) as [e|]; [|reflexivity].
  destruct (no_access e u); reflexivity.
Qed.

Lemma process_forward now u i r st :
  contains pipe u = false -> contains pipe r = false ->
  process_command now (forward_text u i r) st
  = match find_email i (emails st) with
    | None => (inr "ERROR|Email not found", st)
    | Some e =>
        if no_access e u then (inr "ERROR|Access denied", st)
        else if negb (has_user r st)
        then (inr "ERROR|Recipient not found", st)
        else (inr ("OK|Email forwarded to " +:+ r),
              with_new (fun k => forwarded_email k u r now e) st)
    end.
Proof.
  intros Hu Hr. unfold forward_text.
  change ("FORWARD|" +:+ u +:+ "|" +:+ py_str i +:+ "|" +:+ r)
    with ("FORWARD" +:+ "|" +:+ u +:+ "|" +:+ py_str i +:+ "|" +:+ r).
  rewrite (process_command_dispatch now "FORWARD" _ (handle_forward now))
    by reflexivity.
  unfold handle_forward.
  rewrite (split4 "FORWARD" u (py_str i) r) by auto using py_str_no_pipe.
  py_unfold. rewrite py_int_py_str.
  destruct (find_email i (emails st)) as [e|]; [|reflexivity].
  destruct (no_access e u); [reflexivity|].
  destruct (negb (has_user r st)); reflexivity.
Qed.

End ServerFacts.

(* ================================================================== *)
(** * The mail store: READ, FORWARD, DELETE, ids *)
(* ================================================================== *)

Module MailStore.
Import PyStr PyInt PyStrFacts PyIntFacts Server ServerFacts Scenario.

Lemma st0_reachable : reachable st0.
Proof. exists setup. reflexivity. Qed.

Lemma set_read_split lo l hi m :
  ids_between lo l hi -> In m l ->
  exists l1 l2, l = l1 ++ m :: l2
                /\ set_read (e_id m) l = l1 ++ mark_read m :: l2.
Proof.
  revert lo. induction l as [|x t IH]; intros lo; simpl; [tauto|].
  intros [H1 H2] [-> | Hin].
  - exists [], t. rewrite Z.eqb_refl. split; reflexivity.
  - assert (Hm := ids_between_In _ _ _ _ H2 Hin).
    destruct (Z.eqb_spec (e_id x) (e_id m)); [lia|].
    destruct (IH _ H2 Hin) as (l1 & l2 & -> & ->).
    exists (x :: l1), l2. split; reflexivity.
Qed.

Lemma set_read_idem i l : set_read i (set_read i l) = set_read i l.
Proof.
  induction l as [|x t IH]; [reflexivity|]. simpl.
  destruct (e_id x =? i) eqn:E; simpl; rewrite E; [reflexivity|].
  f_equal. exact IH.
Qed.

Lemma find_email_set_read i l e :
  find_email i l = Some e -> find_email i (set_read i l) = Some (mark_read e).
Proof.
  unfold find_email. induction l as [|x t IH]; simpl; [discriminate|].
  destruct (e_id x =? i) eqn:E; simpl; rewrite E.
  - intros [= ->]. reflexivity.
  - exact IH.
Qed.

Lemma no_access_recipient e : no_access e (e_to e) = false.
Proof. unfold no_access. rewrite String.eqb_refl. reflexivity. Qed.

Lemma no_access_sender e : no_access e (e_from e) = false.
Proof.
  unfold no_access. rewrite (String.eqb_refl (e_from e)). apply andb_false_r.
Qed.

Lemma no_access_third e u :
  u <> e_to e -> u <> e_from e -> no_access e u = true.
Proof.
  intros H1 H2. unfold no_access.
  destruct (String.eqb_spec (e_to e) u); [congruence|].
  destruct (String.eqb_spec (e_from e) u); [congruence|]. reflexivity.
Qed.

(** C3. READ of a stored message [m] by [u]: when [u] is the recipient the
    response is the message, and [m] is stored with its flag [read] set
    to true, its other fields as they were, where it stands in the list,
    nothing else changing; a second READ changes nothing more, so the
    flag stays true. When [u] is not the recipient the server, the flag
    included, is unchanged: the sender gets the message and anybody else
    gets [ERROR|Access denied]. *)
Theorem read_marks_for_recipient_only st now u m :
  reachable st -> In m (emails st) -> contains pipe u = false ->
  let out := process_command now (read_text u (e_id m)) st in
  let seen := mkEmail (e_id m) (e_from m) (e_to m) (e_subject m) (e_body m)
                (e_timestamp m) true in
  (u = e_to m ->
     out.1 = inr (read_ok_text m)
     /\ (exists l1 l2, emails st = l1 ++ m :: l2
                       /\ emails out.2 = l1 ++ seen :: l2)
     /\ find_email (e_id m) (emails out.2) = Some seen
     /\ (forall now', emails (step out.2 (now', read_text u (e_id m)))
                      = emails out.2)
     /\ users out.2 = users st
     /\ email_id_counter out.2 = email_id_counter st)
  /\ (u <> e_to m ->
       out.2 = st
       /\ find_email (e_id m) (emails out.2) = Some m
       /\ (u = e_from m -> out.1 = inr (read_ok_text m))
       /\ (u <> e_from m -> out.1 = inr "ERROR|Access denied")).
Proof.
  intros Hst Hin Hu out seen. subst out seen.
  destruct (reachable_inv _ Hst) as [[Hids _] _].
  assert (Hf := find_email_stored _ _ _ _ Hids Hin).
  rewrite (process_read _ _ _ _ Hu), Hf. split.
  - intros ->. rewrite no_access_recipient, String.eqb_refl. cbn [fst snd].
    split; [reflexivity|]. split; [|split; [|split; [|split]]].
    + exact (set_read_split _ _ _ _ Hids Hin).
    + exact (find_email_set_read _ _ _ Hf).
    + intros now'. unfold step. cbn [fst snd].
      set (st1 := saved (set_emails (set_read (e_id m) (emails st)) st)).
      rewrite (process_read _ _ _ _ Hu).
      change (emails st1) with (set_read (e_id m) (emails st)).
      rewrite (find_email_set_read _ _ _ Hf).
      change (no_access (mark_read m) (e_to m)) with (no_access m (e_to m)).
      rewrite no_access_recipient.
      change (e_to (mark_read m)) with (e_to m). rewrite String.eqb_refl.
      change (set_read (e_id m) (set_read (e_id m) (emails st))
              = set_read (e_id m) (emails st)).
      apply set_read_idem.
    + reflexivity.
    + reflexivity.
  - intros Hne. destruct (String.eqb_spec (e_to m) u) as [E | _]; [congruence|].
    destruct (no_access m u) eqn:Hacc.
    + split; [reflexivity|]. split; [exact Hf|]. split; [|reflexivity].
      intros ->. rewrite no_access_sender in Hacc. discriminate.
    + split; [reflexivity|]. split; [exact Hf|]. split; [reflexivity|].
      intros H. rewrite (no_access_third _ _ Hne H) in Hacc. discriminate.
Qed.

(** The statement of C3 at bob's READ of the message alice sent him,
    unread until then. *)
Lemma read_marks_for_recipient_only_witness :
  let out := process_command t1 (read_text "bob" (e_id hi)) st0 in
  let seen := mkEmail 1 "alice" "bob" "Hi" "Hello" t0 true in
  e_read hi = false
  /\ ("bob" = e_to hi ->
       out.1 = inr (read_ok_text hi)
       /\ (exists l1 l2, emails st0 = l1 ++ hi :: l2
                         /\ emails out.2 = l1 ++ seen :: l2)
       /\ find_email (e_id hi) (emails out.2) = Some seen
       /\ (forall now', emails (step out.2 (now', read_text "bob" (e_id hi)))
                        = emails out.2)
       /\ users out.2 = users st0
       /\ email_id_counter out.2 = email_id_counter st0)
  /\ ("bob" <> e_to hi ->
       out.2 = st0
       /\ find_email (e_id hi) (emails out.2) = Some hi
       /\ ("bob" = e_from hi -> out.1 = inr (read_ok_text hi))
       /\ ("bob" <> e_from hi -> out.1 = inr "ERROR|Access denied")).
Proof.
  intros out seen. split; [reflexivity|].
  apply (read_marks_for_recipient_only st0 t1 "bob" hi).
  - exact st0_reachable.
  - left. reflexivity.
  - reflexivity.
Defined.

(** C7. FORWARD by a user [u] who may read the stored message [m]: to a
    registered [r] it answers OK and appends exactly one message, from
    [u] to [r], with the subject behind [FWD: ] and the body behind the
    line naming the sender of [m]; the messages already stored, [m] among
    them, and the users are as before. To an unregistered [r] it answers
    [ERROR|Recipient not found] and the server is unchanged. *)
Theorem forward_appends_copy st now u m r :
  reachable st -> In m (emails st) -> u = e_from m \/ u = e_to m ->
  let out := process_command now (forward_text u (e_id m) r) st in
  (is_Some (users st !! r) ->
     out.1 = inr ("OK|Email forwarded to " +:+ r)
     /\ emails out.2
        = emails st
          ++ [ mkEmail (email_id_counter st + 1) u r
                 ("FWD: " +:+ e_subject m)
                 ("[Forwarded from " +:+ e_from m +:+ "]"
                  +:+ String "010" (String "010" (e_body m)))
                 now false ]
     /\ users out.2 = users st)
  /\ (users st !! r = None -> contains pipe r = false ->
       out.1 = inr "ERROR|Recipient not found" /\ out.2 = st).
Proof.
  intros Hst Hin Hu out. subst out.
  destruct (reachable_inv _ Hst) as [[Hids [Husers Hl]] _].
  assert (Hf := find_email_stored _ _ _ _ Hids Hin).
  assert (Hpu : contains pipe u = false).
  { rewrite List.Forall_forall in Hl. destruct (Hl _ Hin) as [H1 H2].
    destruct Hu as [-> | ->]; assumption. }
  assert (Hacc : no_access m u = false).
  { destruct Hu as [-> | ->];
      [apply no_access_sender | apply no_access_recipient]. }
  split.
  - intros Hr. rewrite (process_forward _ _ _ _ _ Hpu (Husers _ Hr)).
    rewrite Hf, Hacc. apply has_user_true in Hr. rewrite Hr.
    repeat split; reflexivity.
  - intros Hr Hpr. rewrite (process_forward _ _ _ _ _ Hpu Hpr).
    rewrite Hf, Hacc. unfold has_user. rewrite Hr. split; reflexivity.
Qed.

(** The statement of C7 at bob forwarding alice's message back to her. *)
Lemma forward_appends_copy_witness :
  let out := process_command t1 (forward_text "bob" (e_id hi) "alice") st0 in
  (is_Some (users st0 !! "alice") ->
     out.1 = inr ("OK|Email forwarded to " +:+ "alice")
     /\ emails out.2
        = emails st0
          ++ [ mkEmail (email_id_counter st0 + 1) "bob" "alice"
                 ("FWD: " +:+ e_subject hi)
                 ("[Forwarded from " +:+ e_from hi +:+ "]"
                  +:+ String "010" (String "010" (e_body hi)))
                 t1 false ]
     /\ users out.2 = users st0)
  /\ (users st0 !! "alice" = None -> contains pipe "alice" = false ->
       out.1 = inr "ERROR|Recipient not found" /\ out.2 = st0).
Proof.
  apply (forward_appends_copy st0 t1 "bob" hi "alice").
  - exact st0_reachable.
  - left. reflexivity.
  - right. reflexivity.
Defined.

(** ** Retired ids *)

Lemma with_new_retired i mk st :
  (forall k, e_id (mk k) = k) -> retired i st -> retired i (with_new mk st).
Proof.
  intros Hid [[Hf Hle] Hdb]. split; [|exact Hdb]. cbn. split; [|lia].
  rewrite find_email_snoc; [exact Hf | rewrite Hid; lia].
Qed.

Lemma saved_retired i st :
  find_email i (emails st) = None -> i <= email_id_counter st ->
  retired i (saved st).
Proof. intros Hf Hle. split; [auto|]. eexists. split; [reflexivity|]. auto. Qed.

Lemma transition_retired i st st' :
  retired i st -> transition st st' -> retired i st'.
Proof.
  intros Hret Htr. destruct Htr.
  - exact Hret.
  - destruct Hret as [[Hf Hle] _]. by apply saved_retired.
  - match goal with
    | |- retired _ (saved (with_new ?mk _)) =>
        destruct (with_new_retired i mk st (fun _ => eq_refl) Hret)
          as [[Hf Hle] _]
    end.
    by apply saved_retired.
  - destruct Hret as [[Hf Hle] _]. apply saved_retired; [|exact Hle].
    by apply find_email_set_read_None.
  - destruct Hret as [[Hf Hle] _]. apply saved_retired; [|exact Hle].
    by apply find_email_remove_None.
  - by apply with_new_retired.
Qed.

Lemma restart_retired i st : retired i st -> retired i (restart st).
Proof.
  intros [_ (d & E & Hd)]. unfold restart, load_server_data. cbn.
  rewrite E. cbn. split; [exact Hd|]. exists d. auto.
Qed.

Lemma run_events_retired i evs : forall st,
  retired i st -> retired i (run_events st evs).
Proof.
  induction evs as [|ev evs IH]; intros st H; [exact H|].
  apply IH. destruct ev as [r|]; cbn.
  - exact (transition_retired _ _ _ H (step_transition st r)).
  - by apply restart_retired.
Qed.

(** C8. After a DELETE of [i] that answered OK, whatever requests and
    restarts follow, a READ of [i] by any user answers
    [ERROR|Email not found]. *)
Theorem read_after_delete_not_found st now u i evs now' u' :
  reachable st -> contains pipe u = false -> contains pipe u' = false ->
  respond st (now, delete_text u i)
  = inr ("OK|Email #" +:+ py_str i +:+ " deleted") ->
  respond (run_events (step st (now, delete_text u i)) evs)
    (now', read_text u' i)
  = inr "ERROR|Email not found".
Proof.
  intros Hst Hu Hu' Hok.
  destruct (reachable_inv _ Hst) as [[Hids _] _].
  assert (Hret : retired i (step st (now, delete_text u i))).
  { unfold respond, step in *. cbn [fst snd] in *.
    rewrite (process_delete _ _ _ _ Hu) in *.
    destruct (find_email i (emails st)) as [e|] eqn:Hf; [|discriminate Hok].
    destruct (no_access e u); [discriminate Hok|]. cbn [snd].
    apply saved_retired.
    - exact (find_email_removed _ _ _ _ _ Hids Hf).
    - apply find_email_Some in Hf as [Hin <-].
      apply (ids_between_In _ _ _ _ Hids Hin). }
  apply (run_events_retired _ evs) in Hret. destruct Hret as [[Hf _] _].
  unfold respond. cbn [fst snd].
  rewrite (process_read _ _ _ _ Hu'), Hf. reflexivity.
Qed.

(** The statement of C8 at bob deleting alice's message; alice then
    writes again, bob forwards that, the server restarts. *)
Lemma read_after_delete_not_found_witness :
  respond
    (run_events (step st0 (t0, delete_text "bob" 1))
       [ Request (t1, "SEND|alice|bob|Again|Hello again");
         Request (t1, "FORWARD|bob|2|alice");
         Restart ])
    (t1, read_text "alice" 1)
  = inr "ERROR|Email not found".
Proof.
  apply (read_after_delete_not_found st0 t0 "bob" 1 _ t1 "alice").
  - exact st0_reachable.
  - reflexivity.
  - reflexivity.
  - reflexivity.
Defined.

(** ** The id counter *)

Lemma length_set_read i l : length (set_read i l) = length l.
Proof.
  induction l as [|x t IH]; [reflexivity|]. simpl.
  destruct (e_id x =? i); simpl; congruence.
Qed.

Lemma length_list_remove e l : (length (list_remove e l) <= length l)%nat.
Proof.
  induction l as [|x t IH]; [reflexivity|]. simpl.
  destruct (decide (x = e)); simpl; lia.
Qed.

Lemma transition_counter st st' :
  transition st st' -> email_id_counter st <= email_id_counter st'.
Proof. intros []; cbn; lia. Qed.

Lemma run_counter rs : forall st,
  email_id_counter st <= email_id_counter (run st rs).
Proof.
  induction rs as [|r rs IH]; intros st; [reflexivity|]. cbn.
  etransitivity; [|apply IH].
  apply transition_counter, step_transition.
Qed.

(** A request that appends a message numbers it with the counter it has
    just advanced by one. *)
Lemma transition_creates st st' m :
  transition st st' -> emails st' = emails st ++ [ m ] ->
  e_id m = email_id_counter st + 1 /\ email_id_counter st' = e_id m.
Proof.
  intros Htr. destruct Htr; cbn; intros Happ.
  - apply (f_equal length) in Happ. rewrite length_app in Happ.
    simpl in Happ. lia.
  - apply (f_equal length) in Happ. rewrite length_app in Happ.
    simpl in Happ. lia.
  - apply app_inj_tail in Happ as [_ <-]. split; reflexivity.
  - apply (f_equal length) in Happ.
    rewrite length_app, length_set_read in Happ. simpl in Happ. lia.
  - apply (f_equal length) in Happ. rewrite length_app in Happ.
    simpl in Happ. assert (Hl := length_list_remove e (emails st)). lia.
  - apply app_inj_tail in Happ as [_ <-]. split; reflexivity.
Qed.

(** Within one run of the server, from any reachable state: of two
    requests that each append a message, the later one gives a greater id
    than the earlier one, whatever requests, deletions among them, come
    in between; the id is also greater than all ids stored beforehand,
    and the stored ids increase strictly along the list. *)
Lemma ids_increase_within_one_run st rs1 r1 m1 rs2 r2 m2 :
  reachable st ->
  emails (step (run st rs1) r1) = emails (run st rs1) ++ [ m1 ] ->
  emails (step (run (step (run st rs1) r1) rs2) r2)
  = emails (run (step (run st rs1) r1) rs2) ++ [ m2 ] ->
  e_id m1 < e_id m2
  /\ (forall x, In x (emails st) -> e_id x < e_id m1)
  /\ ids_between 0 (emails (step (run (step (run st rs1) r1) rs2) r2))
       (e_id m2).
Proof.
  intros Hst H1 H2.
  set (a := run st rs1) in *. set (a' := step a r1) in *.
  set (b := run a' rs2) in *. set (b' := step b r2) in *.
  assert (Hinv := reachable_inv _ Hst).
  destruct (transition_creates _ _ _ (step_transition a r1) H1) as [E1 E1'].
  destruct (transition_creates _ _ _ (step_transition b r2) H2) as [E2 E2'].
  assert (Ha := run_counter rs1 st). assert (Hb := run_counter rs2 a').
  fold a in Ha. fold b in Hb. fold a' in E1'. fold b' in E2'.
  split; [lia|]. split.
  - intros x Hx. destruct Hinv as [[Hids _] _].
    apply (ids_between_In _ _ _ _ Hids) in Hx. lia.
  - assert (Hb' : inv b').
    { apply step_inv, run_inv, step_inv, run_inv, Hinv. }
    destruct Hb' as [[Hids _] _]. rewrite <- E2'. exact Hids.
Qed.

(** The lemma at a second message of alice, which bob deletes, and bob's
    forward of the first one after that. *)
Lemma ids_increase_within_one_run_example :
  let m1 := mkEmail 2 "alice" "bob" "Again" "Hello again" t1 false in
  let m2 := forwarded_email 3 "bob" "alice" t1 hi in
  e_id m1 < e_id m2
  /\ (forall x, In x (emails st0) -> e_id x < e_id m1)
  /\ ids_between 0
       (emails (step (run (step (run st0 [])
                             (t1, "SEND|alice|bob|Again|Hello again"))
                        [ (t1, "DELETE|bob|2") ])
                  (t1, "FORWARD|bob|1|alice")))
       (e_id m2).
Proof.
  intros m1 m2.
  apply (ids_increase_within_one_run st0 []
           (t1, "SEND|alice|bob|Again|Hello again") m1
           [ (t1, "DELETE|bob|2") ] (t1, "FORWARD|bob|1|alice") m2).
  - exact st0_reachable.
  - reflexivity.
  - reflexivity.
Defined.

End MailStore.

(* ================================================================== *)
(** * The dispatcher and the accounts *)
(* ================================================================== *)

Module Dispatcher.
Import PyStr PyInt PyStrFacts PyIntFacts Server ServerFacts Scenario.

Lemma splitn_zero sep s : splitn sep 0 s = [ s ].
Proof. destruct s; reflexivity. Qed.

Lemma process_register now u p st :
  contains pipe u = false ->
  process_command now (register_text u p) st
  = if has_user u st then (inr "ERROR|Username already exists", st)
    else (inr ("OK|User " +:+ u +:+ " registered successfully"),
          saved (set_users (<[u := p]> (users st)) st)).
Proof.
  intros Hu. unfold register_text.
  change ("REGISTER|" +:+ u +:+ "|" +:+ p)
    with ("REGISTER" +:+ "|" +:+ u +:+ "|" +:+ p).
  rewrite (process_command_dispatch now "REGISTER" _ handle_register)
    by reflexivity.
  unfold handle_register.
  change ("REGISTER" +:+ "|" +:+ u +:+ "|" +:+ p)
    with ("REGISTER" +:+ String pipe (u +:+ String pipe p)).
  rewrite (splitn_field pipe 1 "REGISTER") by reflexivity.
  rewrite (splitn_field pipe 0 u) by exact Hu.
  rewrite splitn_zero. py_unfold.
  destruct (has_user u st); reflexivity.
Qed.

Lemma process_login now u q st :
  contains pipe u = false ->
  process_command now (login_text u q) st
  = (inr (match split pipe q with
          | [ password ] =>
              match users st !! u with
              | None => "ERROR|Username not found"
              | Some stored =>
                  if negb (String.eqb stored password)
                  then "ERROR|Invalid password"
                  else "OK|Welcome " +:+ u +:+ "!"
              end
          | _ => "ERROR|Invalid LOGIN format"
          end), st).
Proof.
  intros Hu. unfold login_text.
  change ("LOGIN|" +:+ u +:+ "|" +:+ q)
    with ("LOGIN" +:+ "|" +:+ u +:+ "|" +:+ q).
  rewrite (process_command_dispatch now "LOGIN" _ handle_login)
    by reflexivity.
  unfold handle_login.
  change ("LOGIN" +:+ "|" +:+ u +:+ "|" +:+ q)
    with ("LOGIN" +:+ String pipe (u +:+ String pipe q)).
  rewrite (split_field pipe "LOGIN") by reflexivity.
  rewrite (split_field pipe u) by exact Hu.
  assert (Hne := split_nonempty pipe q).
  destruct (split pipe q) as [|a [|b l]]; [congruence|..]; py_unfold.
  - destruct (users st !! u) as [stored|]; [|reflexivity].
    destruct (negb (String.eqb stored a)); reflexivity.
  - reflexivity.
Qed.

Lemma saved_registered u p st :
  users st !! u = Some p -> registered u p (saved st).
Proof. intros H. split; [exact H|]. eexists. split; [reflexivity | exact H]. Qed.

Lemma transition_registered u p st st' :
  registered u p st -> transition st st' -> registered u p st'.
Proof.
  intros [Hu Hdb] Htr. destruct Htr; try (by apply saved_registered).
  - split; assumption.
  - apply saved_registered. cbn. rewrite lookup_insert_ne; [exact Hu|].
    intros ->. congruence.
  - split; assumption.
Qed.

Lemma restart_registered u p st : registered u p st -> registered u p (restart st).
Proof.
  intros [_ (d & E & Hd)]. unfold restart, load_server_data. cbn.
  rewrite E. cbn. split; [exact Hd|]. exists d. auto.
Qed.

Lemma run_events_registered u p evs : forall st,
  registered u p st -> registered u p (run_events st evs).
Proof.
  induction evs as [|ev evs IH]; intros st H; [exact H|].
  apply IH. destruct ev as [r|]; cbn.
  - exact (transition_registered _ _ _ _ H (step_transition st r)).
  - by apply restart_registered.
Qed.

(** C10. REGISTER of a new name [u] with a password [p] that has a [|]
    answers OK and stores [p] as it is. From then on, whatever requests
    and restarts follow, [p] stays the stored password, a LOGIN with [p]
    answers [ERROR|Invalid LOGIN format], and a LOGIN with any password
    answers that or [ERROR|Invalid password]: none succeeds. *)
Theorem piped_password_cannot_log_in st now u p :
  contains pipe u = false -> users st !! u = None ->
  contains pipe p = true ->
  respond st (now, register_text u p)
  = inr ("OK|User " +:+ u +:+ " registered successfully")
  /\ forall evs now',
       let st' := run_events (step st (now, register_text u p)) evs in
       users st' !! u = Some p
       /\ respond st' (now', login_text u p)
          = inr "ERROR|Invalid LOGIN format"
       /\ forall q,
            respond st' (now', login_text u q)
            = inr "ERROR|Invalid LOGIN format"
            \/ respond st' (now', login_text u q)
               = inr "ERROR|Invalid password".
Proof.
  intros Hu Hnew Hp. unfold respond, step. cbn [fst snd].
  rewrite (process_register _ _ _ _ Hu). unfold has_user. rewrite Hnew.
  cbn [fst snd]. split; [reflexivity|]. intros evs now'.
  set (st' := run_events _ evs).
  assert (Hreg : registered u p st').
  { apply run_events_registered, saved_registered.
    apply (lookup_insert_eq (users st)). }
  destruct Hreg as [Hreg _]. split; [exact Hreg|].
  assert (Hlogin : forall q,
    contains pipe q = true ->
    (process_command now' (login_text u q) st').1
    = inr "ERROR|Invalid LOGIN format").
  { intros q Hq. rewrite (process_login _ _ _ _ Hu).
    destruct (split_two _ _ Hq) as (a & b & l & ->). reflexivity. }
  split; [exact (Hlogin p Hp)|]. intros q.
  destruct (contains pipe q) eqn:Hq; [left; exact (Hlogin q Hq)|].
  right. rewrite (process_login _ _ _ _ Hu), (split_last _ _ Hq), Hreg.
  destruct (String.eqb_spec p q) as [<- | _]; [congruence | reflexivity].
Qed.

(** The statement of C10 at carol registering with password [a|b]. *)
Lemma piped_password_cannot_log_in_witness :
  respond st0 (t1, register_text "carol" "a|b")
  = inr ("OK|User " +:+ "carol" +:+ " registered successfully")
  /\ forall evs now',
       let st' := run_events (step st0 (t1, register_text "carol" "a|b")) evs in
       users st' !! "carol" = Some "a|b"
       /\ respond st' (now', login_text "carol" "a|b")
          = inr "ERROR|Invalid LOGIN format"
       /\ forall q,
            respond st' (now', login_text "carol" q)
            = inr "ERROR|Invalid LOGIN format"
            \/ respond st' (now', login_text "carol" q)
               = inr "ERROR|Invalid password".
Proof.
  apply (piped_password_cannot_log_in st0 t1 "carol" "a|b").
  - reflexivity.
  - reflexivity.
  - reflexivity.
Defined.

(** ** Totality of the dispatcher *)

(** A handler's [try]/[except] turns every exception into a response. *)
Lemma try_except_answers (body : Py string) st :
  exists response st',
    try_except body error_response st = (inr response, st').
Proof.
  unfold try_except, error_response, ret.
  destruct (body st) as [[e | response] st']; eauto.
Qed.

Lemma try_except_raised (body : Py string) st e st' :
  body st = (inl e, st') ->
  try_except body error_response st = (inr ("ERROR|" +:+ exn_str e), st').
Proof. intros H. unfold try_except. rewrite H. reflexivity. Qed.

Lemma handler_answers now verb h data st :
  handlers now verb = Some h ->
  exists response st', h data st = (inr response, st').
Proof.
  unfold handlers. intros H.
  repeat case_match; simplify_eq; apply try_except_answers.
Qed.

Lemma handlers_unknown now verb : ~ In verb verbs -> handlers now verb = None.
Proof.
  intros H. unfold handlers.
  repeat match goal with
  | |- context [String.eqb verb ?v] =>
      destruct (String.eqb_spec verb v) as [-> | _];
        [exfalso; apply H; cbn; tauto|]
  end.
  reflexivity.
Qed.

Lemma process_bad_id now verb h u s e st :
  contains pipe verb = false -> handlers now verb = Some h ->
  contains pipe u = false -> contains pipe s = false ->
  py_int s = inl e ->
  In verb [ "READ"; "DELETE"; "EXPORT" ] ->
  process_command now (verb +:+ "|" +:+ u +:+ "|" +:+ s) st
  = (inr ("ERROR|" +:+ exn_str e), st).
Proof.
  intros Hv Hh Hu Hs He Hin.
  rewrite (process_command_dispatch now verb _ h Hv Hh).
  cbn in Hin. destruct Hin as [<- | [<- | [<- | []]]];
    injection Hh as <-;
    [unfold handle_read | unfold handle_delete | unfold handle_export];
    rewrite (split3 _ u s) by auto; py_unfold; rewrite He; reflexivity.
Qed.

(** C6. [process_command] answers every command string and raises
    nothing: the empty string gets [ERROR|Empty command]; a first field
    that is not a verb gets [ERROR|Unknown command '<field>']; and the
    [ValueError] of [int()] on the id field of READ, DELETE, EXPORT and
    FORWARD comes back as [ERROR|<message>], the server unchanged. *)
Theorem process_command_always_answers now data st :
  (exists response, respond st (now, data) = inr response)
  /\ (data = "" -> respond st (now, data) = inr "ERROR|Empty command")
  /\ (forall verb l,
        data <> "" -> split pipe data = verb :: l -> ~ In verb verbs ->
        process_command now data st
        = (inr ("ERROR|Unknown command '" +:+ verb +:+ "'"), st))
  /\ (forall verb u s e,
        In verb [ "READ"; "DELETE"; "EXPORT" ] ->
        contains pipe u = false -> contains pipe s = false ->
        py_int s = inl e ->
        data = verb +:+ "|" +:+ u +:+ "|" +:+ s ->
        process_command now data st = (inr ("ERROR|" +:+ exn_str e), st))
  /\ (forall u s r e,
        contains pipe u = false -> contains pipe s = false ->
        contains pipe r = false -> py_int s = inl e ->
        data = "FORWARD" +:+ "|" +:+ u +:+ "|" +:+ s +:+ "|" +:+ r ->
        process_command now data st = (inr ("ERROR|" +:+ exn_str e), st)).
Proof.
  repeat split.
  - unfold respond, process_command. cbn [fst snd].
    destruct (negb (truthy data)); [eexists; reflexivity|].
    assert (Hne := split_nonempty pipe data).
    destruct (split pipe data) as [|verb l]; [congruence|].
    unfold index0, bind, ret.
    destruct (handlers now verb) as [h|] eqn:Hh; [|eexists; reflexivity].
    destruct (handler_answers _ _ _ data st Hh) as (response & st' & ->).
    eexists. reflexivity.
  - intros ->. reflexivity.
  - intros verb l Hdata Hsplit Hverb. unfold process_command.
    destruct data; [congruence|]. cbn [truthy negb].
    rewrite Hsplit. unfold index0, bind, ret.
    rewrite (handlers_unknown _ _ Hverb). reflexivity.
  - intros verb u s e Hin Hu Hs He ->.
    assert (Hv : contains pipe verb = false
                 /\ exists h, handlers now verb = Some h).
    { cbn in Hin. destruct Hin as [<- | [<- | [<- | []]]];
        (split; [reflexivity | eexists; reflexivity]). }
    destruct Hv as [Hv [h Hh]].
    exact (process_bad_id _ _ _ _ _ _ _ Hv Hh Hu Hs He Hin).
  - intros u s r e Hu Hs Hr He ->.
    rewrite (process_command_dispatch now "FORWARD" _ (handle_forward now))
      by reflexivity.
    unfold handle_forward. rewrite (split4 "FORWARD" u s r) by auto.
    py_unfold. rewrite He. reflexivity.
Qed.

(** The statement of C6 at the empty command, at an unknown verb and at
    ids that are not numbers. *)
Lemma process_command_always_answers_witness :
  respond st0 (t1, "") = inr "ERROR|Empty command"
  /\ process_command t1 "FETCH|bob" st0
     = (inr "ERROR|Unknown command 'FETCH'", st0)
  /\ process_command t1 "DELETE|bob|one" st0
     = (inr "ERROR|invalid literal for int() with base 10: 'one'", st0)
  /\ process_command t1 "FORWARD|bob|1.5|alice" st0
     = (inr "ERROR|invalid literal for int() with base 10: '1.5'", st0).
Proof.
  split; [|split; [|split]].
  - apply (process_command_always_answers t1 "" st0). reflexivity.
  - destruct (process_command_always_answers t1 "FETCH|bob" st0)
      as (_ & _ & H & _).
    apply (H "FETCH" [ "bob" ]).
    + discriminate.
    + reflexivity.
    + cbn. intros Hin.
      repeat (destruct Hin as [Hin | Hin]; [discriminate Hin|]).
      exact Hin.
  - destruct (process_command_always_answers t1 "DELETE|bob|one" st0)
      as (_ & _ & _ & H & _).
    apply (H "DELETE" "bob" "one"
             (ValueError "invalid literal for int() with base 10: 'one'")).
    + right. left. reflexivity.
    + reflexivity.
    + reflexivity.
    + reflexivity.
    + reflexivity.
  - destruct (process_command_always_answers t1 "FORWARD|bob|1.5|alice" st0)
      as (_ & _ & _ & _ & H).
    apply (H "bob" "1.5" "alice"
             (ValueError "invalid literal for int() with base 10: '1.5'")).
    + reflexivity.
    + reflexivity.
    + reflexivity.
    + reflexivity.
    + reflexivity.
Defined.

End Dispatcher.

(* ================================================================== *)
(** * Persistence: which requests write the file *)
(* ================================================================== *)

Module Persistence.
Import PyStr PyInt PyStrFacts PyIntFacts Server ServerFacts Scenario.

Lemma saved_durable st : durable (saved st).
Proof. reflexivity. Qed.

(** A request leaves the server as it was, or leaves the file equal to
    the store, or is a FORWARD that appended a message. *)
Lemma step_durable_unless_forward st r :
  step st r = st
  \/ durable (step st r)
  \/ exists u r' now e,
       step st r = with_new (fun i => forwarded_email i u r' now e) st.
Proof.
  destruct (step_transition st r); eauto using saved_durable.
  right. right. eauto.
Qed.

(** [handle_forward] never writes the file. *)
Lemma handle_forward_keeps_file now data st :
  server_db_json (handle_forward now data st).2 = server_db_json st.
Proof. unfold handle_forward. py_cases; reflexivity. Qed.

Lemma transition_file_behind st st' :
  file_behind st -> transition st st' -> file_behind st'.
Proof.
  intros H Htr. destruct Htr.
  - exact H.
  - intros d [= <-]. cbn. lia.
  - intros d [= <-]. cbn. lia.
  - intros d [= <-]. cbn. lia.
  - intros d [= <-]. cbn. lia.
  - intros d Hd. specialize (H d Hd). cbn. lia.
Qed.

Lemma reachable_file_behind st : reachable st -> file_behind st.
Proof.
  intros [evs ->]. assert (H : file_behind init) by (intros d; discriminate).
  revert H. generalize init. induction evs as [|ev evs IH]; intros st H.
  - exact H.
  - apply IH. destruct ev as [r|]; cbn.
    + exact (transition_file_behind _ _ H (step_transition st r)).
    + unfold restart, load_server_data. cbn.
      destruct (server_db_json st) as [d|] eqn:E; cbn.
      * intros d' [= <-]. cbn. lia.
      * intros d'. cbn. discriminate.
Qed.

(** In every reachable state, a FORWARD that answers OK leaves the file
    as it was, and the file is then not the store. *)
Lemma forward_ok_leaves_file_stale st now u i r :
  reachable st -> contains pipe u = false -> contains pipe r = false ->
  respond st (now, forward_text u i r)
  = inr ("OK|Email forwarded to " +:+ r) ->
  server_db_json (step st (now, forward_text u i r)) = server_db_json st
  /\ ~ durable (step st (now, forward_text u i r)).
Proof.
  intros Hst Hu Hr. unfold respond, step. cbn [fst snd].
  rewrite (process_forward _ _ _ _ _ Hu Hr).
  destruct (find_email i (emails st)) as [e|]; [|discriminate].
  destruct (no_access e u); [discriminate|].
  destruct (negb (has_user r st)); [discriminate|].
  intros _. cbn [snd]. split; [reflexivity|].
  unfold durable. cbn. intros Hd.
  apply (reachable_file_behind _ Hst) in Hd. cbn in Hd. lia.
Qed.

(** C1. bob forwards the message alice sent him: the server answers OK
    and holds two messages with the counter at 2, while the file is the
    one written by alice's SEND, with one message and the counter at 1.
    A restart at this point brings back the store without the forwarded
    message. *)
Theorem forward_answers_ok_without_snapshot :
  let out := process_command t1 "FORWARD|bob|1|alice" st0 in
  out.1 = inr "OK|Email forwarded to alice"
  /\ durable st0
  /\ server_db_json out.2 = server_db_json st0
  /\ ~ durable out.2
  /\ emails out.2 = [ hi; forwarded_email 2 "bob" "alice" t1 hi ]
  /\ email_id_counter out.2 = 2
  /\ (exists d, server_db_json out.2 = Some d
                /\ db_emails d = [ hi ] /\ db_email_id_counter d = 1)
  /\ emails (restart out.2) = [ hi ]
  /\ email_id_counter (restart out.2) = 1.
Proof.
  cbv zeta. split; [reflexivity|]. split; [reflexivity|].
  split; [reflexivity|]. split.
  - intros H.
    apply (f_equal (fun o => match o with
                             | Some d => db_email_id_counter d
                             | None => 0
                             end)) in H.
    vm_compute in H. discriminate H.
  - split; [reflexivity|]. split; [reflexivity|]. split.
    + eexists. split; [reflexivity|]. split; reflexivity.
    + split; reflexivity.
Qed.

(** After that restart the next SEND gets the id 2, which the forwarded
    message had. *)
Lemma restart_after_forward_reuses_id :
  let out := process_command t1 "FORWARD|bob|1|alice" st0 in
  emails (step (restart out.2) (t1, "SEND|alice|bob|Again|Hello again"))
  = [ hi; mkEmail 2 "alice" "bob" "Again" "Hello again" t1 false ].
Proof. reflexivity. Qed.

(** C4. alice writes to bob, bob forwards the message to alice, the
    server restarts and alice writes again. The forwarded message was
    given the id 2; the restart loads the counter 1 of the file that
    FORWARD did not rewrite, and the new message is given the id 2 as
    well. Both states are reachable, and under the id 2 the first holds
    the forwarded message, the second alice's new one: the id is used
    twice, and the later creation does not get a greater id. *)
Theorem forward_then_restart_reuses_id :
  let forwarded :=
    run_events init (setup ++ [ Request (t1, "FORWARD|bob|1|alice") ]) in
  let again :=
    run_events forwarded
      [ Restart; Request (t1, "SEND|alice|bob|Again|Hello again") ] in
  let copy := forwarded_email 2 "bob" "alice" t1 hi in
  let second := mkEmail 2 "alice" "bob" "Again" "Hello again" t1 false in
  reachable forwarded /\ reachable again
  /\ emails (run_events init setup) = [ hi ]
  /\ emails forwarded = [ hi; copy ]
  /\ email_id_counter forwarded = 2
  /\ email_id_counter (restart forwarded) = 1
  /\ emails again = [ hi; second ]
  /\ email_id_counter again = 2
  /\ find_email 2 (emails forwarded) = Some copy
  /\ find_email 2 (emails again) = Some second
  /\ copy <> second
  /\ ~ e_id copy < e_id second.
Proof.
  cbv zeta. split.
  { eexists. reflexivity. }
  split.
  { exists (setup ++ [ Request (t1, "FORWARD|bob|1|alice"); Restart;
                       Request (t1, "SEND|alice|bob|Again|Hello again") ]).
    reflexivity. }
  repeat (split; [reflexivity|]).
  split; [discriminate|]. cbn. lia.
Qed.

End Persistence.

(* ================================================================== *)
(** * The wire codec: partial reads *)
(* ================================================================== *)

Module WireFacts.
Import Wire Scenario.

Lemma recv_keeps_pieces n ch data ch' :
  Forall nonempty (pending ch) -> recv n ch = Some (data, ch') ->
  Forall nonempty (pending ch').
Proof.
  unfold recv. destruct (pending ch) as [|piece rest] eqn:E.
  - destruct (closed ch); [|discriminate]. intros _ [= _ <-]. rewrite E.
    constructor.
  - intros H [= _ <-]. cbn. inversion H; subst.
    destruct (skipn n piece) eqn:Es; [assumption|].
    constructor; [discriminate | assumption].
Qed.

(** ** The header *)

Lemma to_N_byte_of_N n : (n < 256)%N -> Byte.to_N (byte_of_N n) = n.
Proof.
  intros Hn. unfold byte_of_N. destruct (Byte.of_N n) as [b|] eqn:E.
  - apply Byte.to_of_N. exact E.
  - apply Byte.of_N_None_iff in E. lia.
Qed.

Lemma byte_of_N_to_N b : byte_of_N (Byte.to_N b) = b.
Proof. unfold byte_of_N. rewrite Byte.of_to_N. reflexivity. Qed.

Lemma length_le_bytes w : forall v, length (le_bytes w v) = w.
Proof. induction w as [|w IH]; intros v; simpl; [|rewrite IH]; reflexivity. Qed.

Lemma le_value_le_bytes w : forall v,
  le_value (le_bytes w v) = (v mod 256 ^ N.of_nat w)%N.
Proof.
  induction w as [|w IH]; intros v.
  - cbn [le_bytes le_value]. change (256 ^ N.of_nat 0)%N with 1%N.
    rewrite N.mod_1_r. reflexivity.
  - cbn [le_bytes le_value]. rewrite IH, to_N_byte_of_N.
    + rewrite Nat2N.inj_succ, N.pow_succ_r'.
      symmetry. apply N.Div0.mod_mul_r.
    + apply N.mod_lt. discriminate.
Qed.

Lemma le_bytes_le_value bs : le_bytes (length bs) (le_value bs) = bs.
Proof.
  induction bs as [|b t IH]; [reflexivity|].
  cbn [length le_bytes le_value].
  assert (Hb := Byte.to_N_bounded b).
  assert (Hmod : ((Byte.to_N b + 256 * le_value t) mod 256 = Byte.to_N b)%N).
  { rewrite N.mul_comm, N.Div0.mod_add. apply N.mod_small. lia. }
  assert (Hdiv : ((Byte.to_N b + 256 * le_value t) / 256 = le_value t)%N).
  { rewrite N.mul_comm, N.div_add by discriminate.
    rewrite N.div_small by lia. reflexivity. }
  rewrite Hmod, Hdiv, byte_of_N_to_N, IH. reflexivity.
Qed.

Lemma le_value_bound bs : (le_value bs < 256 ^ N.of_nat (length bs))%N.
Proof.
  induction bs as [|b t IH]; [cbn; lia|].
  cbn [length le_value]. rewrite Nat2N.inj_succ, N.pow_succ_r'.
  assert (Hb := Byte.to_N_bounded b). lia.
Qed.

(** [ntohl(htonl(x)) == x] below 2^32. *)
Lemma ntohl_htonl x :
  (x < 2 ^ 32)%N ->
  exists y, htonl x = Some y /\ ntohl y = Some x /\ (y < 2 ^ 32)%N.
Proof.
  intros Hx. unfold ntohl, htonl.
  destruct (N.ltb_spec x (2 ^ 32)) as [_ | Hge]; [|lia].
  set (bs := rev (le_bytes 4 x)).
  assert (Hlen : length bs = 4%nat).
  { unfold bs. rewrite length_rev. apply length_le_bytes. }
  assert (Hy : (le_value bs < 2 ^ 32)%N).
  { assert (H := le_value_bound bs). rewrite Hlen in H. exact H. }
  exists (le_value bs). split; [reflexivity|]. split; [|exact Hy].
  destruct (N.ltb_spec (le_value bs) (2 ^ 32)) as [_ | Hge]; [|lia].
  f_equal. rewrite <- Hlen, le_bytes_le_value. unfold bs.
  rewrite rev_involutive, le_value_le_bytes. apply N.mod_small. exact Hx.
Qed.

Section Loop.

Variable calcsize_L : nat.
Variable pickle_loads : list byte -> option string.

(** Once the buffer holds a piece shorter than the frame, the loop never
    ends: each read asks for what the last piece lacked, and so gets a
    piece shorter than the frame again. *)
Lemma receive_loop_stuck size : forall fuel buf ch,
  (length buf < size)%nat ->
  Forall nonempty (pending ch) ->
  buf <> [] \/ pending ch = [] ->
  returned (receive_loop pickle_loads fuel size (Some buf) ch).1 = false.
Proof.
  induction fuel as [|fuel IH]; intros buf ch Hlen Hp Hbuf;
    cbn [receive_loop buf_len];
    destruct (Nat.ltb_spec (length buf) size) as [_ | Hge]; try lia;
    [reflexivity|].
  destruct (recv (size - length buf) ch) as [[data ch']|] eqn:Hrecv;
    [|reflexivity].
  assert (Hp' := recv_keeps_pieces _ _ _ _ Hp Hrecv).
  unfold recv in Hrecv. destruct (pending ch) as [|piece rest] eqn:E.
  - destruct (closed ch); [|discriminate].
    injection Hrecv as <- <-. apply IH; [simpl; lia | exact Hp'|].
    right. exact E.
  - destruct Hbuf as [Hbuf | Hbuf]; [|discriminate].
    injection Hrecv as <- <-. apply IH; [|exact Hp'|].
    + rewrite length_firstn. destruct buf; [congruence|]. simpl. lia.
    + left. inversion Hp; subst. destruct piece; [congruence|].
      destruct (size - length buf)%nat eqn:Ek; [lia|]. discriminate.
Qed.

(** A frame whose first piece is only a part of the envelope: [receive]
    does not return. *)
Lemma receive_partial_first_read header v size c1 rest cl fuel :
  length header = calcsize_L ->
  le_value header = v -> ntohl v = Some (N.of_nat size) ->
  c1 <> [] -> (length c1 < size)%nat -> Forall nonempty rest ->
  returned (receive calcsize_L pickle_loads fuel
              (mkChannel (header :: c1 :: rest) cl)).1 = false.
Proof.
  intros Hh Hv Hn Hc Hlen Hrest. unfold receive, recv. cbn [pending closed].
  rewrite <- Hh, firstn_all, skipn_all. unfold unpack_L.
  rewrite Hh, Nat.eqb_refl, Hv, Hn, Nat2N.id.
  destruct fuel as [|fuel]; cbn [receive_loop buf_len];
    destruct (Nat.ltb_spec 0 size) as [_ | Hge]; try lia; [reflexivity|].
  unfold recv. cbn [pending closed]. rewrite Nat.sub_0_r.
  rewrite firstn_all2, skipn_all2 by lia.
  apply receive_loop_stuck; [exact Hlen | exact Hrest | left; exact Hc].
Qed.

End Loop.

(** A frame whose header and envelope each arrive whole is read back as
    the payload, when [pickle.loads] undoes [pickle.dumps]. *)
Lemma receive_whole_frame w pickle_dumps pickle_loads payload header envelope cl :
  pickle_loads (pickle_dumps payload) = Some payload ->
  pickle_dumps payload <> [] ->
  send w pickle_dumps payload = Some (header, envelope) ->
  receive w pickle_loads 1 (mkChannel [ header; envelope ] cl)
  = (Returned payload, mkChannel [] cl).
Proof.
  intros Hloads Hne Hsend. unfold send in Hsend.
  destruct (htonl (N.of_nat (length (pickle_dumps payload)))) as [v|] eqn:Hv;
    [|discriminate].
  assert (Hx : (N.of_nat (length (pickle_dumps payload)) < 2 ^ 32)%N).
  { unfold htonl in Hv.
    destruct (N.ltb_spec (N.of_nat (length (pickle_dumps payload))) (2 ^ 32));
      [assumption | discriminate]. }
  destruct (ntohl_htonl _ Hx) as (y & Hy & Hback & Hy32).
  rewrite Hv in Hy. injection Hy as <-.
  unfold pack_L in Hsend.
  destruct (N.ltb_spec v (2 ^ (8 * N.of_nat w))) as [Hfit | _];
    [|discriminate].
  injection Hsend as <- <-.
  assert (Hpow : (256 ^ N.of_nat w = 2 ^ (8 * N.of_nat w))%N).
  { change 256%N with (2 ^ 8)%N. rewrite <- N.pow_mul_r. reflexivity. }
  unfold receive, recv. cbn [pending closed].
  rewrite firstn_all2, skipn_all2 by (rewrite length_le_bytes; lia).
  unfold unpack_L.
  rewrite length_le_bytes, Nat.eqb_refl, le_value_le_bytes.
  rewrite N.mod_small by (rewrite Hpow; exact Hfit).
  rewrite Hback, Nat2N.id.
  set (body := pickle_dumps payload) in *.
  cbn [receive_loop buf_len].
  destruct (Nat.ltb_spec 0 (length body)) as [_ | Hz];
    [|destruct body; [congruence | simpl in Hz; lia]].
  unfold recv. cbn [pending closed]. rewrite Nat.sub_0_r.
  rewrite firstn_all, skipn_all. cbn [buf_len].
  rewrite Nat.ltb_irrefl, Hloads. reflexivity.
Qed.

(** C2. The frame [send] writes for the payload [OK] on an LP64 host is
    the header [header_OK] and the 19 bytes [envelope_OK]. When the
    envelope arrives in one piece [receive] returns what [pickle.loads]
    gives for it. When it arrives as 5 bytes and then 14 bytes, [receive]
    does not return, whatever the fuel and whether or not the peer has
    closed: the second read replaces the first 5 bytes instead of joining
    them. *)
Theorem receive_split_envelope_never_returns :
  send 8 (fun _ => envelope_OK) "OK" = Some (header_OK, envelope_OK)
  /\ (forall pickle_loads cl,
        (receive 8 pickle_loads 1 (mkChannel [ header_OK; envelope_OK ] cl)).1
        = match pickle_loads envelope_OK with
          | Some v => Returned v
          | None => Raised "UnpicklingError"
          end)
  /\ (forall pickle_loads cl fuel,
        returned
          (receive 8 pickle_loads fuel
             (mkChannel [ header_OK; firstn 5 envelope_OK;
                          skipn 5 envelope_OK ] cl)).1 = false)
  /\ receive_loop (fun _ => Some "OK") 1 19 (Some (firstn 5 envelope_OK))
       (mkChannel [ skipn 5 envelope_OK ] false)
     = receive_loop (fun _ => Some "OK") 0 19 (Some (skipn 5 envelope_OK))
         (mkChannel [] false).
Proof.
  split; [reflexivity|]. split; [|split].
  - intros pickle_loads cl. vm_compute.
    destruct (pickle_loads _); reflexivity.
  - intros pickle_loads cl fuel.
    apply (receive_partial_first_read 8 pickle_loads header_OK
             (le_value header_OK) 19).
    + reflexivity.
    + reflexivity.
    + reflexivity.
    + discriminate.
    + cbn. lia.
    + repeat constructor. discriminate.
  - reflexivity.
Qed.

End WireFacts.

(* ================================================================== *)
(** * The client: sync and subject capture *)
(* ================================================================== *)

Module ClientFacts.
Import PyStr PyInt PyStrFacts PyIntFacts Server Client Scenario.

Lemma startswith_OK_not_EMPTY response :
  startswith "OK" response = true -> startswith "EMPTY" response = false.
Proof.
  destruct response as [|c r]; [discriminate|]. cbn [startswith].
  destruct (Ascii.eqb_spec "O" c) as [<- | _]; [reflexivity | discriminate].
Qed.

Lemma splitn2_three a b data :
  contains pipe a = false -> contains pipe b = false ->
  splitn pipe 2 (a +:+ "|" +:+ b +:+ "|" +:+ data) = [ a; b; data ].
Proof.
  intros Ha Hb.
  change (a +:+ "|" +:+ b +:+ "|" +:+ data)
    with (a +:+ String pipe (b +:+ String pipe data)).
  rewrite (splitn_field _ _ _ _ Ha), (splitn_field _ _ _ _ Hb).
  destruct data; reflexivity.
Qed.

Lemma splitn2_two a b :
  contains pipe a = false -> contains pipe b = false ->
  splitn pipe 2 (a +:+ "|" +:+ b) = [ a; b ].
Proof.
  intros Ha Hb. change (a +:+ "|" +:+ b) with (a +:+ String pipe b).
  rewrite (splitn_field _ _ _ _ Ha), (splitn_last _ _ _ Hb). reflexivity.
Qed.

(** C5 as worded fails: on the response [OK|2], which starts with OK and
    has no listing, [sync_inbox] returns the empty list and leaves the
    cached list, one summary, where it was. *)
Lemma sync_inbox_ok_without_listing :
  startswith "OK" "OK|2" = true
  /\ sync_inbox t1 "OK|2" stale = ([], stale)
  /\ inbox stale <> []
  /\ ~ ok_always_replaces.
Proof.
  split; [reflexivity|]. split; [reflexivity|]. split; [discriminate|].
  intros H. specialize (H t1 "OK|2" stale eq_refl). discriminate H.
Qed.

(** C5, amended. On a response that starts with EMPTY the cached list
    becomes empty and the call returns the empty list. On one that starts
    with OK and has two [|], the cached list becomes the list parsed from
    what follows the second [|], and that list is returned. On one that
    starts with OK and has fewer than two [|], the cache is unchanged and
    the call returns the empty list. On any other response the cache is
    unchanged and the cached list is returned. *)
Theorem sync_replaces_or_falls_back now response c :
  (startswith "EMPTY" response = true ->
     sync_inbox now response c = ([], mkCache [] (sent c) (Some now))
     /\ sync_sent response c = ([], mkCache (inbox c) [] (last_sync c)))
  /\ (forall a b data,
        startswith "OK" response = true ->
        response = a +:+ "|" +:+ b +:+ "|" +:+ data ->
        contains pipe a = false -> contains pipe b = false ->
        sync_inbox now response c
        = (parse_listing inbox_of_piece data,
           mkCache (parse_listing inbox_of_piece data) (sent c) (Some now))
        /\ sync_sent response c
           = (parse_listing sent_of_piece data,
              mkCache (inbox c) (parse_listing sent_of_piece data)
                (last_sync c)))
  /\ (forall a b,
        startswith "OK" response = true ->
        response = a \/ response = a +:+ "|" +:+ b ->
        contains pipe a = false -> contains pipe b = false ->
        sync_inbox now response c = ([], c)
        /\ sync_sent response c = ([], c))
  /\ (startswith "EMPTY" response = false ->
       startswith "OK" response = false ->
       sync_inbox now response c = (inbox c, c)
       /\ sync_sent response c = (sent c, c)).
Proof.
  unfold sync_inbox, sync_sent. split; [|split; [|split]].
  - intros Hempty. rewrite Hempty. split; reflexivity.
  - intros a b data Hok -> Ha Hb.
    rewrite (startswith_OK_not_EMPTY _ Hok), Hok.
    rewrite splitn2_three by assumption. split; reflexivity.
  - intros a b Hok Hshape Ha Hb.
    rewrite (startswith_OK_not_EMPTY _ Hok), Hok.
    destruct Hshape as [-> | ->].
    + rewrite splitn_last by assumption. split; reflexivity.
    + rewrite splitn2_two by assumption. split; reflexivity.
  - intros Hempty Hok. rewrite Hempty, Hok. split; reflexivity.
Qed.

(** The statement of C5, amended, at the four kinds of response. *)
Lemma sync_replaces_or_falls_back_witness :
  sync_inbox t1 "EMPTY|No emails in inbox" stale
  = ([], mkCache [] (sent stale) (Some t1))
  /\ sync_inbox t1 "OK|1|5~bob~Re~2024-01-01 10:04:00~UNREAD" stale
     = ([ mkInboxSummary "5" "bob" "Re" "2024-01-01 10:04:00" false ],
        mkCache [ mkInboxSummary "5" "bob" "Re" "2024-01-01 10:04:00" false ]
          (sent stale) (Some t1))
  /\ sync_sent "OK|Welcome bob!" stale = ([], stale)
  /\ sync_inbox t1 "ERROR|Server timeout" stale = (inbox stale, stale).
Proof.
  split; [|split; [|split]].
  - apply (sync_replaces_or_falls_back t1 "EMPTY|No emails in inbox" stale).
    reflexivity.
  - destruct (sync_replaces_or_falls_back t1
                "OK|1|5~bob~Re~2024-01-01 10:04:00~UNREAD" stale)
      as (_ & H & _).
    apply (H "OK" "1" "5~bob~Re~2024-01-01 10:04:00~UNREAD");
      reflexivity.
  - destruct (sync_replaces_or_falls_back t1 "OK|Welcome bob!" stale)
      as (_ & _ & H & _).
    apply (H "OK" "Welcome bob!"); [reflexivity | right | | ]; reflexivity.
  - apply (sync_replaces_or_falls_back t1 "ERROR|Server timeout" stale);
      reflexivity.
Defined.

(** ** Subject capture *)

Lemma get_replace old new s : forall n,
  String.get n (replace old new s)
  = option_map (fun c => if Ascii.eqb c old then new else c) (String.get n s).
Proof.
  induction s as [|a s IH]; intros n; [reflexivity|].
  destruct n as [|n]; [reflexivity|]. exact (IH n).
Qed.

Lemma compose_subject_get typed n c :
  String.get n (strip typed) = Some c ->
  String.get n (compose_subject typed) = Some (compose_char c).
Proof.
  intros H. unfold compose_subject, compose_char.
  rewrite !get_replace, H. cbn [option_map]. f_equal.
  destruct (Ascii.eqb c pipe) eqn:E1.
  - apply Ascii.eqb_eq in E1. subst c. reflexivity.
  - cbv beta iota. destruct (Ascii.eqb c tilde) eqn:E2.
    + apply Ascii.eqb_eq in E2. subst c. reflexivity.
    + cbv beta iota. cbn [orb]. destruct (Ascii.eqb c semi); reflexivity.
Qed.

Lemma compose_subject_clean typed :
  contains pipe (compose_subject typed) = false
  /\ contains tilde (compose_subject typed) = false
  /\ contains semi (compose_subject typed) = false.
Proof.
  unfold compose_subject. repeat split.
  - apply replace_keeps; [discriminate|]. apply replace_keeps; [discriminate|].
    apply replace_removes. discriminate.
  - apply replace_keeps; [discriminate|]. apply replace_removes. discriminate.
  - apply replace_removes. discriminate.
Qed.

Lemma resume_subject_clean typed draft :
  contains pipe (resume_subject typed draft) = false
  /\ contains tilde (resume_subject typed draft) = false.
Proof.
  unfold resume_subject. split.
  - apply replace_keeps; [discriminate|]. apply replace_removes. discriminate.
  - apply replace_removes. discriminate.
Qed.

Lemma strip_truthy a s : is_space a = false -> truthy (strip (String a s)) = true.
Proof.
  intros Ha. unfold strip. cbn [lstrip]. rewrite Ha. cbn [rstrip].
  destruct (rstrip s); [rewrite Ha|]; reflexivity.
Qed.

Lemma py_str_head n : exists a s, py_str n = String a s /\ is_space a = false.
Proof.
  destruct (py_str n) as [|a s] eqn:E.
  - assert (H := py_int_py_str n). rewrite E in H. discriminate H.
  - exists a, s. split; [reflexivity|].
    destruct (is_space a) eqn:Ha; [|reflexivity].
    assert (H : contains a (py_str n) = false).
    { apply py_str_chars.
      - destruct a as [[] [] [] [] [] [] [] []]; try reflexivity; discriminate.
      - intros ->. discriminate. }
    rewrite E in H. cbn [contains] in H. rewrite Ascii.eqb_refl in H.
    discriminate H.
Qed.

(** The entry of a message whose sender, subject and time have no [~]
    splits into its five fields. *)
Lemma inbox_entry_fields e :
  contains tilde (e_from e) = false ->
  contains tilde (e_subject e) = false ->
  contains tilde (e_timestamp e) = false ->
  split tilde (inbox_entry_text e)
  = [ py_str (e_id e); e_from e; e_subject e; e_timestamp e;
      if e_read e then "READ" else "UNREAD" ].
Proof.
  intros Hf Hs Ht. unfold inbox_entry_text.
  change (py_str (e_id e) +:+ "~" +:+ e_from e +:+ "~" +:+ e_subject e
          +:+ "~" +:+ e_timestamp e +:+ "~"
          +:+ (if e_read e then "READ" else "UNREAD"))
    with (py_str (e_id e) +:+ String tilde (e_from e +:+ String tilde
            (e_subject e +:+ String tilde (e_timestamp e +:+ String tilde
               (if e_read e then "READ" else "UNREAD"))))).
  rewrite (split_field _ _ _ (py_str_no_tilde _)), (split_field _ _ _ Hf),
    (split_field _ _ _ Hs), (split_field _ _ _ Ht).
  rewrite split_last by (destruct (e_read e); reflexivity).
  reflexivity.
Qed.

(** The INBOX response for one message whose sender, subject and time
    have neither [~] nor [;] is read back by [sync_inbox] as the one
    matching summary. *)
Lemma inbox_listing_of_one_parses now e c :
  contains tilde (e_from e) = false -> contains semi (e_from e) = false ->
  contains tilde (e_subject e) = false -> contains semi (e_subject e) = false ->
  contains tilde (e_timestamp e) = false ->
  contains semi (e_timestamp e) = false ->
  let response :=
    rstrip_char semi (add_items inbox_item [ e ] ("OK|" +:+ py_str 1 +:+ "|")) in
  response = "OK|1|" +:+ inbox_entry_text e
  /\ (sync_inbox now response c).1
     = [ mkInboxSummary (py_str (e_id e)) (e_from e) (e_subject e)
           (e_timestamp e) (e_read e) ].
Proof.
  intros Hf Hf' Hs Hs' Ht Ht' response.
  set (status := if e_read e then "READ" else "UNREAD").
  assert (Hfields := inbox_entry_fields e Hf Hs Ht). fold status in Hfields.
  assert (Hentry : contains semi (inbox_entry_text e) = false).
  { unfold inbox_entry_text. rewrite !contains_app, py_str_no_semi, Hf', Hs', Ht'.
    destruct (e_read e); reflexivity. }
  assert (Hresp : response = "OK|1|" +:+ inbox_entry_text e).
  { unfold response, add_items, inbox_item. cbn [fold_left].
    change ("OK|" +:+ py_str 1 +:+ "|") with "OK|1|".
    rewrite <- (app_assoc "OK|1|" (inbox_entry_text e) ";").
    change ";" with (String semi "").
    rewrite rstrip_char_snoc. apply rstrip_char_nosep.
    rewrite contains_app, Hentry. reflexivity. }
  split; [exact Hresp|]. rewrite Hresp. unfold sync_inbox.
  assert (startswith "EMPTY" ("OK|1|" +:+ inbox_entry_text e) = false) as ->
    by reflexivity.
  assert (startswith "OK" ("OK|1|" +:+ inbox_entry_text e) = true) as ->
    by reflexivity.
  change ("OK|1|" +:+ inbox_entry_text e)
    with ("OK" +:+ "|" +:+ "1" +:+ "|" +:+ inbox_entry_text e).
  rewrite splitn2_three by reflexivity.
  cbn [negb fst]. unfold parse_listing.
  rewrite (split_last _ _ Hentry). cbn [omap list_omap]. unfold inbox_of_piece.
  rewrite Hfields.
  assert (truthy (strip (inbox_entry_text e)) = true) as ->.
  { unfold inbox_entry_text. destruct (py_str_head (e_id e)) as (a & s & -> & Ha).
    rewrite app_cons. apply strip_truthy, Ha. }
  unfold status. destruct (e_read e); reflexivity.
Qed.

(** C9 as worded fails: [compose_email] turns the [~] of the subject
    [a~b] into [-], not into a comma. *)
Lemma compose_subject_tilde_becomes_dash :
  compose_subject "a~b" = "a-b"
  /\ compose_subject "a~b" <> "a,b"
  /\ ~ tilde_becomes_comma.
Proof.
  split; [reflexivity|]. split; [discriminate|].
  intros H. specialize (H "a~b" 1%nat eq_refl). discriminate H.
Qed.

(** [resume_draft] lets a [;] typed in the subject through, and the
    listing item of such a message falls apart at the client: no summary
    comes out of it. *)
Lemma resume_subject_keeps_semicolon :
  resume_subject "a;b" "old" = "a;b"
  /\ parse_listing inbox_of_piece
       (inbox_entry_text
          (mkEmail 7 "alice" "bob" (resume_subject "a;b" "old") "text" t0
             false))
     = [].
Proof. split; reflexivity. Qed.

(** C9, amended. The subject [compose_email] transmits is the typed line
    without surrounding white space, with every [|] and [~] turned into
    [-] and every [;] into a comma, so it has none of the three; the
    subject [resume_draft] transmits has no [|] and no [~]. The INBOX
    entry of a message with the subject of [compose_email], whose sender
    and time have no [~], splits into exactly its five fields, and the
    client's loop turns it into the matching summary. *)
Theorem composed_subject_keeps_listing_parseable typed draft e :
  (forall n c, String.get n (strip typed) = Some c ->
               String.get n (compose_subject typed) = Some (compose_char c))
  /\ contains pipe (compose_subject typed) = false
  /\ contains tilde (compose_subject typed) = false
  /\ contains semi (compose_subject typed) = false
  /\ contains pipe (resume_subject typed draft) = false
  /\ contains tilde (resume_subject typed draft) = false
  /\ (e_subject e = compose_subject typed ->
       contains tilde (e_from e) = false ->
       contains tilde (e_timestamp e) = false ->
       split tilde (inbox_entry_text e)
       = [ py_str (e_id e); e_from e; compose_subject typed; e_timestamp e;
           if e_read e then "READ" else "UNREAD" ]
       /\ inbox_of_piece (inbox_entry_text e)
          = Some (mkInboxSummary (py_str (e_id e)) (e_from e)
                    (compose_subject typed) (e_timestamp e) (e_read e))).
Proof.
  destruct (compose_subject_clean typed) as (Hp & Ht & Hs).
  destruct (resume_subject_clean typed draft) as (Hrp & Hrt).
  split; [intros n c; apply compose_subject_get|].
  repeat (split; [assumption|]).
  intros He Hfrom Htime.
  assert (Hfields := inbox_entry_fields e Hfrom
                       ltac:(rewrite He; exact Ht) Htime).
  rewrite He in Hfields. split; [exact Hfields|].
  unfold inbox_of_piece. rewrite Hfields.
  assert (truthy (strip (inbox_entry_text e)) = true) as ->.
  { unfold inbox_entry_text. destruct (py_str_head (e_id e)) as (a & s & -> & Ha).
    rewrite app_cons. apply strip_truthy, Ha. }
  destruct (e_read e); reflexivity.
Qed.

(** The statement of C9, amended, at the typed subject [ a|b~c;d ]. *)
Lemma composed_subject_keeps_listing_parseable_witness :
  compose_subject " a|b~c;d " = "a-b-c,d"
  /\ split tilde (inbox_entry_text odd)
     = [ "7"; "alice"; "a-b-c,d"; t0; "UNREAD" ]
  /\ inbox_of_piece (inbox_entry_text odd)
     = Some (mkInboxSummary "7" "alice" "a-b-c,d" t0 false).
Proof.
  destruct (composed_subject_keeps_listing_parseable " a|b~c;d " "old" odd)
    as (_ & _ & _ & _ & _ & _ & H).
  split; [reflexivity|].
  apply H; reflexivity.
Defined.

End ClientFacts.


(* ================================================================== *)
(** * Further properties of the mail store *)
(* ================================================================== *)

Module StoreExtras.
Import PyStr PyInt PyStrFacts PyIntFacts Server ServerFacts Scenario.
Import Invariants.

Lemma process_send now sender recipient subject body st :
  contains pipe sender = false -> contains pipe recipient = false ->
  contains pipe subject = false ->
  process_command now (Client.send_text sender recipient subject body) st
  = if negb (has_user recipient st)
    then (inr "ERROR|Recipient not found", st)
    else (inr ("OK|Email sent to " +:+ recipient),
          saved (with_new (fun i => mkEmail i sender recipient subject body
                                      now false) st)).
Proof.
  intros Hs Hr Hj. unfold Client.send_text.
  change ("SEND|" +:+ sender +:+ "|" +:+ recipient +:+ "|" +:+ subject
          +:+ "|" +:+ body)
    with ("SEND" +:+ "|" +:+ sender +:+ "|" +:+ recipient +:+ "|" +:+ subject
          +:+ "|" +:+ body).
  rewrite (process_command_dispatch now "SEND" _ (handle_send now))
    by reflexivity.
  unfold handle_send.
  change ("SEND" +:+ "|" +:+ sender +:+ "|" +:+ recipient +:+ "|" +:+ subject
          +:+ "|" +:+ body)
    with ("SEND" +:+ String pipe (sender +:+ String pipe (recipient
            +:+ String pipe (subject +:+ String pipe body)))).
  rewrite (splitn_field pipe 3 "SEND") by reflexivity.
  rewrite (splitn_field pipe 2 sender) by exact Hs.
  rewrite (splitn_field pipe 1 recipient) by exact Hr.
  rewrite (splitn_field pipe 0 subject) by exact Hj.
  assert (splitn pipe 0 body = [ body ]) as -> by (destruct body; reflexivity).
  py_unfold. destruct (negb (has_user recipient st)); reflexivity.
Qed.

Lemma login_eval now u q st :
  contains pipe u = false -> contains pipe q = false ->
  process_command now (login_text u q) st
  = (inr match users st !! u with
         | None => "ERROR|Username not found"
         | Some stored =>
             if String.eqb stored q then "OK|Welcome " +:+ u +:+ "!"
             else "ERROR|Invalid password"
         end, st).
Proof.
  intros Hu Hq. unfold login_text.
  change ("LOGIN|" +:+ u +:+ "|" +:+ q)
    with ("LOGIN" +:+ "|" +:+ u +:+ "|" +:+ q).
  rewrite (process_command_dispatch now "LOGIN" _ handle_login)
    by reflexivity.
  unfold handle_login. rewrite (split3 "LOGIN" u q) by auto.
  py_unfold. destruct (users st !! u) as [stored|]; [|reflexivity].
  destruct (String.eqb stored q); reflexivity.
Qed.

(** X1. LOGIN for a name and a password without [|] never changes the
    server. For a registered name it answers [OK|Welcome <name>!] exactly
    when the password is the stored one and [ERROR|Invalid password]
    otherwise; for an unknown name it answers
    [ERROR|Username not found]. *)
Theorem login_checks_stored_password st now u q :
  contains pipe u = false -> contains pipe q = false ->
  step st (now, login_text u q) = st
  /\ (forall p, users st !! u = Some p ->
        (q = p -> respond st (now, login_text u q)
                  = inr ("OK|Welcome " +:+ u +:+ "!"))
        /\ (q <> p -> respond st (now, login_text u q)
                      = inr "ERROR|Invalid password"))
  /\ (users st !! u = None ->
      respond st (now, login_text u q) = inr "ERROR|Username not found").
Proof.
  intros Hu Hq. unfold step, respond. cbn [fst snd].
  rewrite (login_eval _ _ _ _ Hu Hq). cbn [fst snd].
  split; [reflexivity|]. split.
  - intros p Hp. rewrite Hp. split.
    + intros ->. rewrite String.eqb_refl. reflexivity.
    + intros Hne. destruct (String.eqb_spec p q); [congruence | reflexivity].
  - intros Hnone. rewrite Hnone. reflexivity.
Qed.

(** The statement of X1 at bob's account and the password [pw2]. *)
Lemma login_checks_stored_password_witness :
  step st0 (t1, login_text "bob" "pw2") = st0
  /\ (forall p, users st0 !! "bob" = Some p ->
        ("pw2" = p -> respond st0 (t1, login_text "bob" "pw2")
                      = inr ("OK|Welcome " +:+ "bob" +:+ "!"))
        /\ ("pw2" <> p -> respond st0 (t1, login_text "bob" "pw2")
                          = inr "ERROR|Invalid password"))
  /\ (users st0 !! "bob" = None ->
      respond st0 (t1, login_text "bob" "pw2")
      = inr "ERROR|Username not found").
Proof.
  apply (login_checks_stored_password st0 t1 "bob" "pw2"); reflexivity.
Defined.

(** X2. REGISTER for a name without [|]: a new name, the empty one
    included, is stored with the password as it is, nothing else of the
    store changes and the file is written; a name already registered gets
    [ERROR|Username already exists] and the server, the stored password
    included, is unchanged. *)
Theorem register_adds_or_refuses st now u p :
  contains pipe u = false ->
  (users st !! u = None ->
     respond st (now, register_text u p)
     = inr ("OK|User " +:+ u +:+ " registered successfully")
     /\ users (step st (now, register_text u p)) = <[u := p]> (users st)
     /\ emails (step st (now, register_text u p)) = emails st
     /\ email_id_counter (step st (now, register_text u p))
        = email_id_counter st
     /\ durable (step st (now, register_text u p)))
  /\ (forall old, users st !! u = Some old ->
        respond st (now, register_text u p)
        = inr "ERROR|Username already exists"
        /\ step st (now, register_text u p) = st).
Proof.
  intros Hu. unfold step, respond. cbn [fst snd].
  rewrite (Dispatcher.process_register _ _ _ _ Hu). unfold has_user. split.
  - intros ->. repeat split; reflexivity.
  - intros old ->. split; reflexivity.
Qed.

(** The statement of X2 at the new name [carol] and at the existing
    name [bob]. *)
Lemma register_adds_or_refuses_witness :
  users (step st0 (t1, register_text "carol" "")) = <["carol" := ""]> (users st0)
  /\ step st0 (t1, register_text "bob" "other") = st0.
Proof.
  split.
  - apply (register_adds_or_refuses st0 t1 "carol" ""); reflexivity.
  - apply (proj2 (register_adds_or_refuses st0 t1 "bob" "other" eq_refl) "pw2").
    reflexivity.
Defined.

(** X3. SEND with sender, recipient and subject without [|]: to a
    registered recipient it answers OK, appends one unread message
    numbered by the advanced counter that carries the four fields as they
    are, the body with any [|] it has, and writes the file; the sender is
    not looked up. To an unregistered recipient it answers
    [ERROR|Recipient not found] and the server is unchanged. *)
Theorem send_delivers_or_refuses st now sender recipient subject body :
  contains pipe sender = false -> contains pipe recipient = false ->
  contains pipe subject = false ->
  let cmd := (now, Client.send_text sender recipient subject body) in
  (is_Some (users st !! recipient) ->
     respond st cmd = inr ("OK|Email sent to " +:+ recipient)
     /\ emails (step st cmd)
        = emails st ++ [ mkEmail (email_id_counter st + 1) sender recipient
                           subject body now false ]
     /\ email_id_counter (step st cmd) = email_id_counter st + 1
     /\ users (step st cmd) = users st
     /\ durable (step st cmd))
  /\ (users st !! recipient = None ->
      respond st cmd = inr "ERROR|Recipient not found" /\ step st cmd = st).
Proof.
  intros Hs Hr Hj cmd. unfold step, respond, cmd. cbn [fst snd].
  rewrite (process_send _ _ _ _ _ _ Hs Hr Hj). split.
  - intros Hreg. apply has_user_true in Hreg. rewrite Hreg.
    repeat split; reflexivity.
  - intros Hnone. unfold has_user. rewrite Hnone. split; reflexivity.
Qed.

(** The statement of X3 at a message of [mallory], who is not
    registered, to bob, with a body that has [|]. *)
Lemma send_delivers_or_refuses_witness :
  let cmd := (t1, Client.send_text "mallory" "bob" "Hi" "a|b|c") in
  respond st0 cmd = inr ("OK|Email sent to " +:+ "bob")
  /\ emails (step st0 cmd)
     = emails st0 ++ [ mkEmail (email_id_counter st0 + 1) "mallory" "bob"
                         "Hi" "a|b|c" t1 false ]
  /\ email_id_counter (step st0 cmd) = email_id_counter st0 + 1
  /\ users (step st0 cmd) = users st0
  /\ durable (step st0 cmd).
Proof.
  apply (send_delivers_or_refuses st0 t1 "mallory" "bob" "Hi" "a|b|c");
    try reflexivity.
  eexists. reflexivity.
Defined.




(** ** Requests that only read *)

Lemma handle_login_reads data st : (handle_login data st).2 = st.
Proof. unfold handle_login. py_cases; reflexivity. Qed.

Lemma handle_inbox_reads data st : (handle_inbox data st).2 = st.
Proof. unfold handle_inbox. py_cases; reflexivity. Qed.

Lemma handle_sent_reads data st : (handle_sent data st).2 = st.
Proof. unfold handle_sent. py_cases; reflexivity. Qed.

Lemma handle_export_reads data st : (handle_export data st).2 = st.
Proof. unfold handle_export. py_cases; reflexivity. Qed.

Lemma handle_status_reads data st : (handle_status data st).2 = st.
Proof. unfold handle_status. py_cases; reflexivity. Qed.

(** X5. A command whose first field is LOGIN, INBOX, SENT, EXPORT or
    STATUS, and a command that is empty or has an unknown first field,
    leaves the server as it is, whatever the rest of the command is: in
    particular EXPORT by the recipient does not mark the message read. *)
Theorem queries_leave_server_unchanged st now data verb rest :
  split pipe data = verb :: rest ->
  ~ In verb [ "REGISTER"; "SEND"; "READ"; "DELETE"; "FORWARD" ] ->
  step st (now, data) = st.
Proof.
  intros Hsplit Hverb. unfold step, process_command. cbn [fst snd].
  destruct (negb (truthy data)); [reflexivity|].
  rewrite Hsplit. unfold index0, bind, ret, handlers.
  repeat match goal with
  | |- context [String.eqb verb ?v] =>
      destruct (String.eqb_spec verb v) as [-> | _]
  end;
    try (exfalso; apply Hverb; cbn; tauto);
    auto using handle_login_reads, handle_inbox_reads, handle_sent_reads,
      handle_export_reads, handle_status_reads.
Qed.

(** The statement of X5 at bob's EXPORT of the unread message he got. *)
Lemma queries_leave_server_unchanged_witness :
  step st0 (t1, "EXPORT|bob|1") = st0.
Proof.
  apply (queries_leave_server_unchanged st0 t1 "EXPORT|bob|1" "EXPORT"
           [ "bob"; "1" ]).
  - reflexivity.
  - cbn. intros H. repeat (destruct H as [H | H]; [discriminate H|]). exact H.
Defined.

Lemma process_export now u i st :
  contains pipe u = false ->
  process_command now (ClientViews.export_text u i) st
  = match find_email i (emails st) with
    | None => (inr "ERROR|Email not found", st)
    | Some e =>
        if no_access e u then (inr "ERROR|Access denied", st)
        else (inr ("OK|Email exported to "
                   +:+ ("email_" +:+ py_str i +:+ "_" +:+ u +:+ ".txt")
                   +:+ "|" +:+ export_content e), st)
    end.
Proof.
  intros Hu. unfold ClientViews.export_text.
  change ("EXPORT|" +:+ u +:+ "|" +:+ py_str i)
    with ("EXPORT" +:+ "|" +:+ u +:+ "|" +:+ py_str i).
  rewrite (process_command_dispatch now "EXPORT" _ handle_export)
    by reflexivity.
  unfold handle_export.
  rewrite (split3 "EXPORT" u (py_str i)) by auto using py_str_no_pipe.
  py_unfold. rewrite py_int_py_str.
  destruct (find_email i (emails st)) as [e|]; [|reflexivity].
  destruct (no_access e u); reflexivity.
Qed.

(** X6. A user who is neither the sender nor the recipient of a stored
    message, and whose name has no [|], is refused by DELETE, by FORWARD
    to any recipient and by EXPORT with [ERROR|Access denied], and the
    server is unchanged. *)
Theorem third_party_is_refused st now u m r :
  reachable st -> In m (emails st) -> contains pipe u = false ->
  contains pipe r = false -> u <> e_from m -> u <> e_to m ->
  process_command now (delete_text u (e_id m)) st
  = (inr "ERROR|Access denied", st)
  /\ process_command now (forward_text u (e_id m) r) st
     = (inr "ERROR|Access denied", st)
  /\ process_command now (ClientViews.export_text u (e_id m)) st
     = (inr "ERROR|Access denied", st).
Proof.
  intros Hst Hin Hu Hr Hfrom Hto.
  destruct (reachable_inv _ Hst) as [[Hids _] _].
  assert (Hf := find_email_stored _ _ _ _ Hids Hin).
  assert (Hacc := MailStore.no_access_third _ _ Hto Hfrom).
  rewrite (process_delete _ _ _ _ Hu), (process_forward _ _ _ _ _ Hu Hr),
    (process_export _ _ _ _ Hu), Hf, Hacc.
  repeat split; reflexivity.
Qed.

(** The statement of X6 at [mallory] and the message alice sent bob. *)
Lemma third_party_is_refused_witness :
  process_command t1 (delete_text "mallory" (e_id hi)) st0
  = (inr "ERROR|Access denied", st0)
  /\ process_command t1 (forward_text "mallory" (e_id hi) "alice") st0
     = (inr "ERROR|Access denied", st0)
  /\ process_command t1 (ClientViews.export_text "mallory" (e_id hi)) st0
     = (inr "ERROR|Access denied", st0).
Proof.
  apply (third_party_is_refused st0 t1 "mallory" hi "alice").
  - exact MailStore.st0_reachable.
  - left. reflexivity.
  - reflexivity.
  - reflexivity.
  - discriminate.
  - discriminate.
Defined.

(** Evaluates a three-field command up to the [int()] of its last
    field. *)
Ltac eval_text3 verb h Hu Hs :=
  unfold text3;
  rewrite (process_command_dispatch _ verb _ h) by reflexivity;
  unfold h; rewrite (split3 verb _ _ eq_refl Hu Hs); py_unfold.

(** X7. The id field of READ, DELETE, EXPORT and FORWARD is read by
    [int()]: any text without [|], of at most 4300 characters, that
    [int()] accepts as [i], such as the digits with spaces around them, a
    [+] before them or single underscores between them, gives the same
    response and the same server as the plain decimal text of [i]. *)
Theorem id_field_is_parsed_by_int st now u s i r :
  contains pipe u = false -> contains pipe s = false ->
  contains pipe r = false -> (String.length s <= 4300)%nat ->
  py_int s = inr i ->
  process_command now (text3 "READ" u s) st
  = process_command now (read_text u i) st
  /\ process_command now (text3 "DELETE" u s) st
     = process_command now (delete_text u i) st
  /\ process_command now (text3 "EXPORT" u s) st
     = process_command now (ClientViews.export_text u i) st
  /\ process_command now (text4 "FORWARD" u s r) st
     = process_command now (forward_text u i r) st.
Proof.
  intros Hu Hs Hr _ Hi.
  assert (Hp := py_str_no_pipe i). assert (Hpi := py_int_py_str i).
  change (read_text u i) with (text3 "READ" u (py_str i)).
  change (delete_text u i) with (text3 "DELETE" u (py_str i)).
  change (ClientViews.export_text u i) with (text3 "EXPORT" u (py_str i)).
  change (forward_text u i r) with (text4 "FORWARD" u (py_str i) r).
  repeat split.
  - eval_text3 "READ" handle_read Hu Hs. rewrite Hi.
    eval_text3 "READ" handle_read Hu Hp. rewrite Hpi. reflexivity.
  - eval_text3 "DELETE" handle_delete Hu Hs. rewrite Hi.
    eval_text3 "DELETE" handle_delete Hu Hp. rewrite Hpi. reflexivity.
  - eval_text3 "EXPORT" handle_export Hu Hs. rewrite Hi.
    eval_text3 "EXPORT" handle_export Hu Hp. rewrite Hpi. reflexivity.
  - unfold text4.
    rewrite !(process_command_dispatch _ "FORWARD" _ (handle_forward now))
      by reflexivity.
    unfold handle_forward.
    rewrite (split4 "FORWARD" u s r), (split4 "FORWARD" u (py_str i) r)
      by auto.
    py_unfold. rewrite Hi, Hpi. reflexivity.
Qed.

(** The statement of X7 at the id text [ +0_1 ] with spaces around it. *)
Lemma id_field_is_parsed_by_int_witness :
  process_command t1 (text3 "READ" "bob" " +0_1 ") st0
  = process_command t1 (read_text "bob" 1) st0
  /\ process_command t1 (text3 "DELETE" "bob" " +0_1 ") st0
     = process_command t1 (delete_text "bob" 1) st0
  /\ process_command t1 (text3 "EXPORT" "bob" " +0_1 ") st0
     = process_command t1 (ClientViews.export_text "bob" 1) st0
  /\ process_command t1 (text4 "FORWARD" "bob" " +0_1 " "alice") st0
     = process_command t1 (forward_text "bob" 1 "alice") st0.
Proof.
  apply (id_field_is_parsed_by_int st0 t1 "bob" " +0_1 " 1 "alice");
    try reflexivity.
  vm_compute. lia.
Defined.

(** ** Accounts are permanent *)

Lemma transition_users_saved st st' :
  users_saved st -> transition st st' -> users_saved st'.
Proof.
  intros H Htr. destruct Htr; try reflexivity; exact H.
Qed.

Lemma transition_users st st' :
  transition st st' -> users st ⊆ users st'.
Proof.
  intros Htr. destruct Htr; try reflexivity.
  cbn. by apply insert_subseteq.
Qed.

Lemma restart_users st :
  users_saved st -> users (restart st) = users st /\ users_saved (restart st).
Proof.
  unfold users_saved, restart, load_server_data. cbn.
  destruct (server_db_json st) as [d|]; cbn; intros H; rewrite H;
    split; reflexivity.
Qed.

Lemma run_events_users evs : forall st,
  users_saved st ->
  users st ⊆ users (run_events st evs) /\ users_saved (run_events st evs).
Proof.
  induction evs as [|ev evs IH]; intros st H; [split; [reflexivity | exact H]|].
  cbn. destruct ev as [r|]; cbn.
  - assert (Htr := step_transition st r).
    destruct (IH _ (transition_users_saved _ _ H Htr)) as [Hsub Hsaved].
    split; [|exact Hsaved].
    etransitivity; [exact (transition_users _ _ Htr) | exact Hsub].
  - destruct (restart_users _ H) as [Heq Hsaved].
    destruct (IH _ Hsaved) as [Hsub Hsaved']. split; [|exact Hsaved'].
    rewrite <- Heq. exact Hsub.
Qed.

(** X8. Accounts are permanent: a name registered in a reachable state
    is still registered, with the same password, after any further
    requests and restarts. *)
Theorem accounts_are_permanent st evs u p :
  reachable st -> users st !! u = Some p ->
  users (run_events st evs) !! u = Some p.
Proof.
  intros [evs0 ->] Hu.
  assert (Hsaved : users_saved (run_events init evs0)).
  { apply run_events_users. reflexivity. }
  destruct (run_events_users evs _ Hsaved) as [Hsub _].
  exact (lookup_weaken _ _ _ _ Hu Hsub).
Qed.

(** The statement of X8 at bob's account, a REGISTER that tries to take
    his name, and a restart. *)
Lemma accounts_are_permanent_witness :
  users (run_events st0 [ Request (t1, "REGISTER|bob|stolen"); Restart ])
  !! "bob" = Some "pw2".
Proof.
  apply (accounts_are_permanent st0 _ "bob" "pw2").
  - exact MailStore.st0_reachable.
  - reflexivity.
Defined.

(** ** Messages are not edited *)

Lemma In_set_read i l x :
  In x (set_read i l) -> In x l \/ exists y, In y l /\ x = mark_read y.
Proof.
  induction l as [|a t IH]; simpl; [tauto|].
  destruct (e_id a =? i); simpl.
  - intros [<- | H]; [right; exists a; auto | auto].
  - intros [<- | H]; [auto|].
    destruct (IH H) as [H' | (y & Hy & ->)]; [auto|]. right. exists y. auto.
Qed.

Lemma In_list_remove e l x : In x (list_remove e l) -> In x l.
Proof.
  induction l as [|a t IH]; simpl; [tauto|].
  destruct (decide (a = e)); simpl; [auto|]. intros [<- | H]; auto.
Qed.

Lemma mark_read_read m : e_read m = true -> mark_read m = m.
Proof. destruct m. cbn. intros ->. reflexivity. Qed.

Lemma mark_read_idem m : mark_read (mark_read m) = mark_read m.
Proof. reflexivity. Qed.

Lemma transition_same_message m st st' :
  same_message m st -> transition st st' -> same_message m st'.
Proof.
  intros [Hle Hsame] Htr.
  assert (Hnew : forall mk,
    (forall k, e_id (mk k) = k) -> same_message m (with_new mk st)).
  { intros mk Hid. split; [cbn; lia|]. cbn. intros x Hx Hxid.
    apply in_app_or in Hx as [Hx | [<- | []]]; [auto|].
    rewrite Hid in Hxid. lia. }
  destruct Htr.
  - split; assumption.
  - split; assumption.
  - apply (Hnew (fun i => mkEmail i sender recipient subject body now false)).
    reflexivity.
  - split; [exact Hle|]. cbn. intros x Hx Hxid.
    apply In_set_read in Hx as [Hx | (y & Hy & ->)]; [auto|].
    destruct (Hsame y Hy Hxid) as [-> | ->]; auto.
  - split; [exact Hle|]. cbn. intros x Hx Hxid.
    apply In_list_remove in Hx. auto.
  - apply (Hnew (fun i => forwarded_email i username new_recipient now e)).
    reflexivity.
Qed.

Lemma run_same_message m rs : forall st,
  same_message m st -> same_message m (run st rs).
Proof.
  induction rs as [|r rs IH]; intros st H; [exact H|].
  cbn. apply IH.
  exact (transition_same_message _ _ _ H (step_transition st r)).
Qed.

(** X9. Stored messages are not edited: whatever requests a server
    processes, a message found later under the id of a message [m] stored
    in a reachable state is [m] itself or [m] marked read, and it is [m]
    itself when [m] was read already. *)
Theorem messages_change_only_by_read_flag st rs m x :
  reachable st -> In m (emails st) ->
  In x (emails (run st rs)) -> e_id x = e_id m ->
  (x = m \/ x = mark_read m) /\ (e_read m = true -> x = m).
Proof.
  intros Hst Hin Hx Hxid.
  destruct (reachable_inv _ Hst) as [[Hids _] _].
  assert (H0 : same_message m st).
  { split; [apply (ids_between_In _ _ _ _ Hids Hin)|].
    intros y Hy Hyid. left.
    assert (Hfy := find_email_stored _ _ _ _ Hids Hy).
    assert (Hfm := find_email_stored _ _ _ _ Hids Hin).
    rewrite Hyid in Hfy. congruence. }
  destruct (run_same_message m rs st H0) as [_ Hsame]. destruct (Hsame x Hx Hxid) as [-> | ->].
  - split; [auto | reflexivity].
  - split; [auto|]. intros Hr. apply mark_read_read, Hr.
Qed.

(** The statement of X9 at the message alice sent, after bob has read
    it and forwarded it. *)
Lemma messages_change_only_by_read_flag_witness :
  (mark_read hi = hi \/ mark_read hi = mark_read hi)
  /\ (e_read hi = true -> mark_read hi = hi).
Proof.
  apply (messages_change_only_by_read_flag st0
           [ (t1, "READ|bob|1"); (t1, "FORWARD|bob|1|alice") ] hi
           (mark_read hi)).
  - exact MailStore.st0_reachable.
  - left. reflexivity.
  - left. reflexivity.
  - reflexivity.
Defined.

(** ** Recipients are registered *)

Lemma addressed_weaken (u u' : gmap string string) l :
  u ⊆ u' -> addressed u l -> addressed u' l.
Proof.
  intros Hsub H. unfold addressed in *.
  eapply List.Forall_impl; [|exact H]. intros e [p Hp].
  exists p. exact (lookup_weaken _ _ _ _ Hp Hsub).
Qed.

Lemma transition_recipients st st' :
  recipients_registered st -> transition st st' -> recipients_registered st'.
Proof.
  intros [Hmem Hdb] Htr.
  assert (Hsaved : forall st1,
    addressed (users st1) (emails st1) -> recipients_registered (saved st1)).
  { intros st1 H. split; [exact H|]. intros d [= <-]. exact H. }
  destruct Htr.
  - split; assumption.
  - apply Hsaved. cbn. apply (addressed_weaken (users st)); [|exact Hmem].
    by apply insert_subseteq.
  - apply Hsaved. cbn. apply Forall_app_2; [exact Hmem|].
    repeat constructor. cbn. by apply has_user_true.
  - apply Hsaved. cbn. apply Forall_set_read; [|exact Hmem]. auto.
  - apply Hsaved. cbn. apply Forall_list_remove. exact Hmem.
  - split; [|exact Hdb]. cbn. apply Forall_app_2; [exact Hmem|].
    repeat constructor. cbn. by apply has_user_true.
Qed.

Lemma restart_recipients st :
  recipients_registered st -> recipients_registered (restart st).
Proof.
  intros [Hmem Hdb]. unfold restart, load_server_data. cbn.
  destruct (server_db_json st) as [d|] eqn:E; cbn.
  - split; [by apply Hdb|]. intros d' [= <-]. by apply Hdb.
  - split; [constructor | discriminate].
Qed.

(** X10. In every reachable state, restarts included, every stored
    message is addressed to a registered user. *)
Theorem recipients_are_registered st m :
  reachable st -> In m (emails st) -> is_Some (users st !! e_to m).
Proof.
  intros [evs ->] Hin.
  assert (H : recipients_registered (run_events init evs)).
  { assert (H0 : recipients_registered init)
      by (split; [constructor | discriminate]).
    clear Hin. revert H0. generalize init.
    induction evs as [|ev evs IH]; intros st H0; [exact H0|].
    cbn. apply IH. destruct ev as [r|]; cbn.
    - exact (transition_recipients _ _ H0 (step_transition st r)).
    - by apply restart_recipients. }
  destruct H as [Hmem _]. unfold addressed in Hmem.
  rewrite List.Forall_forall in Hmem. by apply Hmem.
Qed.

(** The statement of X10 at the message alice sent bob. *)
Lemma recipients_are_registered_witness :
  is_Some (users st0 !! e_to hi).
Proof.
  apply (recipients_are_registered st0 hi).
  - exact MailStore.st0_reachable.
  - left. reflexivity.
Defined.

(** ** What a restart keeps *)

Lemma handler_keeps_durable now verb h data st :
  handlers now verb = Some h -> verb <> "FORWARD" ->
  durable st -> durable (h data st).2.
Proof.
  unfold handlers. intros Hh Hverb Hd. apply String.eqb_neq in Hverb.
  repeat case_match; simplify_eq; try congruence;
    [ unfold handle_register | unfold handle_login | unfold handle_send
    | unfold handle_inbox | unfold handle_sent | unfold handle_read
    | unfold handle_delete | unfold handle_export | unfold handle_status ];
    py_cases; try exact Hd; reflexivity.
Qed.

Lemma handle_forward_durable_or_ok now data st :
  durable st ->
  durable (handle_forward now data st).2
  \/ exists r, (handle_forward now data st).1
               = inr ("OK|Email forwarded to " +:+ r).
Proof.
  intros Hd. unfold handle_forward. py_cases; eauto.
Qed.

(** X11. Only FORWARD lets the file fall behind: when the file holds the
    store, it still does after any command, unless the command was
    answered [OK|Email forwarded to ...]; and a restart from a state
    whose file holds the store brings back the same users, messages and
    counter. *)
Theorem only_forward_leaves_file_behind st now data :
  durable st ->
  (durable (step st (now, data))
   \/ exists r, respond st (now, data)
                = inr ("OK|Email forwarded to " +:+ r))
  /\ users (restart st) = users st
  /\ emails (restart st) = emails st
  /\ email_id_counter (restart st) = email_id_counter st.
Proof.
  intros Hd. split.
  - unfold step, respond, process_command. cbn [fst snd].
    destruct (negb (truthy data)); [left; exact Hd|].
    unfold index0, bind, ret.
    destruct (split pipe data) as [|verb l]; [left; exact Hd|].
    destruct (handlers now verb) as [h|] eqn:Hh; [|left; exact Hd].
    destruct (String.eqb_spec verb "FORWARD") as [-> | Hne].
    + injection Hh as <-. by apply handle_forward_durable_or_ok.
    + left. exact (handler_keeps_durable _ _ _ data st Hh Hne Hd).
  - unfold restart, load_server_data. cbn. rewrite Hd. cbn.
    repeat split; reflexivity.
Qed.

(** The statement of X11 at bob's READ of the message he got. *)
Lemma only_forward_leaves_file_behind_witness :
  (durable (step st0 (t1, "READ|bob|1"))
   \/ exists r, respond st0 (t1, "READ|bob|1")
                = inr ("OK|Email forwarded to " +:+ r))
  /\ users (restart st0) = users st0
  /\ emails (restart st0) = emails st0
  /\ email_id_counter (restart st0) = email_id_counter st0.
Proof.
  apply (only_forward_leaves_file_behind st0 t1 "READ|bob|1"). reflexivity.
Defined.

End StoreExtras.

(* ================================================================== *)
(** * Listings, views and exports between server and client *)
(* ================================================================== *)

Module ListingExtras.
Import PyStr PyInt PyStrFacts PyIntFacts Server ServerFacts Scenario.
Import Client ClientViews ClientFacts Invariants.

Lemma rstrip_char_keep c t : forall s,
  contains c t = false -> t <> "" -> rstrip_char c (s +:+ t) = s +:+ t.
Proof.
  intros s Ht Hne. induction s as [|a s IH].
  - apply rstrip_char_nosep, Ht.
  - rewrite app_cons. cbn [rstrip_char]. rewrite IH.
    destruct (s +:+ t) eqn:E; [|reflexivity].
    destruct s; [|discriminate]. change ("" +:+ t) with t in E. congruence.
Qed.

Lemma join_cons2 sep x y l :
  join sep (x :: y :: l) = x +:+ sep +:+ join sep (y :: l).
Proof. reflexivity. Qed.

(** A nonempty join ends as its last element ends. *)
Lemma join_tail c l :
  l <> [] ->
  Forall (fun x => exists s t, x = s +:+ t /\ contains c t = false /\ t <> "") l ->
  exists s t, join (String c "") l = s +:+ t
              /\ contains c t = false /\ t <> "".
Proof.
  induction l as [|x [|y l] IH]; intros Hne Hall; [congruence|..].
  - inversion Hall; subst. assumption.
  - inversion Hall as [|? ? _ Hrest]; subst.
    destruct (IH ltac:(discriminate) Hrest) as (s & t & E & Ht & Hn).
    exists (x +:+ String c "" +:+ s), t. split; [|auto].
    rewrite join_cons2, E, !app_assoc. reflexivity.
Qed.

Lemma split_join sep l :
  l <> [] -> Forall (fun x => contains sep x = false) l ->
  split sep (join (String sep "") l) = l.
Proof.
  induction l as [|x [|y l] IH]; intros Hne Hall; [congruence|..].
  - inversion Hall; subst. by apply split_last.
  - inversion Hall as [|? ? Hx Hrest]; subst. rewrite join_cons2.
    change (x +:+ String sep "" +:+ join (String sep "") (y :: l))
      with (x +:+ String sep (join (String sep "") (y :: l))).
    rewrite (split_field _ _ _ Hx), IH; [reflexivity | discriminate | exact Hrest].
Qed.

(** What the loop of a listing handler builds. *)
Lemma add_items_join (f : email -> string) : forall l e r,
  add_items (fun x => f x +:+ ";") (e :: l) r
  = r +:+ join ";" (map f (e :: l)) +:+ ";".
Proof.
  unfold add_items. induction l as [|e' l IH]; intros e r; [reflexivity|].
  change (fold_left (fun r0 x => r0 +:+ f x +:+ ";") (e :: e' :: l) r)
    with (fold_left (fun r0 x => r0 +:+ f x +:+ ";") (e' :: l)
            (r +:+ f e +:+ ";")).
  rewrite IH. change (map f (e :: e' :: l)) with (f e :: map f (e' :: l)).
  change (map f (e' :: l)) with (f e' :: map f l).
  rewrite join_cons2, !app_assoc. reflexivity.
Qed.

(** The text of a listing response for the nonempty list [e :: l]. *)
Lemma listing_response (f : email -> string) e l prefix :
  Forall (fun x => exists s t, x = s +:+ t /\ contains semi t = false /\ t <> "")
    (map f (e :: l)) ->
  rstrip_char semi (add_items (fun x => f x +:+ ";") (e :: l) prefix)
  = prefix +:+ join ";" (map f (e :: l)).
Proof.
  intros Hall. rewrite add_items_join.
  rewrite <- (app_assoc prefix). change ";" with (String semi "") at 2.
  rewrite rstrip_char_snoc.
  destruct (join_tail semi (map f (e :: l)) ltac:(discriminate) Hall)
    as (s & t & E & Ht & Hn).
  change ";" with (String semi ""). rewrite E, <- app_assoc.
  by apply rstrip_char_keep.
Qed.

Lemma omap_map_Some {A B} (g : string -> option B) (f : A -> string)
    (h : A -> B) l :
  Forall (fun x => g (f x) = Some (h x)) l ->
  omap g (map f l) = map h l.
Proof.
  induction 1 as [|x l Hx _ IH]; [reflexivity|].
  cbn [map omap list_omap]. rewrite Hx. cbn. f_equal. exact IH.
Qed.

Lemma split2 verb a :
  contains pipe verb = false -> contains pipe a = false ->
  split pipe (verb +:+ "|" +:+ a) = [ verb; a ].
Proof.
  intros Hv Ha. change ("|" +:+ a) with (String pipe a).
  rewrite (split_field _ _ _ Hv), (split_last _ _ Ha). reflexivity.
Qed.

Lemma process_inbox now u st :
  contains pipe u = false ->
  process_command now (inbox_text u) st
  = (inr match List.filter (fun e => String.eqb (e_to e) u) (emails st) with
         | [] => "EMPTY|No emails in inbox"
         | inbox =>
             rstrip_char semi
               (add_items inbox_item inbox
                  ("OK|" +:+ py_str (len inbox) +:+ "|"))
         end, st).
Proof.
  intros Hu. unfold inbox_text.
  change ("INBOX|" +:+ u) with ("INBOX" +:+ "|" +:+ u).
  rewrite (process_command_dispatch now "INBOX" _ handle_inbox) by reflexivity.
  unfold handle_inbox. rewrite (split2 "INBOX" u) by auto. py_unfold.
  destruct (List.filter _ (emails st)); reflexivity.
Qed.

Lemma process_sent now u st :
  contains pipe u = false ->
  process_command now (sent_text u) st
  = (inr match List.filter (fun e => String.eqb (e_from e) u) (emails st) with
         | [] => "EMPTY|No sent emails"
         | sent =>
             rstrip_char semi
               (add_items sent_item sent
                  ("OK|" +:+ py_str (len sent) +:+ "|"))
         end, st).
Proof.
  intros Hu. unfold sent_text.
  change ("SENT|" +:+ u) with ("SENT" +:+ "|" +:+ u).
  rewrite (process_command_dispatch now "SENT" _ handle_sent) by reflexivity.
  unfold handle_sent. rewrite (split2 "SENT" u) by auto. py_unfold.
  destruct (List.filter _ (emails st)); reflexivity.
Qed.

Lemma inbox_entry_plain e :
  plain (e_from e) -> plain (e_subject e) -> plain (e_timestamp e) ->
  contains semi (inbox_entry_text e) = false
  /\ inbox_of_piece (inbox_entry_text e) = Some (inbox_summary_of e)
  /\ exists s t, inbox_entry_text e = s +:+ t
                 /\ contains semi t = false /\ t <> "".
Proof.
  intros [Hf Hf'] [Hs Hs'] [Ht Ht']. split; [|split].
  - unfold inbox_entry_text.
    rewrite !contains_app, py_str_no_semi, Hf', Hs', Ht'.
    destruct (e_read e); reflexivity.
  - unfold inbox_of_piece. rewrite (inbox_entry_fields e Hf Hs Ht).
    assert (truthy (strip (inbox_entry_text e)) = true) as ->.
    { unfold inbox_entry_text.
      destruct (py_str_head (e_id e)) as (a & s & -> & Ha).
      rewrite app_cons. apply strip_truthy, Ha. }
    unfold inbox_summary_of. destruct (e_read e); reflexivity.
  - exists (py_str (e_id e) +:+ "~" +:+ e_from e +:+ "~" +:+ e_subject e
            +:+ "~" +:+ e_timestamp e +:+ "~"),
      (if e_read e then "READ" else "UNREAD").
    split; [|destruct (e_read e); split; [reflexivity | discriminate
                                          | reflexivity | discriminate]].
    unfold inbox_entry_text. rewrite !app_assoc. reflexivity.
Qed.

Lemma sent_entry_plain e :
  plain (e_to e) -> plain (e_subject e) -> plain (e_timestamp e) ->
  contains semi (sent_entry_text e) = false
  /\ sent_of_piece (sent_entry_text e) = Some (sent_summary_of e)
  /\ exists s t, sent_entry_text e = s +:+ t
                 /\ contains semi t = false /\ t <> "".
Proof.
  intros [Hf Hf'] [Hs Hs'] [Ht Ht']. split; [|split].
  - unfold sent_entry_text.
    rewrite !contains_app, py_str_no_semi, Hf', Hs', Ht'. reflexivity.
  - unfold sent_of_piece.
    assert (truthy (strip (sent_entry_text e)) = true) as ->.
    { unfold sent_entry_text.
      destruct (py_str_head (e_id e)) as (a & s & -> & Ha).
      rewrite app_cons. apply strip_truthy, Ha. }
    unfold sent_entry_text.
    change (py_str (e_id e) +:+ "~" +:+ e_to e +:+ "~" +:+ e_subject e
            +:+ "~" +:+ e_timestamp e)
      with (py_str (e_id e) +:+ String tilde (e_to e +:+ String tilde
              (e_subject e +:+ String tilde (e_timestamp e)))).
    rewrite (split_field _ _ _ (py_str_no_tilde _)), (split_field _ _ _ Hf),
      (split_field _ _ _ Hs), (split_last _ _ Ht).
    reflexivity.
  - exists (py_str (e_id e) +:+ "~" +:+ e_to e +:+ "~" +:+ e_subject e),
      ("~" +:+ e_timestamp e).
    split; [|split; [|discriminate]].
    + unfold sent_entry_text. rewrite !app_assoc. reflexivity.
    + change ("~" +:+ e_timestamp e) with (String tilde (e_timestamp e)).
      cbn [contains]. rewrite Ht'. reflexivity.
Qed.

(** X12. The INBOX response is read back by [sync_inbox] as the
    summaries of the messages addressed to the user, in the order of the
    store, and the cached inbox becomes that list, when the user name has
    no [|] and sender, subject and time of these messages have neither
    [~] nor [;]. With no such message the response is EMPTY and the list
    is empty. *)
Theorem inbox_listing_round_trip st now now' u c :
  contains pipe u = false ->
  (forall e, In e (emails st) -> e_to e = u ->
     plain (e_from e) /\ plain (e_subject e) /\ plain (e_timestamp e)) ->
  exists response,
    process_command now (inbox_text u) st = (inr response, st)
    /\ sync_inbox now' response c
       = (map inbox_summary_of
            (List.filter (fun e => String.eqb (e_to e) u) (emails st)),
          mkCache
            (map inbox_summary_of
               (List.filter (fun e => String.eqb (e_to e) u) (emails st)))
            (sent c) (Some now')).
Proof.
  intros Hu Hplain. rewrite (process_inbox _ _ _ Hu).
  assert (Hall : Forall (fun e => plain (e_from e) /\ plain (e_subject e)
                                  /\ plain (e_timestamp e))
                   (List.filter (fun e => String.eqb (e_to e) u) (emails st))).
  { apply List.Forall_forall. intros e He. apply filter_In in He as [Hin Hto].
    apply String.eqb_eq in Hto. auto. }
  destruct (List.filter _ (emails st)) as [|e l]; eexists; (split; [reflexivity|]).
  - reflexivity.
  - set (msgs := e :: l) in *.
    assert (Hentries : Forall (fun e => contains semi (inbox_entry_text e) = false
                         /\ inbox_of_piece (inbox_entry_text e)
                            = Some (inbox_summary_of e)
                         /\ exists s t, inbox_entry_text e = s +:+ t
                              /\ contains semi t = false /\ t <> "") msgs).
    { eapply List.Forall_impl; [|exact Hall].
      intros x (H1 & H2 & H3). by apply inbox_entry_plain. }
    change inbox_item with (fun x => inbox_entry_text x +:+ ";").
    unfold msgs at 1. rewrite listing_response.
    2:{ apply List.Forall_map. eapply List.Forall_impl; [|exact Hentries].
        intros x (_ & _ & H). exact H. }
    fold msgs. unfold sync_inbox. rewrite !app_assoc.
    set (listing := join ";" (map inbox_entry_text msgs)).
    assert (startswith "EMPTY" ("OK|" +:+ py_str (len msgs) +:+ "|" +:+ listing)
            = false) as -> by reflexivity.
    assert (startswith "OK" ("OK|" +:+ py_str (len msgs) +:+ "|" +:+ listing)
            = true) as -> by reflexivity.
    change ("OK|" +:+ py_str (len msgs) +:+ "|" +:+ listing)
      with ("OK" +:+ "|" +:+ py_str (len msgs) +:+ "|" +:+ listing).
    rewrite splitn2_three by auto using py_str_no_pipe.
    cbn [negb]. unfold parse_listing, listing.
    change ";" with (String semi "").
    rewrite split_join.
    + rewrite (omap_map_Some inbox_of_piece inbox_entry_text inbox_summary_of).
      * reflexivity.
      * eapply List.Forall_impl; [|exact Hentries]. intros x (_ & H & _). exact H.
    + discriminate.
    + apply List.Forall_map. eapply List.Forall_impl; [|exact Hentries].
      intros x (H & _). exact H.
Qed.

(** The statement of X12 at bob's inbox. *)
Lemma inbox_listing_round_trip_witness :
  exists response,
    process_command t1 (inbox_text "bob") st0 = (inr response, st0)
    /\ sync_inbox t1 response stale
       = (map inbox_summary_of
            (List.filter (fun e => String.eqb (e_to e) "bob") (emails st0)),
          mkCache
            (map inbox_summary_of
               (List.filter (fun e => String.eqb (e_to e) "bob") (emails st0)))
            (sent stale) (Some t1)).
Proof.
  apply (inbox_listing_round_trip st0 t1 t1 "bob" stale).
  - reflexivity.
  - intros e [<- | []] _. repeat split; reflexivity.
Defined.

(** X13. The SENT response is read back by [sync_sent] as the summaries
    of the messages the user sent, in the order of the store, and the
    cached sent list becomes that list, when the user name has no [|] and
    recipient, subject and time of these messages have neither [~] nor
    [;]. With no such message the response is EMPTY and the list is
    empty. *)
Theorem sent_listing_round_trip st now u c :
  contains pipe u = false ->
  (forall e, In e (emails st) -> e_from e = u ->
     plain (e_to e) /\ plain (e_subject e) /\ plain (e_timestamp e)) ->
  exists response,
    process_command now (sent_text u) st = (inr response, st)
    /\ sync_sent response c
       = (map sent_summary_of
            (List.filter (fun e => String.eqb (e_from e) u) (emails st)),
          mkCache (inbox c)
            (map sent_summary_of
               (List.filter (fun e => String.eqb (e_from e) u) (emails st)))
            (last_sync c)).
Proof.
  intros Hu Hplain. rewrite (process_sent _ _ _ Hu).
  assert (Hall : Forall (fun e => plain (e_to e) /\ plain (e_subject e)
                                  /\ plain (e_timestamp e))
                   (List.filter (fun e => String.eqb (e_from e) u) (emails st))).
  { apply List.Forall_forall. intros e He. apply filter_In in He as [Hin Hfrom].
    apply String.eqb_eq in Hfrom. auto. }
  destruct (List.filter _ (emails st)) as [|e l]; eexists; (split; [reflexivity|]).
  - reflexivity.
  - set (msgs := e :: l) in *.
    assert (Hentries : Forall (fun e => contains semi (sent_entry_text e) = false
                         /\ sent_of_piece (sent_entry_text e)
                            = Some (sent_summary_of e)
                         /\ exists s t, sent_entry_text e = s +:+ t
                              /\ contains semi t = false /\ t <> "") msgs).
    { eapply List.Forall_impl; [|exact Hall].
      intros x (H1 & H2 & H3). by apply sent_entry_plain. }
    change sent_item with (fun x => sent_entry_text x +:+ ";").
    unfold msgs at 1. rewrite listing_response.
    2:{ apply List.Forall_map. eapply List.Forall_impl; [|exact Hentries].
        intros x (_ & _ & H). exact H. }
    fold msgs. unfold sync_sent. rewrite !app_assoc.
    set (listing := join ";" (map sent_entry_text msgs)).
    assert (startswith "EMPTY" ("OK|" +:+ py_str (len msgs) +:+ "|" +:+ listing)
            = false) as -> by reflexivity.
    assert (startswith "OK" ("OK|" +:+ py_str (len msgs) +:+ "|" +:+ listing)
            = true) as -> by reflexivity.
    change ("OK|" +:+ py_str (len msgs) +:+ "|" +:+ listing)
      with ("OK" +:+ "|" +:+ py_str (len msgs) +:+ "|" +:+ listing).
    rewrite splitn2_three by auto using py_str_no_pipe.
    cbn [negb]. unfold parse_listing, listing.
    change ";" with (String semi "").
    rewrite split_join.
    + rewrite (omap_map_Some sent_of_piece sent_entry_text sent_summary_of).
      * reflexivity.
      * eapply List.Forall_impl; [|exact Hentries]. intros x (_ & H & _). exact H.
    + discriminate.
    + apply List.Forall_map. eapply List.Forall_impl; [|exact Hentries].
      intros x (H & _). exact H.
Qed.

(** The statement of X13 at the messages alice sent. *)
Lemma sent_listing_round_trip_witness :
  exists response,
    process_command t1 (sent_text "alice") st0 = (inr response, st0)
    /\ sync_sent response stale
       = (map sent_summary_of
            (List.filter (fun e => String.eqb (e_from e) "alice") (emails st0)),
          mkCache (inbox stale)
            (map sent_summary_of
               (List.filter (fun e => String.eqb (e_from e) "alice")
                  (emails st0)))
            (last_sync stale)).
Proof.
  apply (sent_listing_round_trip st0 t1 "alice" stale).
  - reflexivity.
  - intros e [<- | []] _. repeat split; reflexivity.
Defined.

(** ** The message view of [read_email] *)

Lemma splitn6_read a b c d e f rest :
  contains pipe a = false -> contains pipe b = false ->
  contains pipe c = false -> contains pipe d = false ->
  contains pipe e = false -> contains pipe f = false ->
  splitn pipe 6 (a +:+ "|" +:+ b +:+ "|" +:+ c +:+ "|" +:+ d +:+ "|" +:+ e
                 +:+ "|" +:+ f +:+ "|" +:+ rest)
  = [ a; b; c; d; e; f; rest ].
Proof.
  intros Ha Hb Hc Hd He Hf.
  change (a +:+ "|" +:+ b +:+ "|" +:+ c +:+ "|" +:+ d +:+ "|" +:+ e
          +:+ "|" +:+ f +:+ "|" +:+ rest)
    with (a +:+ String pipe (b +:+ String pipe (c +:+ String pipe
            (d +:+ String pipe (e +:+ String pipe (f +:+ String pipe rest)))))).
  rewrite (splitn_field _ _ _ _ Ha), (splitn_field _ _ _ _ Hb),
    (splitn_field _ _ _ _ Hc), (splitn_field _ _ _ _ Hd),
    (splitn_field _ _ _ _ He), (splitn_field _ _ _ _ Hf).
  destruct rest; reflexivity.
Qed.

(** X14. What [read_email] shows for the READ response of a stored
    message, read by its sender or recipient, when the subject has no
    [|]: with a body without [|] it shows the six fields of the message;
    with a body [b1|b2] it shows [b1] as the body and [b2|<time>] as the
    time. *)
Theorem read_view_round_trip st now u m :
  reachable st -> In m (emails st) -> u = e_from m \/ u = e_to m ->
  contains pipe (e_subject m) = false ->
  exists response,
    respond st (now, read_text u (e_id m)) = inr response
    /\ (contains pipe (e_body m) = false ->
        parse_read response
        = Some (mkView (py_str (e_id m)) (e_from m) (e_to m) (e_subject m)
                  (e_body m) (e_timestamp m)))
    /\ (forall b1 b2,
          e_body m = b1 +:+ "|" +:+ b2 -> contains pipe b1 = false ->
          parse_read response
          = Some (mkView (py_str (e_id m)) (e_from m) (e_to m) (e_subject m)
                    b1 (b2 +:+ "|" +:+ e_timestamp m))).
Proof.
  intros Hst Hin Hu Hsubj.
  destruct (reachable_inv _ Hst) as [[Hids [_ Hl]] _].
  rewrite List.Forall_forall in Hl. destruct (Hl _ Hin) as [Hfrom Hto].
  assert (Hpu : contains pipe u = false) by (destruct Hu as [-> | ->]; assumption).
  assert (Hacc : no_access m u = false).
  { destruct Hu as [-> | ->];
      [apply MailStore.no_access_sender | apply MailStore.no_access_recipient]. }
  exists (read_ok_text m). split.
  { unfold respond. cbn [fst snd].
    rewrite (process_read _ _ _ _ Hpu), (find_email_stored _ _ _ _ Hids Hin), Hacc.
    destruct (String.eqb (e_to m) u); reflexivity. }
  unfold parse_read.
  assert (startswith "OK" (read_ok_text m) = true) as -> by reflexivity.
  cbn [negb]. unfold read_ok_text.
  change ("OK|" +:+ py_str (e_id m) +:+ "|" +:+ e_from m +:+ "|" +:+ e_to m
          +:+ "|" +:+ e_subject m +:+ "|" +:+ e_body m +:+ "|" +:+ e_timestamp m)
    with ("OK" +:+ "|" +:+ py_str (e_id m) +:+ "|" +:+ e_from m +:+ "|"
          +:+ e_to m +:+ "|" +:+ e_subject m +:+ "|" +:+ e_body m +:+ "|"
          +:+ e_timestamp m).
  split.
  - intros Hbody. rewrite splitn6_read by auto using py_str_no_pipe.
    reflexivity.
  - intros b1 b2 -> Hb1. rewrite (app_assoc b1).
    change (("|" +:+ b2) +:+ "|" +:+ e_timestamp m)
      with ("|" +:+ b2 +:+ "|" +:+ e_timestamp m).
    rewrite splitn6_read by auto using py_str_no_pipe. reflexivity.
Qed.

(** The statement of X14 at bob reading the message alice sent him. *)
Lemma read_view_round_trip_witness :
  exists response,
    respond st0 (t1, read_text "bob" (e_id hi)) = inr response
    /\ (contains pipe (e_body hi) = false ->
        parse_read response
        = Some (mkView (py_str (e_id hi)) (e_from hi) (e_to hi) (e_subject hi)
                  (e_body hi) (e_timestamp hi)))
    /\ (forall b1 b2,
          e_body hi = b1 +:+ "|" +:+ b2 -> contains pipe b1 = false ->
          parse_read response
          = Some (mkView (py_str (e_id hi)) (e_from hi) (e_to hi) (e_subject hi)
                    b1 (b2 +:+ "|" +:+ e_timestamp hi))).
Proof.
  apply (read_view_round_trip st0 t1 "bob" hi).
  - exact MailStore.st0_reachable.
  - left. reflexivity.
  - right. reflexivity.
  - reflexivity.
Defined.

(** X15. EXPORT by the sender or the recipient of a stored message is
    read by [export_email] as the file name
    [Email exported to email_<id>_<user>.txt], the whole second field of
    the response, and as content the text the server rendered, complete,
    whatever [|] and line ends the message has. *)
Theorem export_round_trip st now u m :
  reachable st -> In m (emails st) -> u = e_from m \/ u = e_to m ->
  exists response,
    process_command now (export_text u (e_id m)) st = (inr response, st)
    /\ parse_export response
       = Some ("Email exported to email_" +:+ py_str (e_id m) +:+ "_" +:+ u
               +:+ ".txt",
               export_content m).
Proof.
  intros Hst Hin Hu.
  destruct (reachable_inv _ Hst) as [[Hids [_ Hl]] _].
  rewrite List.Forall_forall in Hl. destruct (Hl _ Hin) as [Hfrom Hto].
  assert (Hpu : contains pipe u = false) by (destruct Hu as [-> | ->]; assumption).
  assert (Hacc : no_access m u = false).
  { destruct Hu as [-> | ->];
      [apply MailStore.no_access_sender | apply MailStore.no_access_recipient]. }
  eexists. split.
  { rewrite (StoreExtras.process_export _ _ _ _ Hpu),
      (find_email_stored _ _ _ _ Hids Hin), Hacc. reflexivity. }
  unfold parse_export.
  set (name := "Email exported to email_" +:+ py_str (e_id m) +:+ "_" +:+ u
               +:+ ".txt").
  assert (Hname : contains pipe name = false).
  { unfold name. rewrite !contains_app, py_str_no_pipe, Hpu. reflexivity. }
  change ("OK|Email exported to "
          +:+ ("email_" +:+ py_str (e_id m) +:+ "_" +:+ u +:+ ".txt")
          +:+ "|" +:+ export_content m)
    with ("OK" +:+ "|" +:+ name +:+ "|" +:+ export_content m).
  assert (startswith "OK" ("OK" +:+ "|" +:+ name +:+ "|" +:+ export_content m)
          = true) as -> by reflexivity.
  rewrite splitn2_three by auto. reflexivity.
Qed.

(** The statement of X15 at bob's export of the message he got. *)
Lemma export_round_trip_witness :
  exists response,
    process_command t1 (export_text "bob" (e_id hi)) st0 = (inr response, st0)
    /\ parse_export response
       = Some ("Email exported to email_" +:+ py_str (e_id hi) +:+ "_" +:+ "bob"
               +:+ ".txt",
               export_content hi).
Proof.
  apply (export_round_trip st0 t1 "bob" hi).
  - exact MailStore.st0_reachable.
  - left. reflexivity.
  - right. reflexivity.
Defined.

End ListingExtras.


(* ================================================================== *)
(** * Further properties of the client *)
(* ================================================================== *)

Module ClientExtras.
Import PyStr PyInt PyStrFacts PyIntFacts Server ServerFacts Scenario.
Import Client ClientViews ClientFacts Invariants.

(** The fields [read_email] shows, the last one apart, have no [|]. *)
Lemma parse_read_fields response view :
  parse_read response = Some view ->
  contains pipe (v_from view) = false /\ contains pipe (v_subject view) = false.
Proof.
  unfold parse_read. destruct (negb (startswith "OK" response)); [discriminate|].
  assert (H := splitn_init_fields pipe response 6).
  destruct (splitn pipe 6 response)
    as [|p0 [|p1 [|p2 [|p3 [|p4 [|p5 [|p6 rest]]]]]]]; try discriminate.
  intros [= <-]. cbn [v_from v_subject].
  change (removelast (p0 :: p1 :: p2 :: p3 :: p4 :: p5 :: p6 :: rest))
    with (p0 :: p1 :: p2 :: p3 :: p4 :: removelast (p5 :: p6 :: rest)) in H.
  repeat (apply Forall_cons in H as [? H]). auto.
Qed.

(** X16. A reply built by [reply_email] from any message [read_email]
    showed reaches the server as a SEND whose fields are the user, the
    sender shown, [RE: ] and the subject shown, and the reply text
    followed by the quoted body, whatever [|] these two have: when the
    user name has no [|] and that sender is registered, exactly this
    message is appended. *)
Theorem reply_is_delivered_to_the_sender st now response view username body :
  parse_read response = Some view ->
  contains pipe username = false ->
  is_Some (users st !! v_from view) ->
  respond st (now, reply_text username view body)
  = inr ("OK|Email sent to " +:+ v_from view)
  /\ emails (step st (now, reply_text username view body))
     = emails st
       ++ [ mkEmail (email_id_counter st + 1) username (v_from view)
              ("RE: " +:+ v_subject view)
              (body +:+ String "010" "" +:+ String "010" ""
               +:+ "--- Original Message ---" +:+ String "010" ""
               +:+ v_body view)
              now false ].
Proof.
  intros Hview Hu Hreg.
  destruct (parse_read_fields _ _ Hview) as [Hfrom Hsubj].
  assert (Hre : contains pipe ("RE: " +:+ v_subject view) = false).
  { rewrite contains_app, Hsubj. reflexivity. }
  change (reply_text username view body)
    with (send_text username (v_from view) ("RE: " +:+ v_subject view)
            (body +:+ String "010" "" +:+ String "010" ""
             +:+ "--- Original Message ---" +:+ String "010" ""
             +:+ v_body view)).
  unfold respond, step. cbn [fst snd].
  rewrite (StoreExtras.process_send _ _ _ _ _ _ Hu Hfrom Hre).
  apply has_user_true in Hreg. rewrite Hreg. split; reflexivity.
Qed.

(** The statement of X16 at bob's reply to the message alice sent. *)
Lemma reply_is_delivered_to_the_sender_witness :
  let view := mkView "1" "alice" "bob" "Hi" "Hello" t0 in
  respond st0 (t1, reply_text "bob" view "Fine | thanks")
  = inr ("OK|Email sent to " +:+ v_from view)
  /\ emails (step st0 (t1, reply_text "bob" view "Fine | thanks"))
     = emails st0
       ++ [ mkEmail (email_id_counter st0 + 1) "bob" (v_from view)
              ("RE: " +:+ v_subject view)
              ("Fine | thanks" +:+ String "010" "" +:+ String "010" ""
               +:+ "--- Original Message ---" +:+ String "010" ""
               +:+ v_body view)
              t1 false ].
Proof.
  intros view.
  apply (reply_is_delivered_to_the_sender st0 t1
           (read_ok_text hi) view "bob" "Fine | thanks").
  - reflexivity.
  - reflexivity.
  - eexists. reflexivity.
Defined.

(** ** The cache *)

Lemma mark_cached_read_idem key l :
  mark_cached_read key (mark_cached_read key l) = mark_cached_read key l.
Proof.
  unfold mark_cached_read. rewrite map_map. apply map_ext. intros s.
  destruct (String.eqb (i_id s) key) eqn:E; cbn; rewrite E; reflexivity.
Qed.

(** X17. The read mark [read_email] puts on the cached inbox keeps the
    length of that list, the sent list and the time of the last sync, and
    putting it twice is putting it once. A following [sync_inbox] that gets an EMPTY
    response or an OK response with a listing gives the cache it would
    have given without the mark; on any response that starts with neither
    it returns the marked list. *)
Theorem local_read_mark_lasts_until_sync msg_id shown now response c :
  length (inbox (read_email_cache msg_id shown c)) = length (inbox c)
  /\ sent (read_email_cache msg_id shown c) = sent c
  /\ last_sync (read_email_cache msg_id shown c) = last_sync c
  /\ read_email_cache msg_id shown (read_email_cache msg_id shown c)
     = read_email_cache msg_id shown c
  /\ (forall a b data,
        startswith "EMPTY" response = true
        \/ (startswith "OK" response = true
            /\ response = a +:+ "|" +:+ b +:+ "|" +:+ data
            /\ contains pipe a = false /\ contains pipe b = false) ->
        sync_inbox now response (read_email_cache msg_id shown c)
        = sync_inbox now response c)
  /\ (startswith "EMPTY" response = false ->
      startswith "OK" response = false ->
      (sync_inbox now response (read_email_cache msg_id shown c)).1
      = inbox (read_email_cache msg_id shown c)).
Proof.
  unfold read_email_cache.
  destruct (parse_read shown) as [view|] eqn:Hshown; cbn [inbox sent last_sync].
  - split; [unfold mark_cached_read; apply length_map|].
    split; [reflexivity|]. split; [reflexivity|]. split.
    { rewrite mark_cached_read_idem. reflexivity. }
    split.
    + intros a b data [Hempty | (Hok & -> & Ha & Hb)]; unfold sync_inbox.
      * rewrite Hempty. reflexivity.
      * rewrite (startswith_OK_not_EMPTY _ Hok), Hok.
        rewrite splitn2_three by assumption. reflexivity.
    + intros Hempty Hok. unfold sync_inbox. rewrite Hempty, Hok. reflexivity.
  - do 4 (split; [reflexivity|]). split.
    + intros a b data _. reflexivity.
    + intros Hempty Hok. unfold sync_inbox. rewrite Hempty, Hok. reflexivity.
Qed.

(** The statement of X17 at bob's READ of message 1 and a following sync
    that fails, and one that works. *)
Lemma local_read_mark_lasts_until_sync_witness :
  (sync_inbox t1 "ERROR|Server timeout"
     (read_email_cache 1 (read_ok_text hi) stale)).1
  = [ mkInboxSummary "1" "alice" "Hi" t0 true ]
  /\ sync_inbox t1 "OK|1|1~alice~Hi~2024-01-01 10:00:00~UNREAD"
       (read_email_cache 1 (read_ok_text hi) stale)
     = sync_inbox t1 "OK|1|1~alice~Hi~2024-01-01 10:00:00~UNREAD" stale.
Proof.
  split.
  - destruct (local_read_mark_lasts_until_sync 1 (read_ok_text hi) t1
                "ERROR|Server timeout" stale) as (_ & _ & _ & _ & _ & H).
    rewrite H; reflexivity.
  - destruct (local_read_mark_lasts_until_sync 1 (read_ok_text hi) t1
                "OK|1|1~alice~Hi~2024-01-01 10:00:00~UNREAD" stale)
      as (_ & _ & _ & _ & H & _).
    apply (H "OK" "1" "1~alice~Hi~2024-01-01 10:00:00~UNREAD").
    right. repeat split; reflexivity.
Defined.

(** X18. Syncing twice on the same response is syncing once, for
    [sync_inbox] at the same clock reading and for [sync_sent]; and
    [sync_inbox] never touches the cached sent list, [sync_sent] never the
    cached inbox nor the time of the last sync. *)
Theorem sync_is_idempotent now response c :
  sync_inbox now response (sync_inbox now response c).2
  = sync_inbox now response c
  /\ sync_sent response (sync_sent response c).2 = sync_sent response c
  /\ sent (sync_inbox now response c).2 = sent c
  /\ inbox (sync_sent response c).2 = inbox c
  /\ last_sync (sync_sent response c).2 = last_sync c.
Proof.
  unfold sync_inbox, sync_sent.
  destruct (startswith "EMPTY" response); [repeat split; reflexivity|].
  destruct (negb (startswith "OK" response)); [repeat split; reflexivity|].
  destruct (splitn pipe 2 response) as [|p0 [|p1 [|p2 rest]]];
    repeat split; reflexivity.
Qed.

(** ** Drafts *)

(** X19. [save_draft] adds the draft, stamped with the time, at the end
    of the saved drafts, a missing or unreadable file counting as no
    drafts. [delete_draft] at the position of the draft just saved gives
    back the drafts there were. At a position in range it takes out that
    draft and keeps the others in order; at a negative position or one
    past the end it leaves the file as it is. *)
Theorem drafts_are_kept_in_order now to subject body file :
  load_drafts (save_draft now to subject body file)
  = load_drafts file ++ [ mkDraft to subject body now ]
  /\ delete_draft (Z.of_nat (length (load_drafts file)))
       (save_draft now to subject body file)
     = Some (load_drafts file)
  /\ (forall i, i < 0 \/ Z.of_nat (length (load_drafts file)) <= i ->
        delete_draft i file = file)
  /\ (forall i, 0 <= i < Z.of_nat (length (load_drafts file)) ->
        forall l1 d l2,
          load_drafts file = l1 ++ d :: l2 -> Z.of_nat (length l1) = i ->
          load_drafts (delete_draft i file) = l1 ++ l2).
Proof.
  split; [reflexivity|]. split; [|split].
  - unfold delete_draft, save_draft. cbn [load_drafts].
    rewrite length_app. cbn [length].
    destruct (Z.leb_spec 0 (Z.of_nat (length (load_drafts file)))); [|lia].
    destruct (Z.ltb_spec (Z.of_nat (length (load_drafts file)))
                (Z.of_nat (length (load_drafts file) + 1))); [|lia].
    cbn [andb]. rewrite Nat2Z.id, delete_middle, List.app_nil_r. reflexivity.
  - intros i Hi. unfold delete_draft.
    destruct (Z.leb_spec 0 i); [|reflexivity].
    destruct (Z.ltb_spec i (Z.of_nat (length (load_drafts file)))); [lia|].
    reflexivity.
  - intros i Hi l1 d l2 Hsplit Hlen. unfold delete_draft.
    destruct (Z.leb_spec 0 i); [|lia].
    destruct (Z.ltb_spec i (Z.of_nat (length (load_drafts file)))); [|lia].
    cbn [andb load_drafts]. rewrite Hsplit, <- Hlen, Nat2Z.id.
    apply delete_middle.
Qed.

(** The statement of X19 at two saved drafts and the positions 0, 2
    and -1. *)
Lemma drafts_are_kept_in_order_witness :
  let d1 := mkDraft "bob" "One" "first" t0 in
  let d2 := mkDraft "bob" "Two" "second" t1 in
  delete_draft 2 (Some [ d1; d2 ]) = Some [ d1; d2 ]
  /\ delete_draft (-1) (Some [ d1; d2 ]) = Some [ d1; d2 ]
  /\ load_drafts (delete_draft 0 (Some [ d1; d2 ])) = [] ++ [ d2 ].
Proof.
  intros d1 d2.
  destruct (drafts_are_kept_in_order t1 "x" "y" "z" (Some [ d1; d2 ]))
    as (_ & _ & Hout & Hin).
  split; [|split].
  - apply Hout. right. cbn. lia.
  - apply Hout. left. lia.
  - apply (Hin 0 ltac:(cbn; lia) [] d1 [ d2 ]); reflexivity.
Defined.

End ClientExtras.


(* ================================================================== *)
(** * Further properties of the wire codec *)
(* ================================================================== *)

Module WireExtras.
Import Wire WireFacts Scenario.

(** A read of exactly the first [n] bytes of a piece leaves the rest of
    the piece in front. *)
Lemma recv_prefix p tail rest cl :
  recv (length p) (mkChannel ((p ++ tail) :: rest) cl)
  = Some (p, mkChannel (match tail with [] => rest | _ => tail :: rest end) cl).
Proof.
  unfold recv. cbn [pending closed].
  rewrite take_app_length, drop_app_length. reflexivity.
Qed.

Lemma recv_piece p rest cl :
  recv (length p) (mkChannel (p :: rest) cl) = Some (p, mkChannel rest cl).
Proof.
  unfold recv. cbn [pending closed]. rewrite firstn_all, skipn_all.
  reflexivity.
Qed.

Lemma receive_loop_whole pickle_loads body tail rest cl payload :
  pickle_loads body = Some payload -> body <> [] ->
  receive_loop pickle_loads 1 (length body) None
    (mkChannel ((body ++ tail) :: rest) cl)
  = (Returned payload,
     mkChannel (match tail with [] => rest | _ => tail :: rest end) cl).
Proof.
  intros Hloads Hne. cbn [receive_loop buf_len].
  destruct (Nat.ltb_spec 0 (length body)) as [_ | Hz];
    [|destruct body; [congruence | simpl in Hz; lia]].
  rewrite Nat.sub_0_r, recv_prefix. cbn [buf_len].
  rewrite Nat.ltb_irrefl, Hloads. reflexivity.
Qed.

(** What [send] writes: the envelope, and a header of the native width
    that decodes to the length of the envelope. *)
Lemma send_header w pickle_dumps payload header envelope :
  send w pickle_dumps payload = Some (header, envelope) ->
  envelope = pickle_dumps payload
  /\ length header = w
  /\ exists v, unpack_L w header = Some v
               /\ ntohl v = Some (N.of_nat (length envelope)).
Proof.
  unfold send. intros Hsend.
  destruct (htonl (N.of_nat (length (pickle_dumps payload)))) as [v|] eqn:Hv;
    [|discriminate].
  assert (Hx : (N.of_nat (length (pickle_dumps payload)) < 2 ^ 32)%N).
  { unfold htonl in Hv.
    destruct (N.ltb_spec (N.of_nat (length (pickle_dumps payload))) (2 ^ 32));
      [assumption | discriminate]. }
  destruct (ntohl_htonl _ Hx) as (y & Hy & Hback & Hy32).
  rewrite Hv in Hy. injection Hy as <-.
  unfold pack_L in Hsend.
  destruct (N.ltb_spec v (2 ^ (8 * N.of_nat w))) as [Hfit | _];
    [|discriminate].
  injection Hsend as <- <-.
  assert (Hpow : (256 ^ N.of_nat w = 2 ^ (8 * N.of_nat w))%N).
  { change 256%N with (2 ^ 8)%N. rewrite <- N.pow_mul_r. reflexivity. }
  split; [reflexivity|]. split; [apply length_le_bytes|].
  exists v. split; [|exact Hback].
  unfold unpack_L. rewrite length_le_bytes, Nat.eqb_refl, le_value_le_bytes.
  rewrite N.mod_small by (rewrite Hpow; exact Hfit). reflexivity.
Qed.

(** One frame at the front of the stream, whatever follows it in the same
    piece. *)
Lemma receive_one_frame w pickle_dumps pickle_loads payload header envelope
    tail rest cl :
  pickle_loads (pickle_dumps payload) = Some payload ->
  pickle_dumps payload <> [] ->
  send w pickle_dumps payload = Some (header, envelope) ->
  receive w pickle_loads 1
    (mkChannel ((header ++ envelope ++ tail) :: rest) cl)
  = (Returned payload,
     mkChannel (match tail with [] => rest | _ => tail :: rest end) cl).
Proof.
  intros Hloads Hne Hsend.
  destruct (send_header _ _ _ _ _ Hsend) as (-> & Hlen & v & Hv & Hsize).
  unfold receive. rewrite <- Hlen at 1. rewrite recv_prefix.
  rewrite Hv, Hsize, Nat2N.id.
  destruct (pickle_dumps payload ++ tail) as [|b t] eqn:E.
  { apply app_eq_nil in E as [E _]. congruence. }
  rewrite <- E. by apply receive_loop_whole.
Qed.

(** X20. A frame written by [send] is read back by one [receive] as the
    payload when its envelope arrives whole, however the network packs
    it: header and envelope in one piece with later bytes behind them, or
    the header in a piece of its own; what follows the frame stays in the
    channel. It is assumed that [pickle.loads] undoes [pickle.dumps]. *)
Theorem receive_reads_back_a_whole_frame w pickle_dumps pickle_loads payload
    header envelope tail rest cl :
  pickle_loads (pickle_dumps payload) = Some payload ->
  pickle_dumps payload <> [] ->
  send w pickle_dumps payload = Some (header, envelope) ->
  receive w pickle_loads 1
    (mkChannel ((header ++ envelope ++ tail) :: rest) cl)
  = (Returned payload,
     mkChannel (match tail with [] => rest | _ => tail :: rest end) cl)
  /\ receive w pickle_loads 1
       (mkChannel (header :: (envelope ++ tail) :: rest) cl)
     = (Returned payload,
        mkChannel (match tail with [] => rest | _ => tail :: rest end) cl).
Proof.
  intros Hloads Hne Hsend. split.
  - exact (receive_one_frame _ _ _ _ _ _ _ _ _ Hloads Hne Hsend).
  - destruct (send_header _ _ _ _ _ Hsend) as (-> & Hlen & v & Hv & Hsize).
    unfold receive. rewrite <- Hlen at 1. rewrite recv_piece.
    rewrite Hv, Hsize, Nat2N.id. by apply receive_loop_whole.
Qed.

(** The statement of X20 at the frame of [OK] with three more bytes
    behind it. *)
Lemma receive_reads_back_a_whole_frame_witness :
  receive 8 (fun _ => Some "OK") 1
    (mkChannel ((header_OK ++ envelope_OK ++ [ x00; x00; x00 ]) :: []) false)
  = (Returned "OK", mkChannel [ [ x00; x00; x00 ] ] false)
  /\ receive 8 (fun _ => Some "OK") 1
       (mkChannel (header_OK :: (envelope_OK ++ [ x00; x00; x00 ]) :: [])
          false)
     = (Returned "OK", mkChannel [ [ x00; x00; x00 ] ] false).
Proof.
  apply (receive_reads_back_a_whole_frame 8 (fun _ => envelope_OK)
           (fun _ => Some "OK") "OK" header_OK envelope_OK
           [ x00; x00; x00 ] [] false).
  - reflexivity.
  - discriminate.
  - reflexivity.
Defined.

(** X21. Two frames written one after the other and delivered in a
    single piece are read back by two calls of [receive], in the order
    they were written, and nothing is left in the channel. It is assumed
    that [pickle.loads] undoes [pickle.dumps]. *)
Theorem two_frames_are_read_in_order w pickle_dumps pickle_loads p1 p2
    h1 e1 h2 e2 cl :
  pickle_loads (pickle_dumps p1) = Some p1 ->
  pickle_loads (pickle_dumps p2) = Some p2 ->
  pickle_dumps p1 <> [] -> pickle_dumps p2 <> [] ->
  send w pickle_dumps p1 = Some (h1, e1) ->
  send w pickle_dumps p2 = Some (h2, e2) ->
  exists ch,
    receive w pickle_loads 1 (mkChannel [ h1 ++ e1 ++ h2 ++ e2 ] cl)
    = (Returned p1, ch)
    /\ receive w pickle_loads 1 ch = (Returned p2, mkChannel [] cl).
Proof.
  intros L1 L2 N1 N2 S1 S2.
  assert (He2 : h2 ++ e2 <> []).
  { destruct (send_header _ _ _ _ _ S2) as (-> & _). intros E.
    apply app_eq_nil in E as [_ E]. congruence. }
  exists (mkChannel [ h2 ++ e2 ] cl). split.
  - rewrite (receive_one_frame _ _ _ _ _ _ (h2 ++ e2) [] cl L1 N1 S1).
    destruct (h2 ++ e2); [congruence | reflexivity].
  - rewrite <- (List.app_nil_r e2).
    exact (receive_one_frame _ _ _ _ _ _ [] [] cl L2 N2 S2).
Qed.

(** The statement of X21 at two frames of [OK]. *)
Lemma two_frames_are_read_in_order_witness :
  exists ch,
    receive 8 (fun _ => Some "OK") 1
      (mkChannel [ header_OK ++ envelope_OK ++ header_OK ++ envelope_OK ] true)
    = (Returned "OK", ch)
    /\ receive 8 (fun _ => Some "OK") 1 ch = (Returned "OK", mkChannel [] true).
Proof.
  apply (two_frames_are_read_in_order 8 (fun _ => envelope_OK)
           (fun _ => Some "OK") "OK" "OK" header_OK envelope_OK
           header_OK envelope_OK true);
    try reflexivity; discriminate.
Defined.

(** X22. When the first read gives fewer bytes than the header has,
    [receive] returns the empty string, which the server loop takes for
    a disconnect, and those bytes are consumed; so it does on a closed
    connection with nothing pending. *)
Theorem receive_short_header_returns_empty w pickle_loads fuel piece rest cl :
  (length piece < w)%nat ->
  receive w pickle_loads fuel (mkChannel (piece :: rest) cl)
  = (Returned "", mkChannel rest cl)
  /\ receive w pickle_loads fuel (mkChannel [] true)
     = (Returned "", mkChannel [] true).
Proof.
  intros Hlen. unfold receive, recv, unpack_L. cbn [pending closed]. split.
  - rewrite firstn_all2, skipn_all2 by lia.
    destruct (Nat.eqb_spec (length piece) w); [lia | reflexivity].
  - cbn [length]. destruct (Nat.eqb_spec 0 w); [lia | reflexivity].
Qed.

(** The statement of X22 at three bytes where eight are expected. *)
Lemma receive_short_header_returns_empty_witness :
  receive 8 (fun _ => Some "OK") 5
    (mkChannel [ [ x00; x00; x00 ]; envelope_OK ] false)
  = (Returned "", mkChannel [ envelope_OK ] false)
  /\ receive 8 (fun _ => Some "OK") 5 (mkChannel [] true)
     = (Returned "", mkChannel [] true).
Proof.
  apply (receive_short_header_returns_empty 8 (fun _ => Some "OK") 5
           [ x00; x00; x00 ] [ envelope_OK ] false).
  cbn. lia.
Defined.

(** ** The layout of the header *)

Lemma le_bytes_zero k : le_bytes k 0 = repeat x00 k.
Proof. induction k as [|k IH]; [reflexivity|]. cbn [le_bytes repeat]. f_equal. exact IH. Qed.

Lemma le_bytes_pad bs : forall k,
  le_bytes (length bs + k) (le_value bs) = bs ++ repeat x00 k.
Proof.
  induction bs as [|b t IH]; intros k; [apply le_bytes_zero|].
  cbn [length le_bytes le_value Nat.add app].
  assert (Hb := Byte.to_N_bounded b).
  assert (Hmod : ((Byte.to_N b + 256 * le_value t) mod 256 = Byte.to_N b)%N).
  { rewrite N.mul_comm, N.Div0.mod_add. apply N.mod_small. lia. }
  assert (Hdiv : ((Byte.to_N b + 256 * le_value t) / 256 = le_value t)%N).
  { rewrite N.mul_comm, N.div_add by discriminate.
    rewrite N.div_small by lia. reflexivity. }
  rewrite Hmod, Hdiv, byte_of_N_to_N, IH. reflexivity.
Qed.

(** X23. On a little-endian host whose native [L] has [w] bytes, four
    or more, the header [send] writes for an envelope of [n] bytes,
    [n] below 2^32, is the four bytes of [n] with the most significant
    first, followed by [w - 4] zero bytes; for an envelope of 2^32 bytes
    or more [send] raises and writes nothing. *)
Theorem send_header_layout w pickle_dumps payload :
  (4 <= w)%nat ->
  let n := N.of_nat (length (pickle_dumps payload)) in
  ((n < 2 ^ 32)%N ->
     send w pickle_dumps payload
     = Some (rev (le_bytes 4 n) ++ repeat x00 (w - 4), pickle_dumps payload))
  /\ ((2 ^ 32 <= n)%N -> send w pickle_dumps payload = None).
Proof.
  intros Hw n. unfold send, htonl. fold n. split.
  - intros Hn. destruct (N.ltb_spec n (2 ^ 32)) as [_ | Hge]; [|lia].
    set (bs := rev (le_bytes 4 n)).
    assert (Hlen : length bs = 4%nat).
    { unfold bs. rewrite length_rev. apply length_le_bytes. }
    assert (Hv : (le_value bs < 2 ^ 32)%N).
    { assert (H := le_value_bound bs). rewrite Hlen in H. exact H. }
    unfold pack_L.
    assert (Hpow : (2 ^ 32 <= 2 ^ (8 * N.of_nat w))%N).
    { apply N.pow_le_mono_r; lia. }
    destruct (N.ltb_spec (le_value bs) (2 ^ (8 * N.of_nat w))) as [_ | Hge];
      [|lia].
    replace w with (length bs + (w - 4))%nat at 1 by lia.
    rewrite le_bytes_pad. reflexivity.
  - intros Hn. destruct (N.ltb_spec n (2 ^ 32)) as [Hlt | _]; [lia|].
    reflexivity.
Qed.

(** The statement of X23 at the 19 bytes of the envelope of [OK]. *)
Lemma send_header_layout_witness :
  send 8 (fun _ => envelope_OK) "OK"
  = Some ([ x00; x00; x00; x13 ] ++ repeat x00 4, envelope_OK).
Proof.
  apply (send_header_layout 8 (fun _ => envelope_OK) "OK").
  - lia.
  - reflexivity.
Defined.

End WireExtras.


(* ================================================================== *)
(** * More on the server loop *)
(* ================================================================== *)

Module LoopExtras.
Import PyStr PyInt Server Multiplexer Scenario.

Lemma process_command_answers now data st :
  exists response st', process_command now data st = (inr response, st').
Proof.
  unfold process_command.
  destruct (negb (truthy data)); [eexists _, _; reflexivity|].
  assert (Hne := PyStrFacts.split_nonempty pipe data).
  destruct (split pipe data) as [|verb l]; [congruence|].
  unfold index0, bind, ret.
  destruct (handlers now verb) as [h|] eqn:Hh; [|eexists _, _; reflexivity].
  destruct (Dispatcher.handler_answers _ _ _ data st Hh)
    as (response & st' & ->).
  eexists _, _. reflexivity.
Qed.

Lemma transition_keeps_clients st st' :
  transition st st' -> clients st' = clients st.
Proof. intros H. destruct H; reflexivity. Qed.

Lemma process_command_keeps_clients now data st :
  clients (snd (process_command now data st)) = clients st.
Proof.
  exact (transition_keeps_clients _ _
           (ServerFacts.step_transition st (now, data))).
Qed.

Lemma remove_socket_in sock l :
  In sock l -> exists l', remove_socket sock l = Some l'.
Proof.
  induction l as [|x t IH]; [intros []|].
  intros Hin. cbn [remove_socket].
  destruct (decide (x = sock)) as [_ | Hne]; [eauto|].
  destruct Hin as [-> | Hin]; [congruence|].
  destruct (IH Hin) as [l' ->]. eexists. reflexivity.
Qed.

Lemma remove_socket_spec sock l l' :
  remove_socket sock l = Some l' -> List.NoDup l ->
  List.NoDup l' /\ forall x, In x l' <-> In x l /\ x <> sock.
Proof.
  revert l'. induction l as [|x t IH]; intros l' H Hnd; [discriminate|].
  cbn [remove_socket] in H. apply List.NoDup_cons_iff in Hnd as [Hx Hnd].
  destruct (decide (x = sock)) as [-> | Hne].
  - injection H as <-. split; [exact Hnd|].
    intros y. cbn [In]. split.
    + intros Hy. split; [tauto|]. intros ->. contradiction.
    + intros [[-> | Hy] Hne]; [congruence | exact Hy].
  - destruct (remove_socket sock t) as [t'|]; [|discriminate].
    injection H as <-. destruct (IH t' eq_refl Hnd) as [Hnd' Hiff].
    split.
    + apply List.NoDup_cons; [|exact Hnd']. rewrite Hiff. tauto.
    + intros y. cbn [In]. rewrite Hiff. split.
      * intros [-> | [Hy Hn]]; [split; [tauto | exact Hne] | tauto].
      * tauto.
Qed.

Lemma remove_socket_absent sock l :
  remove_socket sock l = None -> ~ In sock l.
Proof.
  intros H Hin. destruct (remove_socket_in _ _ Hin) as [l' E]. congruence.
Qed.

Lemma discard_socket_spec sock l :
  List.NoDup l ->
  List.NoDup (discard_socket sock l)
  /\ forall x, In x (discard_socket sock l) <-> In x l /\ x <> sock.
Proof.
  intros Hnd. unfold discard_socket.
  destruct (remove_socket sock l) as [l'|] eqn:E.
  - exact (remove_socket_spec _ _ _ E Hnd).
  - split; [exact Hnd|]. intros x. split; [|tauto].
    intros Hx. split; [exact Hx|]. intros ->.
    exact (remove_socket_absent _ _ E Hx).
Qed.

(** Dropping a tracked client keeps the tables in agreement and leaves
    one connection less. *)
Lemma drop_tracked st ins outs cm n ins' :
  tracked (mkMux st ins outs cm) ->
  In (Client n) ins ->
  List.NoDup ins' ->
  (forall x, In x ins' <-> In x ins /\ x <> Client n) ->
  forall st',
    tracked (mkMux st' ins' (discard_socket (Client n) outs) (delete n cm))
    /\ Z.of_nat (size (delete n cm)) = Z.of_nat (size cm) - 1.
Proof.
  intros (Hl & Hnd & Hiff & Hout) Hin Hnd' Hiff' st'.
  cbn [inputs outputs clientmap srv] in *.
  assert (Hsome : is_Some (cm !! n)) by (apply Hiff; exact Hin).
  split.
  - unfold tracked. cbn [inputs outputs clientmap srv].
    split; [|split; [|split]].
    + apply Hiff'. split; [exact Hl | discriminate].
    + exact Hnd'.
    + intros k. split.
      * intros Hk. apply Hiff' in Hk as [Hk Hne].
        assert (k <> n) by congruence.
        rewrite lookup_delete_ne by congruence. apply Hiff. exact Hk.
      * intros Hk.
        destruct (decide (k = n)) as [-> | Hne].
        -- rewrite lookup_delete_eq in Hk. destruct Hk as [? Hk].
           discriminate.
        -- rewrite lookup_delete_ne in Hk by congruence.
           apply Hiff'. split; [apply Hiff; exact Hk | congruence].
    + rewrite Hout. reflexivity.
  - rewrite map_size_delete_Some by exact Hsome.
    assert (size cm <> 0%nat).
    { intros E. apply map_size_empty_inv in E. subst cm.
      rewrite lookup_empty in Hsome. destruct Hsome as [? ?]. discriminate. }
    lia.
Qed.

(** One pass keeps the tables in agreement, and the counter moves away
    from the number of connections by one exactly when a socket error is
    caught. *)
Lemma serve_keeps_tracked now m sock o :
  tracked m -> admissible m sock o ->
  exists m' sent,
    serve now m sock o = Some (m', sent)
    /\ tracked m'
    /\ excess m' = excess m + (if failed o then 1 else 0).
Proof.
  intros Htr [Hin Hfit]. destruct m as [st ins outs cm].
  cbn [inputs outputs clientmap srv] in *.
  destruct sock as [|n], o as [client address | data send_fails | |];
    try contradiction; cbn [serve failed srv inputs outputs clientmap].
  - (* accept *)
    eexists _, _. split; [reflexivity|].
    destruct Htr as (Hl & Hnd & Hiff & Hout).
    cbn [inputs outputs clientmap srv] in *.
    split.
    + unfold tracked. cbn [inputs outputs clientmap srv].
      split; [|split; [|split]].
      * apply in_or_app. left. exact Hl.
      * apply NoDup_ListNoDup. apply NoDup_app. split; [|split].
        -- apply NoDup_ListNoDup. exact Hnd.
        -- intros x Hx Hx'. apply list_elem_of_singleton in Hx'. subst x.
           apply list_elem_of_In in Hx. apply Hiff in Hx.
           rewrite Hfit in Hx. destruct Hx as [? ?]. discriminate.
        -- apply NoDup_singleton.
      * intros k. split.
        -- intros Hk. apply in_app_or in Hk as [Hk | [Hk | []]].
           ++ destruct (decide (k = client)) as [-> | Hne].
              ** rewrite lookup_insert_eq. eauto.
              ** rewrite lookup_insert_ne by congruence.
                 apply Hiff. exact Hk.
           ++ injection Hk as <-. rewrite lookup_insert_eq. eauto.
        -- intros Hk. apply in_or_app.
           destruct (decide (k = client)) as [-> | Hne].
           ++ right. left. reflexivity.
           ++ rewrite lookup_insert_ne in Hk by congruence.
              left. apply Hiff. exact Hk.
      * exact Hout.
    + unfold excess. cbn [srv clientmap set_clients clients].
      rewrite map_size_insert_None by exact Hfit. lia.
  - (* data received *)
    assert (Hgone : exists m',
              disconnect n (mkMux st ins outs cm) = Some m'
              /\ tracked m'
              /\ excess m' = excess (mkMux st ins outs cm)).
    { assert (Hsome : is_Some (cm !! n)) by (apply Htr; exact Hin).
      destruct Hsome as [a Ha].
      destruct (remove_socket_in _ _ Hin) as [ins' Hrem].
      unfold disconnect. cbn [inputs outputs clientmap srv].
      rewrite Ha, Hrem. eexists. split; [reflexivity|].
      destruct (remove_socket_spec _ _ _ Hrem) as [Hnd' Hiff'];
        [apply Htr|].
      destruct (drop_tracked st ins outs cm n _ Htr Hin Hnd' Hiff'
                  (set_clients (clients st - 1) st)) as [Htr' Hsize].
      split; [exact Htr'|].
      unfold excess. cbn [srv clientmap set_clients clients]. lia. }
    destruct Hgone as (mg & Eg & Htrg & Hexg).
    destruct data as [data|]; cbn [payload_truthy andb];
      [|rewrite Eg; eexists _, _; split; [reflexivity|];
        split; [exact Htrg | lia]].
    destruct (truthy data) eqn:Hdata; cbn [andb].
    + destruct (process_command_answers now data st) as (response & st' & E).
      assert (Hc := process_command_keeps_clients now data st).
      rewrite E in *. cbn [snd] in Hc.
      destruct send_fails.
      * eexists _, _. split; [reflexivity|].
        unfold on_socket_error. cbn [inputs outputs clientmap srv].
        destruct (discard_socket_spec (Client n) ins) as [Hnd' Hiff'];
          [apply Htr|].
        destruct (drop_tracked st ins outs cm n _ Htr Hin Hnd' Hiff' st')
          as [Htr' Hsize].
        split; [exact Htr'|].
        unfold excess. cbn [srv clientmap]. lia.
      * eexists _, _. split; [reflexivity|].
        split; [exact Htr|]. unfold excess. cbn [srv clientmap]. lia.
    + rewrite Eg. eexists _, _. split; [reflexivity|].
      split; [exact Htrg | lia].
  - (* receive fails *)
    eexists _, _. split; [reflexivity|].
    unfold on_socket_error. cbn [inputs outputs clientmap srv].
    destruct (discard_socket_spec (Client n) ins) as [Hnd' Hiff'];
      [apply Htr|].
    destruct (drop_tracked st ins outs cm n _ Htr Hin Hnd' Hiff' st)
      as [Htr' Hsize].
    split; [exact Htr'|].
    unfold excess. cbn [srv clientmap]. lia.
Qed.

Lemma start_tracked st : tracked (start st).
Proof.
  unfold tracked, start. cbn [inputs outputs clientmap srv].
  split; [|split; [|split]].
  - left. reflexivity.
  - apply List.NoDup_cons; [intros [] | apply List.NoDup_nil].
  - intros n. split.
    + intros [H | []]. discriminate.
    + intros [a H]. rewrite lookup_empty in H. discriminate.
  - reflexivity.
Qed.

(** X24. Over passes of the loop of [run] in which [select] reports a
    socket the loop watches, [accept] gives a new socket, and [receive]
    gives a text or a false value or raises [socket.error]: every pass
    is completed, the tables [inputs] and [clientmap] stay in agreement,
    and the amount by which the counter [self.clients] exceeds the
    number of connections in [clientmap] grows by exactly the number of
    socket errors caught, since a connection dropped on a socket error
    is never subtracted. Passes in which [accept] raises, [receive]
    raises another exception or gives a true value that is not a text
    are outside this statement. *)
Theorem clients_counter_overcounts_by_errors m ps :
  tracked m -> admissible_all m ps ->
  exists m',
    serve_all m ps = Some m'
    /\ tracked m'
    /\ clients (srv m')
       = Z.of_nat (size (clientmap m')) + excess m + failures ps.
Proof.
  revert m. induction ps as [|[[now sock] o] t IH]; intros m Htr Hadm.
  - exists m. split; [reflexivity|]. split; [exact Htr|].
    unfold excess, failures. cbn. lia.
  - destruct Hadm as [Hadm Hnext].
    destruct (serve_keeps_tracked now m sock o Htr Hadm)
      as (m1 & sent & E & Htr1 & Hex).
    destruct (IH m1 Htr1 (Hnext _ _ E)) as (m' & Hrun & Htr' & Hcount).
    exists m'. cbn [serve_all]. rewrite E.
    split; [exact Hrun|]. split; [exact Htr'|].
    rewrite Hcount, Hex. unfold failures. cbn [List.filter snd].
    destruct (failed o); cbn [length]; lia.
Qed.

(** The statement of X24 at a fresh server: a client connects, asks for
    the status, and its next read fails; the counter stays at one with
    no connection left. *)
Lemma clients_counter_overcounts_by_errors_witness :
  exists m',
    serve_all (start init)
      [ (t1, Listener, Accepts 1 "10.0.0.5");
        (t1, Client 1, Receives (Text "STATUS|bob") false);
        (t1, Client 1, ReceiveFails) ] = Some m'
    /\ tracked m'
    /\ clients (srv m')
       = Z.of_nat (size (clientmap m')) + excess (start init)
         + failures [ (t1, Listener, Accepts 1 "10.0.0.5");
                      (t1, Client 1, Receives (Text "STATUS|bob") false);
                      (t1, Client 1, ReceiveFails) ].
Proof.
  apply clients_counter_overcounts_by_errors; [apply start_tracked|].
  cbn [admissible_all]. split.
  { split; [left; reflexivity | reflexivity]. }
  intros m1 sent1 E1. cbn in E1. injection E1 as <- <-. split.
  { split; [right; left; reflexivity | exact I]. }
  intros m2 sent2 E2. vm_compute in E2. injection E2 as <- <-. split.
  { split; [right; left; reflexivity | exact I]. }
  intros m3 sent3 _. exact I.
Defined.

End LoopExtras.
